(** * phaset-mcp: file discovery and budgeted collection

    A shallow embedding of [src/fileUtils.ts] (the glob matcher and the
    directory walk) and of the collector of [src/index.ts]
    ([estimateTokens], [truncateContent], [findAndReadFiles],
    [collectRepoFiles]), with the properties of the specification stated
    over it.

    Strings are Rocq [string]s: sequences of 8-bit code units.  JavaScript
    numbers that hold lengths and token counts are integers below 2^53 and
    are modelled in [Z] (division by 4 and [Math.ceil] are exact there). *)

From Stdlib Require Import Bool Arith ZArith Lia List Ascii String.
From Stdlib Require Import Sorted.
From Stdlib Require Import DecimalString.
From Stdlib Require Import Permutation.
Import ListNotations.

Local Open Scope list_scope.
Local Open Scope string_scope.

Set Implicit Arguments.

(* ================================================================== *)
(** * Strings *)
(* ================================================================== *)

Module Str.

(** [stripPrefix p s] is [Some rest] when [s = p ++ rest]. *)
Fixpoint stripPrefix (p s : string) : option string :=
  match p with
  | EmptyString => Some s
  | String a p' =>
      match s with
      | EmptyString => None
      | String b s' => if Ascii.eqb a b then stripPrefix p' s' else None
      end
  end.

(** [String.prototype.replace] with a global regular expression that is a
    literal text [pat] and a replacement [rep] without [$]: the matches are
    found left to right and do not overlap; the replacement is not scanned
    again.  The fuel is the length of the input, which is enough because
    every step consumes at least one character ([pat] is never empty in the
    program). *)
Fixpoint replaceAll_from (fuel : nat) (pat rep s : string) : string :=
  match fuel with
  | O => s
  | S n =>
      match s with
      | EmptyString => EmptyString
      | String c s' =>
          match stripPrefix pat s with
          | Some rest => rep ++ replaceAll_from n pat rep rest
          | None => String c (replaceAll_from n pat rep s')
          end
      end
  end.

Definition replaceAll (pat rep s : string) : string :=
  replaceAll_from (String.length s) pat rep s.

(** [s.startsWith(prefix)]. *)
Definition startsWith (prefix s : string) : bool :=
  match stripPrefix prefix s with Some _ => true | None => false end.

(** [s.includes(needle)]. *)
Fixpoint includes (needle s : string) : bool :=
  startsWith needle s
  || match s with
     | EmptyString => false
     | String _ s' => includes needle s'
     end.

(** Number of occurrences of the character [c]. *)
Fixpoint count (c : ascii) (s : string) : nat :=
  match s with
  | EmptyString => 0
  | String a s' => (if Ascii.eqb a c then 1 else 0) + count c s'
  end.

(** [s.includes(c)] for a one-character needle. *)
Fixpoint includesChar (c : ascii) (s : string) : bool :=
  match s with
  | EmptyString => false
  | String a s' => Ascii.eqb a c || includesChar c s'
  end.

(** Every character of [s] satisfies [p]. *)
Fixpoint forallb (p : ascii -> bool) (s : string) : bool :=
  match s with
  | EmptyString => true
  | String a s' => p a && forallb p s'
  end.

(** [c.repeat(n)]. *)
Fixpoint repeat (c : ascii) (n : nat) : string :=
  match n with
  | O => EmptyString
  | S k => String c (repeat c k)
  end.

(** [s.replace(/\\/g, '/')]: every backslash becomes a slash. *)
Fixpoint backslashToSlash (s : string) : string :=
  match s with
  | EmptyString => EmptyString
  | String c s' =>
      String (if Ascii.eqb c "\" then "/"%char else c) (backslashToSlash s')
  end.

End Str.

(* ================================================================== *)
(** * The regular-expression engine

    [matchPattern] hands a pattern text to [new RegExp] and calls [test].
    The engine is the platform's; what follows is a model of the part of
    the ECMAScript pattern grammar (no flags) that the program can reach,
    and of its backtracking semantics.  The parser is conservative:
    whatever it does not model (ranges in classes, braces, look-around,
    back-references, class escapes, lazy quantifiers) is refused, so a
    text it accepts is a text the engine compiles. *)
(* ================================================================== *)

Module RegExp.

Inductive regex : Type :=
| Empty                                   (* the empty alternative *)
| Chr (c : ascii)                         (* a pattern character or \c *)
| Dot                                     (* . *)
| Class (neg : bool) (cs : list ascii)    (* [...] and [^...] *)
| Bol                                     (* ^ *)
| Eol                                     (* $ *)
| Seq (r1 r2 : regex)
| Alt (r1 r2 : regex)
| Star (r : regex)
| Plus (r : regex)
| Opt (r : regex).

(** ** Parsing *)

(** A group being parsed: the alternatives already closed (latest first),
    the terms of the current alternative (latest first), and whether the
    latest term may take a quantifier. *)
Record frame : Type := mkFrame {
  alts : list regex;
  terms : list regex;
  quant : bool
}.

Inductive mode : Type :=
| Normal
| Escaped                                  (* after \ *)
| GroupOpen                                (* after ( *)
| GroupQ                                   (* after (? *)
| ClassOpen                                (* after [ *)
| ClassBody (neg : bool) (cs : list ascii)
| ClassEsc (neg : bool) (cs : list ascii). (* after \ inside a class *)

Record pstate : Type := mkPstate {
  md : mode;
  cur : frame;
  stack : list frame
}.

Definition emptyFrame : frame := mkFrame [] [] false.

Definition initial : pstate := mkPstate Normal emptyFrame [].

Definition mkSeq (ts : list regex) : regex := fold_right Seq Empty ts.

(** The regex of a finished group: [a1 | (a2 | ... | current)]. *)
Definition closeFrame (f : frame) : regex :=
  fold_left (fun acc a => Alt a acc) (alts f) (mkSeq (rev (terms f))).

Definition pushTerm (t : regex) (q : bool) (f : frame) : frame :=
  mkFrame (alts f) (t :: terms f) q.

Definition quantify (op : regex -> regex) (st : pstate) : option pstate :=
  match terms (cur st), quant (cur st) with
  | t :: ts, true =>
      Some (mkPstate Normal (mkFrame (alts (cur st)) (op t :: ts) false)
              (stack st))
  | _, _ => None
  end.

(** SyntaxCharacter of the grammar, and [/]. *)
Definition isSyntaxChar (c : ascii) : bool :=
  existsb (Ascii.eqb c) (list_ascii_of_string "^$\.*+?()[]{}|/").

Definition stepNormal (st : pstate) (c : ascii) : option pstate :=
  let push t q := Some (mkPstate Normal (pushTerm t q (cur st)) (stack st)) in
  if Ascii.eqb c "\" then Some (mkPstate Escaped (cur st) (stack st))
  else if Ascii.eqb c "(" then Some (mkPstate GroupOpen (cur st) (stack st))
  else if Ascii.eqb c ")" then
    match stack st with
    | [] => None
    | f :: stk =>
        Some (mkPstate Normal (pushTerm (closeFrame (cur st)) true f) stk)
    end
  else if Ascii.eqb c "[" then Some (mkPstate ClassOpen (cur st) (stack st))
  else if Ascii.eqb c "|" then
    Some (mkPstate Normal
            (mkFrame (mkSeq (rev (terms (cur st))) :: alts (cur st)) [] false)
            (stack st))
  else if Ascii.eqb c "*" then quantify Star st
  else if Ascii.eqb c "+" then quantify Plus st
  else if Ascii.eqb c "?" then quantify Opt st
  else if Ascii.eqb c "^" then push Bol false
  else if Ascii.eqb c "$" then push Eol false
  else if Ascii.eqb c "." then push Dot true
  else if Ascii.eqb c "{" || Ascii.eqb c "}" || Ascii.eqb c "]" then None
  else push (Chr c) true.

Definition stepClass (neg : bool) (cs : list ascii) (st : pstate) (c : ascii)
  : option pstate :=
  if Ascii.eqb c "]" then
    Some (mkPstate Normal (pushTerm (Class neg (rev cs)) true (cur st))
            (stack st))
  else if Ascii.eqb c "\" then
    Some (mkPstate (ClassEsc neg cs) (cur st) (stack st))
  else if Ascii.eqb c "-" then None
  else Some (mkPstate (ClassBody neg (c :: cs)) (cur st) (stack st)).

Definition openGroup (st : pstate) : pstate :=
  mkPstate Normal emptyFrame (cur st :: stack st).

Definition step (st : pstate) (c : ascii) : option pstate :=
  match md st with
  | Normal => stepNormal st c
  | Escaped =>
      if isSyntaxChar c
      then Some (mkPstate Normal (pushTerm (Chr c) true (cur st)) (stack st))
      else None
  | GroupOpen =>
      if Ascii.eqb c "?" then Some (mkPstate GroupQ (cur st) (stack st))
      else stepNormal (openGroup st) c
  | GroupQ =>
      if Ascii.eqb c ":" then Some (openGroup st) else None
  | ClassOpen =>
      if Ascii.eqb c "^"
      then Some (mkPstate (ClassBody true []) (cur st) (stack st))
      else stepClass false [] st c
  | ClassBody neg cs => stepClass neg cs st c
  | ClassEsc neg cs =>
      if isSyntaxChar c || Ascii.eqb c "-"
      then Some (mkPstate (ClassBody neg (c :: cs)) (cur st) (stack st))
      else None
  end.

Fixpoint run (st : pstate) (s : string) : option pstate :=
  match s with
  | EmptyString => Some st
  | String c s' =>
      match step st c with
      | Some st' => run st' s'
      | None => None
      end
  end.

Definition finish (st : pstate) : option regex :=
  match md st, stack st with
  | Normal, [] => Some (closeFrame (cur st))
  | _, _ => None
  end.

(** [new RegExp(source)]: [None] stands for the SyntaxError. *)
Definition compile (source : string) : option regex :=
  match run initial source with
  | Some st => finish st
  | None => None
  end.

(** ** Matching *)

(** The characters that [.] does not match: line feed and carriage
    return.  The two other line terminators of the language, U+2028 and
    U+2029, are not 8-bit code units; what is said below of the texts
    that [.*] takes is said of ASCII texts, which are the same sequence
    of code units however the other characters are written. *)
Definition isLineTerminator (c : ascii) : bool :=
  Ascii.eqb c "010" || Ascii.eqb c "013".

Definition inClass (neg : bool) (cs : list ascii) (c : ascii) : bool :=
  xorb neg (existsb (Ascii.eqb c) cs).

(** The repetition loop of [r*]: an iteration that consumes nothing is
    refused, as the engine does, so the rest of the input is a measure. *)
Fixpoint starLoop (body : bool -> string -> (bool -> string -> bool) -> bool)
    (k : bool -> string -> bool) (fuel : nat) (bol : bool) (x : string)
  : bool :=
  match fuel with
  | O => k bol x
  | S f =>
      body bol x
        (fun b y =>
           if Nat.ltb (String.length y) (String.length x)
           then starLoop body k f b y else false)
      || k bol x
  end.

(** [matchFrom r bol x k]: [r] matches a prefix of [x] and the continuation
    [k] accepts what follows; [bol] tells whether [x] starts at index 0. *)
Fixpoint matchFrom (r : regex) (bol : bool) (x : string)
    (k : bool -> string -> bool) {struct r} : bool :=
  match r with
  | Empty => k bol x
  | Chr c =>
      match x with
      | String a x' => if Ascii.eqb a c then k false x' else false
      | EmptyString => false
      end
  | Dot =>
      match x with
      | String a x' => if isLineTerminator a then false else k false x'
      | EmptyString => false
      end
  | Class neg cs =>
      match x with
      | String a x' => if inClass neg cs a then k false x' else false
      | EmptyString => false
      end
  | Bol => if bol then k bol x else false
  | Eol =>
      match x with
      | EmptyString => k bol x
      | String _ _ => false
      end
  | Seq r1 r2 => matchFrom r1 bol x (fun b y => matchFrom r2 b y k)
  | Alt r1 r2 => matchFrom r1 bol x k || matchFrom r2 bol x k
  | Star r1 => starLoop (matchFrom r1) k (String.length x) bol x
  | Plus r1 =>
      matchFrom r1 bol x
        (fun b y => starLoop (matchFrom r1) k (String.length y) b y)
  | Opt r1 => matchFrom r1 bol x k || k bol x
  end.

(** [regex.test(s)] for a regex without flags: a match is looked for at
    every start index, from 0 on. *)
Fixpoint search (r : regex) (bol : bool) (x : string) : bool :=
  matchFrom r bol x (fun _ _ => true)
  || match x with
     | EmptyString => false
     | String _ x' => search r false x'
     end.

Definition test (r : regex) (s : string) : bool := search r true s.

End RegExp.

(* ================================================================== *)
(** * fileUtils.ts: the pattern matcher *)
(* ================================================================== *)

Module FileUtils.

Import Str.

(** The class [[.+?^${}()|[\]\\]] of the first replacement. *)
Definition isRegexSpecial (c : ascii) : bool :=
  existsb (Ascii.eqb c) (list_ascii_of_string ".+?^${}()|[]\").

(** [.replace(/[.+?^${}()|[\]\\]/g, '\\$&')]: a backslash is put before
    every special character. *)
Fixpoint escapeSpecial (s : string) : string :=
  match s with
  | EmptyString => EmptyString
  | String c s' =>
      if isRegexSpecial c
      then String "\" (String c (escapeSpecial s'))
      else String c (escapeSpecial s')
  end.

Definition DOUBLESTAR_SLASH : string := "___DOUBLESTAR_SLASH___".
Definition SLASH_DOUBLESTAR : string := "___SLASH_DOUBLESTAR___".
Definition DOUBLESTAR : string := "___DOUBLESTAR___".

(** The three marker substitutions and the single star ([**/], [/**],
    [**], [*]), in the order of the source. *)
Definition toMarkers (s : string) : string :=
  replaceAll "*" "[^/]*"
    (replaceAll "**" DOUBLESTAR
       (replaceAll "/**" SLASH_DOUBLESTAR
          (replaceAll "**/" DOUBLESTAR_SLASH s))).

(** The markers become regex text. *)
Definition fromMarkers (s : string) : string :=
  replaceAll DOUBLESTAR ".*"
    (replaceAll SLASH_DOUBLESTAR "/.*"
       (replaceAll DOUBLESTAR_SLASH "(?:.*/)?" s)).

(** The text given to [new RegExp] by [matchPattern]. *)
Definition regexPattern (pattern : string) : string :=
  "^" ++ fromMarkers (toMarkers (escapeSpecial pattern)) ++ "$".

(** [matchPattern] with the exception of [new RegExp] made explicit:
    [None] is a thrown SyntaxError. *)
Definition matchPattern_exn (filePath pattern : string) : option bool :=
  match RegExp.compile (regexPattern pattern) with
  | Some r => Some (RegExp.test r filePath)
  | None => None
  end.

(** [matchPattern].  The [None] branch is dead code: [new RegExp] accepts
    every text that [regexPattern] builds, as is proved below. *)
Definition matchPattern (filePath pattern : string) : bool :=
  match matchPattern_exn filePath pattern with
  | Some b => b
  | None => false
  end.

Definition normalizePattern (pattern : string) : string :=
  backslashToSlash pattern.

Definition shouldIgnore (filePath : string) (ignorePatterns : list string)
  : bool :=
  let normalizedPath := backslashToSlash filePath in
  existsb (fun pattern => matchPattern normalizedPath pattern) ignorePatterns.

Definition matchesAnyPattern (filePath : string) (patterns : list string)
  : bool :=
  let normalizedPath := backslashToSlash filePath in
  existsb (fun pattern => matchPattern normalizedPath pattern) patterns.

(** ** The directory tree and the walk *)

(** A directory is what [fs.readdir(dir, { withFileTypes: true })] does
    on it: it throws ([Unreadable]) or it yields entries, in some order.
    [Other] is an entry that is neither a file nor a directory (a link, a
    socket). *)
Inductive entry : Type :=
| File (name : string)
| Directory (name : string) (content : dir)
| Other (name : string)
with dir : Type :=
| Unreadable
| Listing (entries : list entry).

Definition entryName (e : entry) : string :=
  match e with
  | File n => n
  | Directory n _ => n
  | Other n => n
  end.

(** [path.relative(baseDir, path.join(dir, entry.name))] on a POSIX
    system, [dirRel] being the path of [dir] relative to [baseDir] (empty
    for [baseDir] itself). *)
Definition relativeOf (dirRel name : string) : string :=
  match dirRel with
  | EmptyString => name
  | _ => dirRel ++ "/" ++ name
  end.

(** [results.add(x)] on a [Set]: insertion order is kept. *)
Definition setAdd (x : string) (results : list string) : list string :=
  if existsb (String.eqb x) results then results else results ++ [x].

Section Walk.

Variable normalizedPatterns : list string.
Variable normalizedIgnore : list string.
Variable maxDepth : Z.

(** [walk(dir, depth)]; [results] is the set the closure fills.  The
    diagnostics written with [console.error] are not part of the
    result. *)
Fixpoint walk (d : dir) (dirRel : string) (depth : Z)
    (results : list string) {struct d} : list string :=
  if (depth >? maxDepth)%Z then results
  else
    match d with
    | Unreadable => results
    | Listing entries =>
        (fix loop (l : list entry) (results : list string) {struct l}
           : list string :=
           match l with
           | [] => results
           | e :: l' =>
               let relativePath := relativeOf dirRel (entryName e) in
               if shouldIgnore relativePath normalizedIgnore
               then loop l' results
               else
                 match e with
                 | Directory _ sub =>
                     loop l' (walk sub relativePath (depth + 1)%Z results)
                 | File _ =>
                     if matchesAnyPattern relativePath normalizedPatterns
                     then loop l' (setAdd relativePath results)
                     else loop l' results
                 | Other _ => loop l' results
                 end
           end) entries results
    end.

End Walk.

(** One turn of the [for] loop of [walk], for the statements below. *)
Definition visit (patterns ignore : list string) (maxDepth : Z)
    (dirRel : string) (depth : Z) (results : list string) (e : entry)
  : list string :=
  let relativePath := relativeOf dirRel (entryName e) in
  if shouldIgnore relativePath ignore then results
  else
    match e with
    | Directory _ sub =>
        walk patterns ignore maxDepth sub relativePath (depth + 1)%Z results
    | File _ =>
        if matchesAnyPattern relativePath patterns
        then setAdd relativePath results
        else results
    | Other _ => results
    end.

(** [Array.prototype.sort()] without a comparator orders strings by code
    units.  The order is total and only equal strings compare equal, so
    the sorted array does not depend on the algorithm. *)
Fixpoint insertSorted (x : string) (l : list string) : list string :=
  match l with
  | [] => [x]
  | y :: l' => if String.leb x y then x :: l else y :: insertSorted x l'
  end.

Definition sort (l : list string) : list string :=
  fold_right insertSorted [] l.

(** The order of [sort]. *)
Definition le (a b : string) : Prop := String.leb a b = true.

(** [findFiles(baseDir, patterns, { ignore, maxDepth })].  [baseDir] is
    given by what [readdir] yields on it; the defaults of the options are
    [[]] and [10]. *)
Definition findFiles (baseDir : dir)
    (patterns ignore : list string) (maxDepth : Z) : list string :=
  let normalizedPatterns := map normalizePattern patterns in
  let normalizedIgnore := map normalizePattern ignore in
  sort (walk normalizedPatterns normalizedIgnore maxDepth
          baseDir "" 0%Z []).

Definition defaultMaxDepth : Z := 10.

(** ** Notions used to state the properties of the walk *)

(** [Visits ignore maxDepth d dirRel depth p]: the call [walk(d, depth)]
    reaches a file entry whose relative path is [p] and tests it against
    the inclusion patterns: [p] is not ignored, neither is any directory
    on the way to it, every directory on the way is readable and is
    entered at a depth of at most [maxDepth]. *)
Inductive Visits (ignore : list string) (maxDepth : Z)
  : dir -> string -> Z -> string -> Prop :=
| Visits_file (entries : list entry) (dirRel : string) (depth : Z)
    (name : string) :
    (depth <= maxDepth)%Z ->
    In (File name) entries ->
    shouldIgnore (relativeOf dirRel name) ignore = false ->
    Visits ignore maxDepth (Listing entries) dirRel depth
      (relativeOf dirRel name)
| Visits_dir (entries : list entry) (dirRel : string) (depth : Z)
    (name : string) (sub : dir) (p : string) :
    (depth <= maxDepth)%Z ->
    In (Directory name sub) entries ->
    shouldIgnore (relativeOf dirRel name) ignore = false ->
    Visits ignore maxDepth sub (relativeOf dirRel name) (depth + 1)%Z p ->
    Visits ignore maxDepth (Listing entries) dirRel depth p.

(** Two trees that differ only by the order in which [readdir] yields the
    entries of each directory. *)
Inductive sameDir : dir -> dir -> Prop :=
| sameDir_unreadable : sameDir Unreadable Unreadable
| sameDir_listing (l l' : list entry) :
    sameEntries l l' -> sameDir (Listing l) (Listing l')
with sameEntries : list entry -> list entry -> Prop :=
| sameEntries_nil : sameEntries [] []
| sameEntries_skip (e e' : entry) (l l' : list entry) :
    sameEntry e e' -> sameEntries l l' -> sameEntries (e :: l) (e' :: l')
| sameEntries_swap (e1 e2 : entry) (l : list entry) :
    sameEntries (e1 :: e2 :: l) (e2 :: e1 :: l)
| sameEntries_trans (l1 l2 l3 : list entry) :
    sameEntries l1 l2 -> sameEntries l2 l3 -> sameEntries l1 l3
with sameEntry : entry -> entry -> Prop :=
| sameEntry_file (name : string) : sameEntry (File name) (File name)
| sameEntry_other (name : string) : sameEntry (Other name) (Other name)
| sameEntry_directory (name : string) (d d' : dir) :
    sameDir d d' -> sameEntry (Directory name d) (Directory name d').

Scheme sameDir_mut := Induction for sameDir Sort Prop
  with sameEntries_mut := Induction for sameEntries Sort Prop
  with sameEntry_mut := Induction for sameEntry Sort Prop.

End FileUtils.

(* ================================================================== *)
(** * The shape of the texts that [matchPattern] builds *)
(* ================================================================== *)

Module PatternSyntax.

Import Str RegExp FileUtils.

(** The text after the first replacement: characters that are not special,
    and special characters behind a backslash. *)
Inductive Escaped : string -> Prop :=
| Escaped_nil : Escaped ""
| Escaped_plain (c : ascii) (s : string) :
    isRegexSpecial c = false -> Escaped s -> Escaped (String c s)
| Escaped_esc (c : ascii) (s : string) :
    isRegexSpecial c = true -> Escaped s ->
    Escaped (String "\" (String c s)).

Definition starClass : regex := Star (Class true ["/"%char]).
Definition anyText : regex := Star Dot.
Definition anyDirs : regex := Opt (Seq (Star Dot) (Seq (Chr "/") Empty)).

(** [Source s ts]: the text [s] is a sequence of pattern characters,
    escaped characters and the three pieces of regex text that the
    replacements put in, and [ts] are the terms they stand for. *)
Inductive Source : string -> list regex -> Prop :=
| Source_nil : Source "" []
| Source_plain (c : ascii) (s : string) (ts : list regex) :
    isRegexSpecial c = false -> c <> "*"%char -> Source s ts ->
    Source (String c s) (Chr c :: ts)
| Source_esc (c : ascii) (s : string) (ts : list regex) :
    isRegexSpecial c = true -> Source s ts ->
    Source (String "\" (String c s)) (Chr c :: ts)
| Source_star (s : string) (ts : list regex) :
    Source s ts -> Source ("[^/]*" ++ s) (starClass :: ts)
| Source_any (s : string) (ts : list regex) :
    Source s ts -> Source (".*" ++ s) (anyText :: ts)
| Source_dirs (s : string) (ts : list regex) :
    Source s ts -> Source ("(?:.*/)?" ++ s) (anyDirs :: ts).

(** The characters of the markers. *)
Definition isWordChar (c : ascii) : bool :=
  Ascii.eqb c "_"
  || ((65 <=? nat_of_ascii c)%nat && (nat_of_ascii c <=? 90)%nat).

(** A lower bound on the number of [/] in any text that [r] matches. *)
Fixpoint minSlashes (r : regex) : nat :=
  match r with
  | Chr c => if Ascii.eqb c "/" then 1 else 0
  | Seq r1 r2 => minSlashes r1 + minSlashes r2
  | Alt r1 r2 => Nat.min (minSlashes r1) (minSlashes r2)
  | Plus r1 => minSlashes r1
  | _ => 0
  end.

Definition minSlashesOf (ts : list regex) : nat :=
  fold_right (fun t n => minSlashes t + n) 0 ts.

(** The terms of a literal text. *)
Fixpoint literal (s : string) : list regex :=
  match s with
  | EmptyString => []
  | String c s' => Chr c :: literal s'
  end.

(** All the ways to cut [s] in two. *)
Fixpoint splits (s : string) : list (string * string) :=
  ("", s)
  :: match s with
     | EmptyString => []
     | String c s' =>
         map (fun ab => (String c (fst ab), snd ab)) (splits s')
     end.

(** [s.endsWith(p)]. *)
Definition endsWith (s p : string) : bool :=
  existsb (fun ab => String.eqb (snd ab) p) (splits s).

(** The ways a match of [pat] can begin in a text and end in the text [v]
    that follows it: [pat = p1 ++ p2], and [v = p2 ++ v']. *)
Definition overlaps (pat v : string) : list (string * string * string) :=
  flat_map
    (fun ab =>
       match fst ab, snd ab, stripPrefix (snd ab) v with
       | String _ _, String _ _, Some v' => [(fst ab, snd ab, v')]
       | _, _, _ => []
       end)
    (splits pat).

(** A text that the three replacements of [fromMarkers] leave as it is,
    made of marker characters. *)
Definition fixedWord (v : string) : bool :=
  Str.forallb isWordChar v
  && String.eqb (replaceAll DOUBLESTAR_SLASH "(?:.*/)?" v) v
  && String.eqb (replaceAll SLASH_DOUBLESTAR "/.*" v) v
  && String.eqb (replaceAll DOUBLESTAR ".*" v) v.

(** Neither text ends the other. *)
Definition noCommonEnd (p v : string) : bool :=
  negb (endsWith v p) && negb (endsWith p v).

(** What is asked of a match that begins in the escaped path and ends in
    the marker that follows it: the part [p1] of the match in the path is
    a word that holds [DOUBLESTAR], the rest [v'] of the marker is a fixed
    word, and no text ends with both. *)
Definition harmless (t : string * string * string) : bool :=
  let '(p1, _, v') := t in
  Str.forallb isWordChar p1 && includes "DOUBLESTAR" p1
  && fixedWord v' && noCommonEnd p1 v'.

(** A text without [*] and without the word of the markers. *)
Definition ordinary (s : string) : bool :=
  negb (includesChar "*" s) && negb (includes "DOUBLESTAR" s).

End PatternSyntax.

(* ================================================================== *)
(** * index.ts: the collector *)
(* ================================================================== *)

Module Index.

Import Str FileUtils.

Definition strlen (s : string) : Z := Z.of_nat (String.length s).

(** Template-literal rendering of a number that is an integer. *)
Definition numberToString (n : Z) : string :=
  NilZero.string_of_int (Z.to_int n).

Definition nl : string := String "010" EmptyString.

(** [Math.ceil(text.length / 4)]. *)
Definition estimateTokens (text : string) : Z :=
  (strlen text / 4 + (if strlen text mod 4 =? 0 then 0 else 1))%Z.

Definition truncationNotice (maxChars : Z) : string :=
  nl ++ nl ++ "... [Content truncated - file too large. Showing first "
     ++ numberToString maxChars ++ " characters]".

Definition truncateContent (content : string) (maxChars : Z) : string :=
  if (strlen content <=? maxChars)%Z then content
  else
    let truncated := String.substring 0 (Z.to_nat maxChars) content in
    truncated ++ truncationNotice maxChars.

Definition MAX_FILE_SIZE : Z := 50000.
Definition MAX_TOTAL_TOKENS : Z := 15000.

(** ** Priorities *)

Definition lowerChar (c : ascii) : ascii :=
  let n := nat_of_ascii c in
  if (65 <=? n)%nat && (n <=? 90)%nat then ascii_of_nat (n + 32) else c.

Fixpoint toLowerCase (s : string) : string :=
  match s with
  | EmptyString => EmptyString
  | String c s' => String (lowerChar c) (toLowerCase s')
  end.

(** [splitLast s]: the text before the last [/] of [s] (if there is a
    [/]) and the text after it. *)
Fixpoint splitLast (s : string) : option string * string :=
  match s with
  | EmptyString => (None, EmptyString)
  | String c s' =>
      match splitLast s' with
      | (Some d, b) => (Some (String c d), b)
      | (None, b) =>
          if Ascii.eqb c "/" then (Some EmptyString, b) else (None, String c b)
      end
  end.

(** [path.basename] and [path.dirname] on the relative paths that
    [findFiles] returns: names joined by [/], without a leading or a
    trailing [/]. *)
Definition basename (p : string) : string := snd (splitLast p).

Definition dirname (p : string) : string :=
  match fst (splitLast p) with
  | Some d => d
  | None => "."
  end.

Definition getFilePriority (filePath : string) : Z :=
  let fileName := basename filePath in
  let dirName := dirname filePath in
  if String.eqb fileName "package.json" then 1
  else if startsWith "readme" (toLowerCase fileName) then 2
  else if existsb (String.eqb fileName)
            ["go.mod"; "pom.xml"; "build.gradle"; "Cargo.toml";
             "pyproject.toml"; "setup.py"; "requirements.txt"; "Gemfile";
             "composer.json"] then 3
  else if startsWith "openapi." fileName || startsWith "swagger." fileName
          || includes "api-spec" fileName then 4
  else if String.eqb fileName "Dockerfile"
          || String.eqb fileName "docker-compose.yml"
          || String.eqb fileName "docker-compose.yaml" then 5
  else if includes ".github/workflows" dirName
          || String.eqb fileName ".gitlab-ci.yml"
          || String.eqb fileName "Jenkinsfile" then 6
  else if includes "terraform/" filePath || includes "k8s/" filePath
          || includes "kubernetes/" filePath then 8
  else 7.

(** [allFiles.sort((a, b) => a.priority - b.priority)]: the sort of the
    language is stable. *)
Fixpoint insertByPriority (x : string * Z) (l : list (string * Z))
  : list (string * Z) :=
  match l with
  | [] => [x]
  | y :: l' =>
      if (snd x <=? snd y)%Z then x :: l else y :: insertByPriority x l'
  end.

Definition sortByPriority (l : list (string * Z)) : list (string * Z) :=
  fold_right insertByPriority [] l.

(** ** Pattern tables *)

Definition minimal : list string :=
  ["package.json"; "package-lock.json"; "go.mod"; "go.sum"; "pom.xml";
   "build.gradle"; "build.gradle.kts"; "requirements.txt"; "setup.py";
   "pyproject.toml"; "Cargo.toml"; "Cargo.lock"; "Gemfile"; "Gemfile.lock";
   "composer.json"; "README.md"; "README.txt"; "README"; "readme.md";
   "LICENSE"; "LICENSE.txt"; "LICENSE.md"].

Definition standard : list string :=
  minimal ++
  ["Dockerfile"; "Dockerfile.*"; "docker-compose.yml"; "docker-compose.yaml";
   ".dockerignore"; ".github/workflows/*.yml"; ".github/workflows/*.yaml";
   ".gitlab-ci.yml"; "azure-pipelines.yml"; "Jenkinsfile"; "openapi.yaml";
   "openapi.yml"; "openapi.json"; "swagger.json"; "swagger.yaml";
   "swagger.yml"; "api-spec.yaml"; "api-spec.yml"; "schema.graphql";
   "*.graphql"; "CODEOWNERS"; ".env.example"; ".env.sample"; "Makefile";
   "justfile"].

Definition deep : list string :=
  standard ++
  ["terraform/**/*.tf"; "terraform/*.tf"; "k8s/**/*.yaml"; "k8s/**/*.yml";
   "kubernetes/**/*.yaml"; "kubernetes/**/*.yml"; ".k8s/**/*.yaml";
   "helm/**/*.yaml"; "config/*.json"; "config/*.yaml"; "config/*.yml";
   ".circleci/config.yml"; "bitbucket-pipelines.yml"; "cloudbuild.yaml";
   "skaffold.yaml"; "serverless.yml"; "serverless.yaml"].

(** [getFilePatterns(depth)]: [patterns[depth] || standard], for the
    depths the tool schema lets through and any other name that is not a
    property of the table. *)
Definition getFilePatterns (depth : string) : list string :=
  if String.eqb depth "minimal" then minimal
  else if String.eqb depth "standard" then standard
  else if String.eqb depth "deep" then deep
  else standard.

Definition ignoreList : list string :=
  ["node_modules/**"; ".git/**"; "dist/**"; "build/**"; "target/**";
   ".next/**"; "out/**"; "vendor/**"; ".venv/**"; "venv/**";
   "__pycache__/**"; "*.pyc"; ".idea/**"; ".vscode/**"; "coverage/**";
   ".coverage/**"].

(** ** Reading under the budgets *)

(** [fs.readFile(path.join(repoPath, match), 'utf-8')]: the text, or the
    message of the error thrown. *)
Inductive readResult : Type :=
| ReadOk (content : string)
| ReadError (message : string).

(** The variables of [findAndReadFiles] that the loop updates, and the
    lines that [findAndReadFiles] itself writes with [console.error]
    (the lines of [walk] about directories that cannot be read are not
    kept). *)
Record state : Type := mkState {
  results : list (string * string);
  totalTokens : Z;
  log : list string
}.

Definition say (line : string) (st : state) : state :=
  mkState (results st) (totalTokens st) (log st ++ [line]).

Definition NUL : ascii := "000"%char.

Inductive outcome : Type :=
| Continue (st : state)
| Break (st : state).

Section Collect.

Variable readFile : string -> readResult.

(** What the loop body does with the text read from [match_], up to the
    budget test: the text to return and the state after the
    diagnostic. *)
Definition prepare (match_ content : string) (st : state)
  : string * state :=
  if (strlen content >? MAX_FILE_SIZE)%Z then
    (truncateContent content MAX_FILE_SIZE,
     say ("Truncating " ++ match_ ++ ": too large ("
            ++ numberToString (strlen content) ++ " chars, keeping first "
            ++ numberToString MAX_FILE_SIZE ++ ")") st)
  else (content, st).

(** One turn of the [for] loop over [allFiles]; [total] is
    [allFiles.length].  [Break] is the [break] of the source, [Continue]
    is [continue] or the end of the body. *)
Definition loopBody (total : Z) (match_ : string) (st : state) : outcome :=
  match readFile match_ with
  | ReadError message =>
      Continue (say ("Could not read " ++ match_ ++ ": " ++ message) st)
  | ReadOk content =>
      if includesChar NUL content then
        Continue (say ("Skipping " ++ match_ ++ ": appears to be binary") st)
      else
        let (content', st1) := prepare match_ content st in
        let tokens := estimateTokens content' in
        if (totalTokens st1 + tokens >? MAX_TOTAL_TOKENS)%Z then
          Break
            (say ("Reached token budget limit ("
                    ++ numberToString (totalTokens st1) ++ "/"
                    ++ numberToString MAX_TOTAL_TOKENS ++ "). Collected "
                    ++ numberToString (Z.of_nat (List.length (results st1)))
                    ++ " files. Skipping remaining "
                    ++ numberToString
                         (total - Z.of_nat (List.length (results st1)))
                    ++ " files.") st1)
        else
          Continue
            (mkState (results st1 ++ [(match_, content')])
               (totalTokens st1 + tokens) (log st1))
  end.

Fixpoint readLoop (total : Z) (files : list string) (st : state) : state :=
  match files with
  | [] => st
  | match_ :: rest =>
      match loopBody total match_ st with
      | Continue st' => readLoop total rest st'
      | Break st' => st'
      end
  end.

(** The first loop: [seenPaths] removes repeated matches. *)
Fixpoint withPriorities (matches seenPaths : list string)
  : list (string * Z) :=
  match matches with
  | [] => []
  | match_ :: rest =>
      if existsb (String.eqb match_) seenPaths
      then withPriorities rest seenPaths
      else (match_, getFilePriority match_)
             :: withPriorities rest (seenPaths ++ [match_])
  end.

Definition initialState : state := mkState [] 0 [].

(** [allFiles] after the sort, as the paths the second loop visits. *)
Definition allFiles (baseDir : dir) (patterns : list string)
  : list string :=
  let matches :=
    findFiles baseDir patterns ignoreList defaultMaxDepth in
  map fst (sortByPriority (withPriorities matches [])).

(** The state when the second loop has ended. *)
Definition afterLoop (baseDir : dir) (patterns : list string) : state :=
  let files := allFiles baseDir patterns in
  readLoop (Z.of_nat (List.length files)) files initialState.

(** [findAndReadFiles(repoPath, patterns)]: the final state holds the
    array returned and the diagnostics.  The repository is given by its
    tree and by what reading each of its files gives. *)
Definition findAndReadFiles_state (baseDir : dir)
    (patterns : list string) : state :=
  let st := afterLoop baseDir patterns in
  say ("Collected " ++ numberToString (Z.of_nat (List.length (results st)))
         ++ " files (≈" ++ numberToString (totalTokens st) ++ " tokens)") st.

Definition findAndReadFiles (baseDir : dir)
    (patterns : list string)
  : list (string * string) :=
  results (findAndReadFiles_state baseDir patterns).

(** One element of [files] in the answer of [collect_repo_files]. *)
Record reportedFile : Type := mkReported {
  path : string;
  sizeBytes : Z;
  content : string
}.

(** The [files.map(...)] of [collectRepoFiles]. *)
Definition report (f : string * string) : reportedFile :=
  mkReported (fst f) (strlen (snd f)) (snd f).


(** The estimated cost of the files returned. *)
Definition tokensOf (files : list (string * string)) : Z :=
  fold_right (fun f acc => (estimateTokens (snd f) + acc)%Z) 0%Z files.

(** The budget test of the loop body on [match_] in the state [st]: the
    file is read, is not binary, and its cost does not fit any more. *)
Definition wouldExceed (st : state) (match_ : string) : bool :=
  match readFile match_ with
  | ReadOk content =>
      negb (includesChar NUL content)
      && (totalTokens st
          + estimateTokens (fst (prepare match_ content st))
          >? MAX_TOTAL_TOKENS)%Z
  | ReadError _ => false
  end.

End Collect.

End Index.

(* ================================================================== *)
(** * Trees and files used as examples *)
(* ================================================================== *)

Module Fixtures.

Import Str FileUtils Index.

(** A repository with one manifest of 50001 characters. *)
Definition bigTree : dir := Listing [File "package.json"].

Definition bigContent : string := Str.repeat "x" (Z.to_nat 50001).

Definition bigRead (match_ : string) : readResult := ReadOk bigContent.

(** A repository with a manifest and a small README. *)
Definition smallTree : dir :=
  Listing [File "README.md"; File "package.json"].

Definition smallRead (match_ : string) : readResult :=
  if String.eqb match_ "package.json" then ReadOk "{}"
  else ReadOk "# readme".

(** Three files: two of 40000 characters (10000 tokens each) and a short
    one that comes last in priority order. *)
Definition budgetTree : dir :=
  Listing [File "Makefile"; File "README.md"; File "package.json"].

Definition budgetRead (match_ : string) : readResult :=
  if String.eqb match_ "Makefile" then ReadOk "all:"
  else ReadOk (Str.repeat "x" (Z.to_nat 40000)).

(** A repository whose Dockerfile holds a null byte. *)
Definition binaryTree : dir := Listing [File "Dockerfile"; File "README.md"].

Definition binaryRead (match_ : string) : readResult :=
  if String.eqb match_ "Dockerfile"
  then ReadOk (String "000" (String "001" (String "002" EmptyString)))
  else ReadOk "# readme".

(** The trees of the testable properties of the specification. *)
Definition jsTree : dir :=
  Listing [Directory "node_modules" (Listing [File "lib.js"]);
           Directory "dist" (Listing [File "index.js"])].

Definition srcTree : dir :=
  Listing [Directory "src" (Listing [File "index.ts"])].

Definition manifestTree : dir := Listing [File "package.json"].

(** A file under a directory that an exclusion pattern names. *)
Definition hiddenTree : dir := Listing [Directory "a" (Listing [File "b.js"])].

(** A file name that holds a line feed. *)
Definition twoLines : string := "a" ++ String "010" "b.js".

Definition twoLinesTree : dir :=
  Listing [Directory "node_modules" (Listing [File twoLines; File "c.js"])].

(** A directory name that holds a line feed. *)
Definition lineFeedDir : string := "a" ++ String "010" "b".

(** A directory whose name ends like the beginning of a marker. *)
Definition markerDir : string := "x___DOUBLESTAR_SLASH".

Definition markerTree : dir :=
  Listing [Directory markerDir (Listing [File "n.js"])].

(** The same directory, listed in two orders. *)
Definition orderedTree : dir :=
  Listing [File "a.ts"; Directory "lib" (Listing [File "x.ts"; File "y.ts"])].

Definition shuffledTree : dir :=
  Listing [Directory "lib" (Listing [File "y.ts"; File "x.ts"]); File "a.ts"].

End Fixtures.

(* ================================================================== *)
(** * Notions used to state further properties *)
(* ================================================================== *)

Module Notions.

Import Str FileUtils Index.

(** An entry that the loop of [walk] passes over in the directory whose
    relative path is [dirRel]: its path matches an exclusion pattern, or
    it is neither a file nor a directory, or it is a directory that
    [readdir] cannot read. *)
Definition skipped (ignore : list string) (dirRel : string) (e : entry)
  : Prop :=
  shouldIgnore (relativeOf dirRel (entryName e)) ignore = true
  \/ (exists name, e = Other name)
  \/ (exists name, e = Directory name Unreadable).

(** The order in which the second loop of [findAndReadFiles] takes the
    candidates: by priority, and by code units among equal priorities. *)
Definition readBefore (a b : string) : Prop :=
  (getFilePriority a < getFilePriority b)%Z
  \/ (getFilePriority a = getFilePriority b /\ String.compare a b = Lt).

(** A candidate that the loop can return: reading it gives a text
    without a null byte. *)
Definition isText (readFile : string -> readResult) (p : string) : bool :=
  match readFile p with
  | ReadOk content => negb (includesChar NUL content)
  | ReadError _ => false
  end.

(** The number of characters returned. *)
Definition charsOf (files : list (string * string)) : Z :=
  fold_right (fun f acc => (strlen (snd f) + acc)%Z) 0%Z files.

(** [Subsequence l1 l2]: [l1] is [l2] with some elements left out. *)
Inductive Subsequence (A : Type) : list A -> list A -> Prop :=
| Subsequence_nil : Subsequence [] []
| Subsequence_keep (x : A) (l1 l2 : list A) :
    Subsequence l1 l2 -> Subsequence (x :: l1) (x :: l2)
| Subsequence_drop (x : A) (l1 l2 : list A) :
    Subsequence l1 l2 -> Subsequence l1 (x :: l2).

(** A text without line feed and without carriage return. *)
Definition noLineBreak (s : string) : bool :=
  Str.forallb (fun c => negb (RegExp.isLineTerminator c)) s.

(** A text of ASCII characters without line feed and without carriage
    return: a text that [.*] takes. *)
Definition asciiLine (s : string) : bool :=
  Str.forallb
    (fun c => negb (RegExp.isLineTerminator c)
              && Nat.ltb (nat_of_ascii c) 128)
    s.

(** [HasFile d dirs name]: the tree [d] has the file [name] below the
    directories [dirs], outermost first, each of them listed. *)
Inductive HasFile : dir -> list string -> string -> Prop :=
| HasFile_here (entries : list entry) (name : string) :
    In (File name) entries -> HasFile (Listing entries) [] name
| HasFile_below (entries : list entry) (d : string) (sub : dir)
    (dirs : list string) (name : string) :
    In (Directory d sub) entries ->
    HasFile sub dirs name ->
    HasFile (Listing entries) (d :: dirs) name.

(** The relative path of the entry [name] below the directories [dirs],
    outermost first, as [walk] builds it. *)
Definition pathOf (dirRel : string) (dirs : list string) (name : string)
  : string :=
  fold_left relativeOf (dirs ++ [name]) dirRel.

(** What a candidate costs when the loop takes it; a candidate that is
    not a text costs nothing. *)
Definition costOf (readFile : string -> readResult) (p : string) : Z :=
  match readFile p with
  | ReadOk content =>
      if includesChar NUL content then 0%Z
      else estimateTokens (truncateContent content MAX_FILE_SIZE)
  | ReadError _ => 0%Z
  end.

Definition totalCost (readFile : string -> readResult)
    (files : list string) : Z :=
  fold_right (fun p acc => (costOf readFile p + acc)%Z) 0%Z files.

(** The element of the array for a candidate that is taken. *)
Definition taken (readFile : string -> readResult) (p : string)
  : string * string :=
  (p,
   match readFile p with
   | ReadOk content => truncateContent content MAX_FILE_SIZE
   | ReadError _ => ""
   end).

(** A repository whose README cannot be read. *)
Definition lockedRead (match_ : string) : readResult :=
  if String.eqb match_ "README.md" then ReadError "EACCES: permission denied"
  else ReadOk "{}".

End Notions.

(* ================================================================== *)
(** * index.ts: the tool [collect_repo_files] *)
(* ================================================================== *)

Module Tools.

Import Str FileUtils Index.

(** The [depth] argument as the schema of the tools lets it through. *)
Inductive scanDepth : Type :=
| Minimal
| Standard
| Deep.

Definition depthName (d : scanDepth) : string :=
  match d with
  | Minimal => "minimal"
  | Standard => "standard"
  | Deep => "deep"
  end.

(** What [fs.stat(repoPath)] and [stats.isDirectory()] give: the error
    thrown, a path that is not a directory, or the directory. *)
Inductive statResult : Type :=
| StatError (message : string)
| StatOther
| StatDirectory (tree : dir).

(** The object that [collectRepoFiles] gives to [JSON.stringify]; a key
    that the object does not have is [None]. *)
Record answer : Type := mkAnswer {
  repoPath : string;
  filesCollected : Z;
  depth : option string;
  warning : option string;
  files : list reportedFile
}.

Definition noFilesWarning : string :=
  "No relevant files found. This may not be a software repository "
    ++ "or it may use an unsupported structure.".

(** [collectRepoFiles(args)], the handler of the tool
    [collect_repo_files]: [inl message] is the [Error] thrown, [depthArg]
    is [args.depth] ([None] when the caller gives none). *)
Definition collectRepoFilesTool (readFile : string -> readResult)
    (path_ : string) (stats : statResult) (depthArg : option scanDepth)
  : string + answer :=
  let depth :=
    match depthArg with
    | Some d => depthName d
    | None => "standard"
    end in
  match stats with
  | StatError message => inl ("Failed to collect files: " ++ message)
  | StatOther =>
      inl ("Failed to collect files: "
             ++ "Path is not a directory: " ++ path_)
  | StatDirectory tree =>
      let found := findAndReadFiles readFile tree (getFilePatterns depth) in
      if (Z.of_nat (List.length found) =? 0)%Z
      then inr (mkAnswer path_ 0 None (Some noFilesWarning) [])
      else
        inr (mkAnswer path_ (Z.of_nat (List.length found)) (Some depth) None
               (map report found))
  end.

(** The sum of the [sizeBytes] of an answer. *)
Definition sizesOf (l : list reportedFile) : Z :=
  fold_right (fun f acc => (sizeBytes f + acc)%Z) 0%Z l.

(** The diagnostic of a truncation. *)
Definition truncationLine (match_ original : string) : string :=
  "Truncating " ++ match_ ++ ": too large ("
    ++ numberToString (strlen original) ++ " chars, keeping first "
    ++ numberToString MAX_FILE_SIZE ++ ")".

(** The diagnostics [lg] tell the truncation of [p], if its text is
    longer than the cap. *)
Definition reported (readFile : string -> readResult) (lg : list string)
    (p : string) : Prop :=
  forall original,
    readFile p = ReadOk original ->
    (strlen original > MAX_FILE_SIZE)%Z ->
    In (truncationLine p original) lg.

End Tools.

(* ================================================================== *)
(** * Facts about strings and replacement *)
(* ================================================================== *)

Module StrFacts.

Import Str.

Lemma app_nil_r (s : string) : s ++ "" = s.
Proof. induction s as [|c s IH]; simpl; [reflexivity | now rewrite IH]. Qed.

Lemma app_assoc (a b c : string) : (a ++ b) ++ c = a ++ (b ++ c).
Proof. induction a as [|x a IH]; simpl; [reflexivity | now rewrite IH]. Qed.

Lemma length_app (a b : string) :
  String.length (a ++ b) = String.length a + String.length b.
Proof. induction a as [|x a IH]; simpl; [reflexivity | now rewrite IH]. Qed.

(** Induction on the length of a string. *)
Lemma length_ind (P : string -> Prop) :
  (forall s, (forall t, String.length t < String.length s -> P t) -> P s) ->
  forall s, P s.
Proof.
  intros step s.
  assert (H : forall n t, String.length t < n -> P t).
  { induction n as [|n IH]; intros t Ht; [lia|].
    apply step. intros u Hu. apply IH. lia. }
  apply (H (S (String.length s))). lia.
Qed.

Lemma stripPrefix_Some (p s r : string) :
  stripPrefix p s = Some r <-> s = p ++ r.
Proof.
  revert s; induction p as [|a p IH]; intros s; simpl.
  - split; [now intros [= ->] | now intros ->].
  - destruct s as [|b s]; [split; discriminate|].
    destruct (Ascii.eqb_spec a b) as [->|Hab].
    + rewrite IH. split; [now intros -> | now intros [= ->]].
    + split; [discriminate | intros [= E _]; congruence].
Qed.

Lemma stripPrefix_app (p r : string) : stripPrefix p (p ++ r) = Some r.
Proof. now apply stripPrefix_Some. Qed.

Lemma stripPrefix_head (a b : ascii) (p s : string) :
  a <> b -> stripPrefix (String a p) (String b s) = None.
Proof. intros H. simpl. now destruct (Ascii.eqb_spec a b). Qed.

Lemma stripPrefix_shorter (pat s rest : string) :
  pat <> "" -> stripPrefix pat s = Some rest ->
  String.length rest < String.length s.
Proof.
  intros Hpat E. apply stripPrefix_Some in E. subst s.
  rewrite length_app. destruct pat; [congruence | simpl; lia].
Qed.

Lemma replaceAll_from_fuel (pat rep : string) :
  pat <> "" ->
  forall n m s, String.length s <= n -> String.length s <= m ->
  replaceAll_from n pat rep s = replaceAll_from m pat rep s.
Proof.
  intros Hpat. induction n as [|n IH]; intros m s Hn Hm.
  - destruct s; simpl in Hn; [|lia]. destruct m; reflexivity.
  - destruct s as [|c s]; [destruct m; reflexivity|].
    destruct m as [|m]; [simpl in Hm; lia|].
    cbn [replaceAll_from].
    destruct (stripPrefix pat (String c s)) as [rest|] eqn:E.
    + apply stripPrefix_shorter in E; [|exact Hpat].
      simpl in *. f_equal. apply IH; lia.
    + simpl in *. f_equal. apply IH; lia.
Qed.

(** The equation of [replaceAll]. *)
Lemma replaceAll_cons (pat rep : string) (c : ascii) (s : string) :
  pat <> "" ->
  replaceAll pat rep (String c s) =
  match stripPrefix pat (String c s) with
  | Some rest => rep ++ replaceAll pat rep rest
  | None => String c (replaceAll pat rep s)
  end.
Proof.
  intros Hpat. unfold replaceAll at 1. cbn [String.length replaceAll_from].
  destruct (stripPrefix pat (String c s)) as [rest|] eqn:E.
  - f_equal. apply replaceAll_from_fuel; [exact Hpat| |lia].
    apply stripPrefix_shorter in E; [simpl in E; lia | exact Hpat].
  - reflexivity.
Qed.

Lemma replaceAll_nil (pat rep : string) : replaceAll pat rep "" = "".
Proof. reflexivity. Qed.

(** A match is replaced and the scan goes on after it. *)
Lemma replaceAll_hit (pat rep s : string) :
  pat <> "" -> replaceAll pat rep (pat ++ s) = rep ++ replaceAll pat rep s.
Proof.
  intros Hpat. destruct pat as [|a p]; [congruence|].
  change (String a p ++ s) with (String a (p ++ s)).
  rewrite replaceAll_cons by discriminate.
  change (String a (p ++ s)) with (String a p ++ s).
  now rewrite stripPrefix_app.
Qed.

(** A character that is not the first of the pattern is copied. *)
Lemma replaceAll_skip (a : ascii) (p rep : string) (c : ascii) (s : string) :
  a <> c ->
  replaceAll (String a p) rep (String c s)
  = String c (replaceAll (String a p) rep s).
Proof.
  intros H. rewrite replaceAll_cons by discriminate.
  now rewrite stripPrefix_head.
Qed.

(** So is a text none of whose characters is the first of the pattern. *)
Lemma replaceAll_skip_all (a : ascii) (p rep f s : string) :
  Str.forallb (fun c => negb (Ascii.eqb a c)) f = true ->
  replaceAll (String a p) rep (f ++ s) = f ++ replaceAll (String a p) rep s.
Proof.
  induction f as [|c f IH]; simpl; intros H; [reflexivity|].
  apply andb_true_iff in H as [Hc Hf].
  rewrite replaceAll_skip.
  - now rewrite IH.
  - intros ->. now rewrite Ascii.eqb_refl in Hc.
Qed.

Lemma replaceAll_absent (a : ascii) (p rep s : string) :
  Str.forallb (fun c => negb (Ascii.eqb a c)) s = true ->
  replaceAll (String a p) rep s = s.
Proof.
  intros H. rewrite <- (app_nil_r s) at 1.
  rewrite replaceAll_skip_all by exact H.
  now rewrite replaceAll_nil, app_nil_r.
Qed.

End StrFacts.

(* ================================================================== *)
(** * The collector: truncation, budget, binary files *)
(* ================================================================== *)

Module IndexFacts.

Import Str FileUtils Index Fixtures StrFacts.

Local Open Scope Z_scope.

Lemma strlen_app (a b : string) : strlen (a ++ b) = strlen a + strlen b.
Proof. unfold strlen. rewrite length_app. lia. Qed.

(** [s.substring(0, n)] is the prefix of length [n] when [s] is that long. *)
Lemma substring_prefix (n : nat) (s : string) :
  (n <= String.length s)%nat ->
  exists rest, s = (String.substring 0 n s ++ rest)%string
               /\ String.length (String.substring 0 n s) = n.
Proof.
  revert s; induction n as [|n IH]; intros s Hn.
  - exists s. destruct s; simpl; auto.
  - destruct s as [|c s]; [simpl in Hn; lia|].
    destruct (IH s) as (rest & E & L); [simpl in Hn; lia|].
    exists rest. simpl. split; [now rewrite <- E | now rewrite L].
Qed.

Lemma notice_length : strlen (truncationNotice MAX_FILE_SIZE) = 74.
Proof. reflexivity. Qed.

(** What [truncateContent] returns for a text longer than the cap. *)
Lemma truncateContent_long (content : string) (maxChars : Z) :
  0 <= maxChars -> strlen content > maxChars ->
  truncateContent content maxChars
  = (String.substring 0 (Z.to_nat maxChars) content
       ++ truncationNotice maxChars)%string
  /\ strlen (String.substring 0 (Z.to_nat maxChars) content) = maxChars.
Proof.
  intros H0 Hlen. unfold truncateContent.
  destruct (Z.leb_spec (strlen content) maxChars) as [?|_]; [lia|].
  split; [reflexivity|].
  destruct (@substring_prefix (Z.to_nat maxChars) content) as (rest & _ & L).
  - unfold strlen in Hlen. lia.
  - unfold strlen. rewrite L. lia.
Qed.

Lemma truncateContent_short (content : string) (maxChars : Z) :
  strlen content <= maxChars -> truncateContent content maxChars = content.
Proof.
  intros H. unfold truncateContent.
  now destruct (Z.leb_spec (strlen content) maxChars); [|lia].
Qed.

Section Loop.

Variable readFile : string -> readResult.

Lemma prepare_fst (match_ content : string) (st : state) :
  fst (prepare match_ content st) = truncateContent content MAX_FILE_SIZE.
Proof.
  unfold prepare.
  destruct (Z.gtb_spec (strlen content) MAX_FILE_SIZE); simpl;
    [reflexivity | now rewrite truncateContent_short].
Qed.

Lemma prepare_snd (match_ content : string) (st : state) :
  results (snd (prepare match_ content st)) = results st
  /\ totalTokens (snd (prepare match_ content st)) = totalTokens st.
Proof.
  unfold prepare.
  destruct (strlen content >? MAX_FILE_SIZE); simpl; auto.
Qed.

(** The three things a turn of the loop can do. *)
Lemma loopBody_cases (total : Z) (match_ : string) (st : state) :
  (exists line,
      loopBody readFile total match_ st = Continue (say line st)
      /\ (forall content, readFile match_ = ReadOk content ->
          includesChar NUL content = true))
  \/ (exists content st1,
         readFile match_ = ReadOk content
         /\ includesChar NUL content = false
         /\ results st1 = results st /\ totalTokens st1 = totalTokens st
         /\ let content' := truncateContent content MAX_FILE_SIZE in
            let tokens := estimateTokens content' in
            (totalTokens st + tokens > MAX_TOTAL_TOKENS
             /\ exists line,
                  loopBody readFile total match_ st = Break (say line st1))
            \/ (totalTokens st + tokens <= MAX_TOTAL_TOKENS
                /\ loopBody readFile total match_ st
                   = Continue
                       (mkState (results st ++ [(match_, content')])
                          (totalTokens st + tokens) (log st1)))).
Proof.
  unfold loopBody.
  destruct (readFile match_) as [content|message] eqn:R.
  - destruct (includesChar NUL content) eqn:B.
    + left. eexists. split; [reflexivity|]. now intros ? [= <-].
    + right. exists content.
      pose proof (prepare_fst match_ content st) as F.
      pose proof (prepare_snd match_ content st) as [Sr St].
      destruct (prepare match_ content st) as [content' st1].
      simpl in F, Sr, St. subst content'.
      exists st1. repeat split; auto.
      rewrite St.
      destruct (Z.gtb_spec
                  (totalTokens st
                   + estimateTokens (truncateContent content MAX_FILE_SIZE))
                  MAX_TOTAL_TOKENS).
      * left. split; [lia|]. eexists. reflexivity.
      * right. split; [lia|]. now rewrite Sr.
  - left. eexists. split; [reflexivity|]. discriminate.
Qed.

(** An invariant of the loop is a property that diagnostics keep and
    that holds again when a file is accepted. *)
Lemma readLoop_invariant (P : list (string * string) -> Z -> Prop)
    (total : Z) :
  (forall rs tot match_ content,
      P rs tot ->
      readFile match_ = ReadOk content ->
      includesChar NUL content = false ->
      let content' := truncateContent content MAX_FILE_SIZE in
      tot + estimateTokens content' <= MAX_TOTAL_TOKENS ->
      P (rs ++ [(match_, content')])%list (tot + estimateTokens content')) ->
  forall files st,
    P (results st) (totalTokens st) ->
    P (results (readLoop readFile total files st))
      (totalTokens (readLoop readFile total files st)).
Proof.
  intros Hacc. induction files as [|match_ rest IH]; intros st HP;
    [exact HP|].
  cbn [readLoop].
  destruct (loopBody_cases total match_ st)
    as [(line & -> & _)
       |(content & st1 & R & B & Sr & St & [(_ & line & ->)|(Hle & ->)])].
  - apply IH. exact HP.
  - simpl. now rewrite Sr, St.
  - apply IH. simpl. now apply Hacc.
Qed.

Lemma tokensOf_app (a b : list (string * string)) :
  tokensOf (a ++ b) = tokensOf a + tokensOf b.
Proof.
  unfold tokensOf. induction a as [|x a IH]; simpl; [reflexivity|].
  rewrite IH. lia.
Qed.

(** What the loop returns was read, is not binary, and went through
    [truncateContent]. *)
Lemma readLoop_results (total : Z) (files : list string) (st : state) :
  (forall p c, In (p, c) (results st) ->
     exists original, readFile p = ReadOk original
       /\ includesChar NUL original = false
       /\ c = truncateContent original MAX_FILE_SIZE) ->
  forall p c, In (p, c) (results (readLoop readFile total files st)) ->
    exists original, readFile p = ReadOk original
      /\ includesChar NUL original = false
      /\ c = truncateContent original MAX_FILE_SIZE.
Proof.
  intros H0.
  apply (@readLoop_invariant
           (fun rs _ => forall p c, In (p, c) rs ->
              exists original, readFile p = ReadOk original
                /\ includesChar NUL original = false
                /\ c = truncateContent original MAX_FILE_SIZE));
    [|exact H0].
  intros rs tot match_ content HP R B content' _ p c Hin.
  apply in_app_or in Hin as [Hin|[[= <- <-]|[]]]; [now apply HP|].
  exists content. auto.
Qed.

Lemma readLoop_budget (total : Z) (files : list string) (st : state) :
  tokensOf (results st) = totalTokens st ->
  totalTokens st <= MAX_TOTAL_TOKENS ->
  tokensOf (results (readLoop readFile total files st))
  <= MAX_TOTAL_TOKENS.
Proof.
  intros E L.
  cut (tokensOf (results (readLoop readFile total files st))
       = totalTokens (readLoop readFile total files st)
       /\ totalTokens (readLoop readFile total files st)
          <= MAX_TOTAL_TOKENS); [lia|].
  apply (@readLoop_invariant
           (fun rs tot => tokensOf rs = tot /\ tot <= MAX_TOTAL_TOKENS));
    [|auto].
  intros rs tot match_ content [HE HL] _ _ content' Hfit.
  split; [|exact Hfit].
  rewrite tokensOf_app, HE. simpl. lia.
Qed.

(** The [break]: a candidate that does not fit ends the loop, and the
    array is the one the candidates before it gave. *)
Lemma readLoop_break (total : Z) (c : string) (post : list string) :
  forall pre st,
    wouldExceed readFile (readLoop readFile total pre st) c = true ->
    results (readLoop readFile total (pre ++ c :: post)%list st)
    = results (readLoop readFile total pre st).
Proof.
  induction pre as [|x pre IH]; intros st H.
  - cbn [readLoop app] in *. unfold wouldExceed in H.
    destruct (loopBody_cases total c st)
      as [(line & _ & Hbin)
         |(content & st1 & R & B & Sr & St
             & [(_ & line & ->)|(Hle & _)])].
    + destruct (readFile c) as [content|]; [|discriminate].
      rewrite (Hbin content eq_refl) in H. discriminate.
    + simpl. exact Sr.
    + rewrite R, B, prepare_fst in H. simpl in H, Hle.
      destruct (Z.gtb_spec
                  (totalTokens st
                   + estimateTokens (truncateContent content MAX_FILE_SIZE))
                  MAX_TOTAL_TOKENS); [lia | discriminate].
  - cbn [readLoop app] in *.
    destruct (loopBody readFile total x st) as [st'|st'];
      [now apply IH | reflexivity].
Qed.

Lemma findAndReadFiles_afterLoop (baseDir : dir) (patterns : list string) :
  findAndReadFiles readFile baseDir patterns
  = results (afterLoop readFile baseDir patterns).
Proof. reflexivity. Qed.

End Loop.

(** Membership decided by evaluation. *)
Lemma In_files (x : string * string) (l : list (string * string)) :
  existsb (fun y => String.eqb (fst x) (fst y) && String.eqb (snd x) (snd y))
    l = true ->
  In x l.
Proof.
  intros H. apply existsb_exists in H as ([p c] & Hin & E).
  apply andb_true_iff in E as [E1 E2]. simpl in E1, E2.
  apply String.eqb_eq in E1, E2. destruct x; simpl in *. now subst.
Qed.


(** ** Per-file cap *)

(** C1, as the specification words it, fails: a manifest of 50001
    characters comes back as its first 50000 characters followed by the
    notice, 50074 characters in all, which is more than the cap. *)
Lemma content_cap_counterexample :
  exists p c,
    In (p, c) (findAndReadFiles bigRead bigTree minimal)
    /\ bigRead p = ReadOk bigContent
    /\ strlen bigContent = 50001
    /\ strlen c = 50074
    /\ strlen c > MAX_FILE_SIZE.
Proof.
  exists "package.json", (truncateContent bigContent MAX_FILE_SIZE).
  split; [apply In_files; vm_compute; reflexivity|].
  repeat split; vm_compute; reflexivity.
Qed.

(** C1, amended: every file returned by [findAndReadFiles] holds either
    the text read, when it has at most 50000 characters, or the first
    50000 characters of it followed by the truncation notice; the length
    returned is therefore at most the cap plus the length of the notice
    (50074), and the kept prefix is never longer than the cap. *)
Theorem content_cap_with_notice (readFile : string -> readResult)
    (baseDir : dir) (patterns : list string) (p c : string) :
  In (p, c) (findAndReadFiles readFile baseDir patterns) ->
  exists original,
    readFile p = ReadOk original
    /\ ((strlen original <= MAX_FILE_SIZE /\ c = original)
        \/ (strlen original > MAX_FILE_SIZE
            /\ c = (String.substring 0 (Z.to_nat MAX_FILE_SIZE) original
                      ++ truncationNotice MAX_FILE_SIZE)%string
            /\ strlen (String.substring 0 (Z.to_nat MAX_FILE_SIZE) original)
               = MAX_FILE_SIZE))
    /\ strlen c <= MAX_FILE_SIZE + strlen (truncationNotice MAX_FILE_SIZE)
    /\ strlen c <= 50074.
Proof.
  intros Hin. rewrite findAndReadFiles_afterLoop in Hin.
  unfold afterLoop in Hin.
  apply readLoop_results in Hin; [|intros ? ? []].
  destruct Hin as (original & R & _ & ->).
  exists original. split; [exact R|].
  rewrite notice_length.
  destruct (Z_le_gt_dec (strlen original) MAX_FILE_SIZE) as [Hle|Hgt].
  - rewrite truncateContent_short by exact Hle.
    split; [left; auto|]. unfold MAX_FILE_SIZE in *. lia.
  - destruct (@truncateContent_long original MAX_FILE_SIZE) as [E L];
      [unfold MAX_FILE_SIZE; lia | exact Hgt |].
    split; [right; auto|].
    rewrite E, strlen_app, L, notice_length. unfold MAX_FILE_SIZE. lia.
Qed.

Lemma content_cap_with_notice_witness :
  exists original,
    smallRead "package.json" = ReadOk original
    /\ ((strlen original <= MAX_FILE_SIZE /\ "{}" = original)
        \/ (strlen original > MAX_FILE_SIZE
            /\ "{}" = (String.substring 0 (Z.to_nat MAX_FILE_SIZE) original
                         ++ truncationNotice MAX_FILE_SIZE)%string
            /\ strlen (String.substring 0 (Z.to_nat MAX_FILE_SIZE) original)
               = MAX_FILE_SIZE))
    /\ strlen "{}" <= MAX_FILE_SIZE + strlen (truncationNotice MAX_FILE_SIZE)
    /\ strlen "{}" <= 50074.
Proof.
  apply (@content_cap_with_notice smallRead smallTree minimal
           "package.json" "{}").
  apply In_files. vm_compute. reflexivity.
Defined.

(** ** The size reported *)




(** ** Aggregate budget *)

(** C3: in every run the estimated costs of the files returned add up to
    at most 15000; and when the cost of a candidate would push the running
    total over the budget, the loop ends there: what is returned is what
    the candidates before it gave, whatever comes after it in priority
    order. *)
Theorem token_budget_stops_collection (readFile : string -> readResult)
    (baseDir : dir) (patterns : list string) :
  tokensOf (findAndReadFiles readFile baseDir patterns) <= MAX_TOTAL_TOKENS
  /\ forall (pre : list string) (c : string) (post : list string),
       allFiles baseDir patterns = (pre ++ c :: post)%list ->
       let total := Z.of_nat (List.length (allFiles baseDir patterns)) in
       let before := readLoop readFile total pre initialState in
       wouldExceed readFile before c = true ->
       findAndReadFiles readFile baseDir patterns = results before.
Proof.
  split.
  - rewrite findAndReadFiles_afterLoop. unfold afterLoop.
    apply readLoop_budget; [reflexivity | unfold MAX_TOTAL_TOKENS; simpl; lia].
  - intros pre c post E total before H.
    rewrite findAndReadFiles_afterLoop. unfold afterLoop.
    fold total. rewrite E. now apply readLoop_break.
Qed.

Lemma token_budget_stops_collection_witness :
  tokensOf (findAndReadFiles budgetRead budgetTree standard)
  <= MAX_TOTAL_TOKENS
  /\ findAndReadFiles budgetRead budgetTree standard
     = results (readLoop budgetRead 3 ["package.json"] initialState).
Proof.
  destruct (@token_budget_stops_collection budgetRead budgetTree standard)
    as [Hsum Hstop].
  split; [exact Hsum|].
  apply (Hstop ["package.json"] "README.md" ["Makefile"]).
  - vm_compute. reflexivity.
  - vm_compute. reflexivity.
Defined.

(** ** Binary files *)

(** C9: a file whose text holds a null byte is skipped: the turn of the
    loop leaves the array and the running total as they were and writes
    exactly one diagnostic, which names the file; and the file is not in
    what [findAndReadFiles] returns. *)
Theorem binary_file_skipped (readFile : string -> readResult) (total : Z)
    (match_ content : string) (st : state) :
  readFile match_ = ReadOk content ->
  includesChar NUL content = true ->
  loopBody readFile total match_ st
  = Continue
      (mkState (results st) (totalTokens st)
         (log st ++ ["Skipping " ++ match_ ++ ": appears to be binary"]))
  /\ forall (baseDir : dir) (patterns : list string) (c : string),
       ~ In (match_, c) (findAndReadFiles readFile baseDir patterns).
Proof.
  intros R B. split.
  - unfold loopBody. now rewrite R, B.
  - intros baseDir patterns c Hin.
    rewrite findAndReadFiles_afterLoop in Hin. unfold afterLoop in Hin.
    apply readLoop_results in Hin; [|intros ? ? []].
    destruct Hin as (original & R' & B' & _).
    rewrite R in R'. injection R' as <-. congruence.
Qed.

Lemma binary_file_skipped_witness :
  loopBody binaryRead 2 "Dockerfile" initialState
  = Continue
      (mkState [] 0 ["Skipping Dockerfile: appears to be binary"])
  /\ forall (baseDir : dir) (patterns : list string) (c : string),
       ~ In ("Dockerfile", c) (findAndReadFiles binaryRead baseDir patterns).
Proof.
  apply (@binary_file_skipped binaryRead 2 "Dockerfile"
           (String "000" (String "001" (String "002" EmptyString)))
           initialState); reflexivity.
Defined.

End IndexFacts.

(* ================================================================== *)
(** * The walk: what it visits, order and duplicates *)
(* ================================================================== *)

Module WalkFacts.

Import Str FileUtils StrFacts.

(** ** An induction principle for trees *)

Lemma dir_ind_nested (P : dir -> Prop) :
  P Unreadable ->
  (forall entries,
      (forall name sub, In (Directory name sub) entries -> P sub) ->
      P (Listing entries)) ->
  forall d, P d.
Proof.
  intros HU HL.
  fix F 1. intros [|entries]; [exact HU|].
  apply HL.
  induction entries as [|e entries IH]; intros name sub Hin.
  - destruct Hin.
  - destruct Hin as [E|Hin]; [|exact (IH name sub Hin)].
    destruct e as [n|n d|n]; try discriminate E.
    injection E as _ <-. apply F.
Qed.

(** ** The loop of [walk] as a fold *)

Section Walk.

Variable patterns : list string.
Variable ignore : list string.
Variable maxDepth : Z.

Lemma walk_beyond (d : dir) (dirRel : string) (depth : Z)
    (results : list string) :
  (depth > maxDepth)%Z ->
  walk patterns ignore maxDepth d dirRel depth results = results.
Proof.
  intros H. destruct d; simpl;
    destruct (Z.gtb_spec depth maxDepth); auto; lia.
Qed.

Lemma walk_unreadable (dirRel : string) (depth : Z) (results : list string) :
  walk patterns ignore maxDepth Unreadable dirRel depth results = results.
Proof. simpl. now destruct (depth >? maxDepth)%Z. Qed.

Lemma walk_listing (entries : list entry) (dirRel : string) (depth : Z)
    (results : list string) :
  (depth <= maxDepth)%Z ->
  walk patterns ignore maxDepth (Listing entries) dirRel depth results
  = fold_left (visit patterns ignore maxDepth dirRel depth) entries results.
Proof.
  intros H. simpl. destruct (Z.gtb_spec depth maxDepth); [lia|].
  revert results.
  induction entries as [|e entries IH]; intros results; [reflexivity|].
  cbn [fold_left]. unfold visit at 2.
  destruct (shouldIgnore (relativeOf dirRel (entryName e)) ignore);
    [apply IH|].
  destruct e as [n|n sub|n]; [|apply IH|apply IH].
  destruct (matchesAnyPattern (relativeOf dirRel (entryName (File n))) patterns);
    apply IH.
Qed.

Lemma setAdd_In (x p : string) (results : list string) :
  In p (setAdd x results) <-> p = x \/ In p results.
Proof.
  unfold setAdd.
  destruct (existsb (String.eqb x) results) eqn:E.
  - split; [auto|]. intros [->|H]; [|exact H].
    apply existsb_exists in E as (y & Hy & Exy).
    apply String.eqb_eq in Exy. now subst.
  - rewrite in_app_iff. simpl. intuition.
Qed.

Lemma setAdd_NoDup (x : string) (results : list string) :
  NoDup results -> NoDup (setAdd x results).
Proof.
  intros H. unfold setAdd.
  destruct (existsb (String.eqb x) results) eqn:E; [exact H|].
  apply NoDup_rev in H. rewrite <- (rev_involutive (results ++ [x])).
  apply NoDup_rev. rewrite rev_app_distr. simpl. constructor; [|exact H].
  intros Hin. apply in_rev in Hin.
  assert (existsb (String.eqb x) results = true); [|congruence].
  apply existsb_exists. exists x. split; [exact Hin | apply String.eqb_refl].
Qed.

Lemma Visits_inv (entries : list entry) (dirRel : string) (depth : Z)
    (p : string) :
  Visits ignore maxDepth (Listing entries) dirRel depth p ->
  (depth <= maxDepth)%Z
  /\ ((exists name,
          In (File name) entries
          /\ shouldIgnore (relativeOf dirRel name) ignore = false
          /\ p = relativeOf dirRel name)
      \/ (exists name sub,
             In (Directory name sub) entries
             /\ shouldIgnore (relativeOf dirRel name) ignore = false
             /\ Visits ignore maxDepth sub (relativeOf dirRel name)
                  (depth + 1)%Z p)).
Proof.
  intros H. inversion H; subst; (split; [assumption|]).
  - left. exists name. auto.
  - right. exists name, sub. auto.
Qed.

Lemma Visits_listing_iff (entries : list entry) (dirRel : string) (depth : Z)
    (p : string) :
  Visits ignore maxDepth (Listing entries) dirRel depth p
  <-> exists e, In e entries
                /\ Visits ignore maxDepth (Listing [e]) dirRel depth p.
Proof.
  split.
  - intros H.
    apply Visits_inv in H
      as (Hd & [(name & Hin & Ig & ->)|(name & sub & Hin & Ig & H')]).
    + exists (File name). split; [assumption|].
      apply Visits_file; simpl; auto.
    + exists (Directory name sub). split; [assumption|].
      eapply Visits_dir; simpl; eauto.
  - intros (e & Hin & H).
    apply Visits_inv in H
      as (Hd & [(name & [->|[]] & Ig & ->)|(name & sub & [->|[]] & Ig & H')]).
    + now apply Visits_file.
    + eapply Visits_dir; eauto.
Qed.

(** What one turn of the loop adds, given what the recursive call adds. *)
Lemma visit_spec (e : entry) (dirRel : string) (depth : Z) :
  (depth <= maxDepth)%Z ->
  (forall name sub, e = Directory name sub ->
     forall rel dep results p,
       In p (walk patterns ignore maxDepth sub rel dep results)
       <-> In p results
           \/ (Visits ignore maxDepth sub rel dep p
               /\ matchesAnyPattern p patterns = true)) ->
  forall results p,
    In p (visit patterns ignore maxDepth dirRel depth results e)
    <-> In p results
        \/ (Visits ignore maxDepth (Listing [e]) dirRel depth p
            /\ matchesAnyPattern p patterns = true).
Proof.
  intros Hd IH results p. unfold visit.
  destruct (shouldIgnore (relativeOf dirRel (entryName e)) ignore) eqn:Ig.
  - split; [auto|]. intros [H|[H _]]; [exact H|]. exfalso.
    apply Visits_inv in H
      as (_ & [(name & [->|[]] & Ig' & _)|(name & sub & [->|[]] & Ig' & _)]);
      simpl in Ig; congruence.
  - destruct e as [n|n sub|n]; simpl in Ig |- *.
    + destruct (matchesAnyPattern (relativeOf dirRel n) patterns) eqn:M.
      * rewrite setAdd_In. split.
        -- intros [->|H]; [right|auto]. split; [|exact M].
           apply Visits_file; simpl; auto.
        -- intros [H|[H _]]; [auto|]. left.
           apply Visits_inv in H
             as (_ & [(name & [[= <-]|[]] & _ & ->)
                     |(name & sub & [[=]|[]] & _)]).
           reflexivity.
      * split; [auto|]. intros [H|[H Hm]]; [exact H|]. exfalso.
        apply Visits_inv in H
          as (_ & [(name & [[= <-]|[]] & _ & ->)
                  |(name & sub & [[=]|[]] & _)]).
        congruence.
    + rewrite (IH n sub eq_refl). split.
      * intros [H|[H Hm]]; [auto|]. right. split; [|exact Hm].
        eapply Visits_dir; simpl; eauto.
      * intros [H|[H Hm]]; [auto|]. right. split; [|exact Hm].
        apply Visits_inv in H
          as (_ & [(name & [[=]|[]] & _)
                  |(name & sub' & [[= <- <-]|[]] & _ & H')]).
        exact H'.
    + split; [auto|]. intros [H|[H _]]; [exact H|]. exfalso.
      apply Visits_inv in H
        as (_ & [(name & [[=]|[]] & _)|(name & sub & [[=]|[]] & _)]).
Qed.

(** The paths in the set when [walk] returns: those that were there, and
    the files visited that match an inclusion pattern. *)
Lemma walk_spec (d : dir) :
  forall dirRel depth results p,
    In p (walk patterns ignore maxDepth d dirRel depth results)
    <-> In p results
        \/ (Visits ignore maxDepth d dirRel depth p
            /\ matchesAnyPattern p patterns = true).
Proof.
  induction d as [|entries IH] using dir_ind_nested;
    intros dirRel depth results p.
  - rewrite walk_unreadable. split; [auto|].
    intros [H|[H _]]; [exact H | inversion H].
  - destruct (Z_le_gt_dec depth maxDepth) as [Hd|Hd].
    + rewrite walk_listing by exact Hd.
      rewrite Visits_listing_iff.
      revert results.
      induction entries as [|e entries IHl]; intros results.
      * simpl. split; [auto|]. intros [H|[(e & [] & _) _]]. exact H.
      * cbn [fold_left]. rewrite IHl.
        2:{ intros name sub Hin. apply (IH name sub). now right. }
        rewrite visit_spec; [|exact Hd|].
        2:{ intros name sub ->. apply (IH name sub). now left. }
        split.
        -- intros [[H|[H Hm]]|[(e' & Hin & H) Hm]]; auto.
           ++ right. split; [|exact Hm]. exists e. split; [now left|exact H].
           ++ right. split; [|exact Hm]. exists e'. split; [now right|exact H].
        -- intros [H|[(e' & [<-|Hin] & H) Hm]]; auto.
           right. split; [|exact Hm]. exists e'. auto.
    + rewrite walk_beyond by exact Hd. split; [auto|].
      intros [H|[H _]]; [exact H|]. apply Visits_inv in H as [? _]. lia.
Qed.

Lemma walk_NoDup (d : dir) :
  forall dirRel depth results,
    NoDup results ->
    NoDup (walk patterns ignore maxDepth d dirRel depth results).
Proof.
  induction d as [|entries IH] using dir_ind_nested;
    intros dirRel depth results H.
  - now rewrite walk_unreadable.
  - destruct (Z_le_gt_dec depth maxDepth) as [Hd|Hd].
    + rewrite walk_listing by exact Hd.
      revert results H.
      induction entries as [|e entries IHl]; intros results H; [exact H|].
      cbn [fold_left]. apply IHl.
      * intros name sub Hin. apply (IH name sub). now right.
      * unfold visit.
        destruct (shouldIgnore (relativeOf dirRel (entryName e)) ignore);
          [exact H|].
        destruct e as [n|n sub|n]; [| |exact H].
        -- destruct (matchesAnyPattern _ patterns);
             [now apply setAdd_NoDup | exact H].
        -- apply (IH n sub); [now left | exact H].
    + now rewrite walk_beyond by exact Hd.
Qed.

End Walk.

(** ** Sorting *)

Lemma leb_trans (a b c : string) :
  String.leb a b = true -> String.leb b c = true -> String.leb a c = true.
Proof.
  unfold String.leb. revert b c.
  induction a as [|x a IH]; intros [|y b] [|z c]; simpl; try congruence.
  unfold Ascii.compare.
  destruct (N.compare_spec (N_of_ascii x) (N_of_ascii y)) as [Exy|Lxy|Gxy];
    destruct (N.compare_spec (N_of_ascii y) (N_of_ascii z)) as [Eyz|Lyz|Gyz];
    destruct (N.compare_spec (N_of_ascii x) (N_of_ascii z)) as [Exz|Lxz|Gxz];
    intros H1 H2; try reflexivity; try discriminate; try lia.
  exact (IH b c H1 H2).
Qed.

Lemma leb_refl (a : string) : String.leb a a = true.
Proof. now destruct (String.leb_total a a). Qed.

Lemma insertSorted_In (x p : string) (l : list string) :
  In p (insertSorted x l) <-> p = x \/ In p l.
Proof.
  induction l as [|y l IH]; simpl; [intuition|].
  destruct (String.leb x y); simpl; [intuition|].
  rewrite IH. intuition.
Qed.

Lemma sort_In (p : string) (l : list string) : In p (sort l) <-> In p l.
Proof.
  unfold sort. induction l as [|x l IH]; simpl; [tauto|].
  rewrite insertSorted_In, IH. intuition.
Qed.

Lemma insertSorted_sorted (x : string) (l : list string) :
  StronglySorted le l -> StronglySorted le (insertSorted x l).
Proof.
  induction 1 as [|y l Hs IH Hall]; simpl.
  - constructor; constructor.
  - destruct (String.leb x y) eqn:E.
    + constructor; [now constructor|].
      constructor; [exact E|].
      eapply Forall_impl; [|exact Hall].
      intros z Hz. now apply (@leb_trans x y z).
    + constructor; [exact IH|].
      apply Forall_forall. intros z Hz.
      apply insertSorted_In in Hz as [->|Hz].
      * destruct (String.leb_total x y); [congruence | assumption].
      * rewrite Forall_forall in Hall. now apply Hall.
Qed.

Lemma sort_sorted (l : list string) : StronglySorted le (sort l).
Proof.
  unfold sort. induction l as [|x l IH]; simpl;
    [constructor | now apply insertSorted_sorted].
Qed.

Lemma insertSorted_NoDup (x : string) (l : list string) :
  ~ In x l -> NoDup l -> NoDup (insertSorted x l).
Proof.
  induction l as [|y l IH]; simpl; intros Hx Hl.
  - constructor; [tauto | constructor].
  - destruct (String.leb x y).
    + constructor; [simpl; tauto | exact Hl].
    + inversion Hl; subst. constructor.
      * rewrite insertSorted_In. intros [->|H]; tauto.
      * apply IH; tauto.
Qed.

Lemma sort_NoDup (l : list string) : NoDup l -> NoDup (sort l).
Proof.
  unfold sort. induction 1 as [|x l Hx Hl IH]; simpl; [constructor|].
  apply insertSorted_NoDup; [|exact IH].
  fold (sort l). now rewrite sort_In.
Qed.

(** A sorted list without duplicates is strictly increasing. *)
Lemma sorted_strict (l : list string) :
  StronglySorted le l -> NoDup l ->
  StronglySorted (fun a b => String.compare a b = Lt) l.
Proof.
  induction 1 as [|x l Hs IH Hall]; intros Hnd; [constructor|].
  inversion Hnd; subst. constructor; [now apply IH|].
  apply Forall_forall. intros y Hy.
  rewrite Forall_forall in Hall. specialize (Hall y Hy).
  unfold le, String.leb in Hall.
  destruct (String.compare x y) eqn:E; [|reflexivity|discriminate].
  apply String.compare_eq_iff in E. now subst.
Qed.

(** The sorted list without duplicates of a set of strings is unique. *)
Lemma sorted_unique (l1 l2 : list string) :
  StronglySorted le l1 -> StronglySorted le l2 ->
  NoDup l1 -> NoDup l2 ->
  (forall p, In p l1 <-> In p l2) ->
  l1 = l2.
Proof.
  intros S1. revert l2.
  induction S1 as [|x l1 S1 IH A1]; intros l2 S2 N1 N2 H.
  - destruct l2 as [|y l2]; [reflexivity|].
    destruct (proj2 (H y)). now left.
  - destruct S2 as [|y l2 S2 A2].
    + destruct (proj1 (H x)). now left.
    + rewrite Forall_forall in A1, A2.
      inversion N1; subst. inversion N2; subst.
      assert (x = y) as <-.
      { apply String.leb_antisym.
        - destruct (proj2 (H y) (or_introl eq_refl)) as [->|Hin];
            [apply leb_refl | now apply A1].
        - destruct (proj1 (H x) (or_introl eq_refl)) as [->|Hin];
            [apply leb_refl | now apply A2]. }
      f_equal. apply IH; auto.
      intros p. split; intros Hp.
      * destruct (proj1 (H p) (or_intror Hp)) as [->|Hin];
          [contradiction | exact Hin].
      * destruct (proj2 (H p) (or_intror Hp)) as [->|Hin];
          [contradiction | exact Hin].
Qed.

(** ** Enumeration order *)

Section Order.

Variable ignore : list string.
Variable maxDepth : Z.

Lemma Visits_cons (e : entry) (l : list entry) (dirRel : string) (depth : Z)
    (p : string) :
  Visits ignore maxDepth (Listing (e :: l)) dirRel depth p
  <-> Visits ignore maxDepth (Listing [e]) dirRel depth p
      \/ Visits ignore maxDepth (Listing l) dirRel depth p.
Proof.
  rewrite (Visits_listing_iff ignore maxDepth (e :: l)).
  rewrite (Visits_listing_iff ignore maxDepth l). split.
  - intros (e' & [<-|Hin] & H); [now left|]. right. now exists e'.
  - intros [H|(e' & Hin & H)]; [exists e | exists e']; simpl; auto.
Qed.

Lemma Visits_depth (d : dir) (dirRel : string) (depth : Z) (p : string) :
  Visits ignore maxDepth d dirRel depth p -> (depth <= maxDepth)%Z.
Proof. now destruct 1. Qed.

Lemma Visits_not_ignored (d : dir) (dirRel : string) (depth : Z) (p : string) :
  Visits ignore maxDepth d dirRel depth p -> shouldIgnore p ignore = false.
Proof. induction 1; assumption. Qed.

Lemma Visits_directory (name : string) (sub : dir) (dirRel : string)
    (depth : Z) (p : string) :
  Visits ignore maxDepth (Listing [Directory name sub]) dirRel depth p
  <-> (depth <= maxDepth)%Z
      /\ shouldIgnore (relativeOf dirRel name) ignore = false
      /\ Visits ignore maxDepth sub (relativeOf dirRel name) (depth + 1)%Z p.
Proof.
  split.
  - intros H. apply Visits_inv in H
      as (Hd & [(n & [[=]|[]] & _)|(n & sub' & [[= <- <-]|[]] & Ig & H')]).
    auto.
  - intros (Hd & Ig & H). eapply Visits_dir; simpl; eauto.
Qed.

(** The files visited do not depend on the order of the listings. *)
Lemma sameDir_Visits (d d' : dir) :
  sameDir d d' ->
  forall dirRel depth p,
    Visits ignore maxDepth d dirRel depth p
    <-> Visits ignore maxDepth d' dirRel depth p.
Proof.
  intros H.
  apply (sameDir_mut
           (fun d d' _ => forall dirRel depth p,
              Visits ignore maxDepth d dirRel depth p
              <-> Visits ignore maxDepth d' dirRel depth p)
           (fun l l' _ => forall dirRel depth p,
              Visits ignore maxDepth (Listing l) dirRel depth p
              <-> Visits ignore maxDepth (Listing l') dirRel depth p)
           (fun e e' _ => forall dirRel depth p,
              Visits ignore maxDepth (Listing [e]) dirRel depth p
              <-> Visits ignore maxDepth (Listing [e']) dirRel depth p));
    try tauto.
  - intros e e' l l' _ He _ Hl dirRel depth p.
    now rewrite (Visits_cons e l), (Visits_cons e' l'), He, Hl.
  - intros e1 e2 l dirRel depth p.
    rewrite (Visits_cons e1 (e2 :: l)), (Visits_cons e2 l),
      (Visits_cons e2 (e1 :: l)), (Visits_cons e1 l).
    tauto.
  - intros l1 l2 l3 _ H12 _ H23 dirRel depth p. now rewrite H12.
  - intros name d0 d0' _ Hd dirRel depth p.
    now rewrite !Visits_directory, Hd.
Qed.

End Order.

(** ** What [findFiles] returns *)

Lemma findFiles_In (baseDir : dir) (patterns ignore : list string)
    (maxDepth : Z) (p : string) :
  In p (findFiles baseDir patterns ignore maxDepth)
  <-> Visits (map normalizePattern ignore) maxDepth baseDir "" 0%Z p
      /\ matchesAnyPattern p (map normalizePattern patterns) = true.
Proof.
  unfold findFiles. rewrite sort_In, walk_spec. simpl. tauto.
Qed.

(** C5, as the specification words it, fails in the direction "matches an
    inclusion pattern and no exclusion pattern, hence appears": the file
    [a/b.js] matches [**/*.js] and does not match the exclusion pattern
    [a], but the walk does not enter the excluded directory [a]. *)
Lemma exclusion_iff_counterexample :
  matchesAnyPattern "a/b.js" (map normalizePattern ["**/*.js"]) = true
  /\ shouldIgnore "a/b.js" (map normalizePattern ["a"]) = false
  /\ ~ In "a/b.js" (findFiles Fixtures.hiddenTree ["**/*.js"] ["a"] 10).
Proof.
  split; [vm_compute; reflexivity|].
  split; [vm_compute; reflexivity|].
  vm_compute. tauto.
Qed.

(** C5, amended: a path that matches an exclusion pattern never appears
    in the result of [findFiles], even if it matches an inclusion pattern;
    and a path appears if and only if it is the path of a file that the
    walk reaches (every directory above it is readable, matches no
    exclusion pattern and is entered within [maxDepth]) and it matches at
    least one inclusion pattern and no exclusion pattern.  With inclusion
    [**/*.js] and exclusion [node_modules/**], [node_modules/lib.js] is
    not returned and [dist/index.js] is. *)
Theorem exclusion_wins_over_inclusion (baseDir : dir)
    (patterns ignore : list string) (maxDepth : Z) (p : string) :
  (shouldIgnore p (map normalizePattern ignore) = true ->
   ~ In p (findFiles baseDir patterns ignore maxDepth))
  /\ (In p (findFiles baseDir patterns ignore maxDepth)
      <-> Visits (map normalizePattern ignore) maxDepth baseDir "" 0%Z p
          /\ matchesAnyPattern p (map normalizePattern patterns) = true
          /\ shouldIgnore p (map normalizePattern ignore) = false)
  /\ findFiles Fixtures.jsTree ["**/*.js"] ["node_modules/**"] 10
     = ["dist/index.js"].
Proof.
  split; [|split].
  - intros Ig Hin. apply findFiles_In in Hin as [Hv _].
    apply Visits_not_ignored in Hv. congruence.
  - rewrite findFiles_In. split; [|tauto].
    intros [Hv Hm]. repeat split; auto.
    now apply Visits_not_ignored in Hv.
  - vm_compute. reflexivity.
Qed.

Lemma exclusion_wins_over_inclusion_witness :
  ~ In "node_modules/lib.js"
      (findFiles Fixtures.jsTree ["**/*.js"] ["node_modules/**"] 10).
Proof.
  destruct (@exclusion_wins_over_inclusion Fixtures.jsTree ["**/*.js"]
              ["node_modules/**"] 10 "node_modules/lib.js") as [H _].
  apply H. vm_compute. reflexivity.
Defined.

(** C6: the result of [findFiles] is strictly increasing in the order of
    code units, hence without duplicates, and it is the same for two
    trees that differ only by the order in which the entries of each
    directory are listed; the patterns [package.json] and [*.json] give
    one occurrence of [package.json]. *)
Theorem findFiles_sorted_and_order_independent (baseDir : dir)
    (patterns ignore : list string) (maxDepth : Z) :
  StronglySorted (fun a b => String.compare a b = Lt)
    (findFiles baseDir patterns ignore maxDepth)
  /\ NoDup (findFiles baseDir patterns ignore maxDepth)
  /\ (forall baseDir',
        sameDir baseDir baseDir' ->
        findFiles baseDir' patterns ignore maxDepth
        = findFiles baseDir patterns ignore maxDepth)
  /\ findFiles Fixtures.manifestTree ["package.json"; "*.json"] [] 10
     = ["package.json"].
Proof.
  assert (Hnd : forall d, NoDup (findFiles d patterns ignore maxDepth)).
  { intros d. unfold findFiles. apply sort_NoDup, walk_NoDup. constructor. }
  assert (Hs : forall d, StronglySorted le (findFiles d patterns ignore maxDepth)).
  { intros d. unfold findFiles. apply sort_sorted. }
  split; [|split; [|split]].
  - apply sorted_strict; auto.
  - apply Hnd.
  - intros baseDir' Hsame. apply sorted_unique; auto.
    intros p. rewrite !findFiles_In.
    now rewrite (sameDir_Visits (map normalizePattern ignore) maxDepth Hsame).
  - vm_compute. reflexivity.
Qed.

Lemma findFiles_sorted_and_order_independent_witness :
  findFiles Fixtures.shuffledTree ["**/*.ts"] [] 10
  = findFiles Fixtures.orderedTree ["**/*.ts"] [] 10.
Proof.
  apply (@findFiles_sorted_and_order_independent Fixtures.orderedTree
           ["**/*.ts"] [] 10).
  unfold Fixtures.orderedTree, Fixtures.shuffledTree.
  apply sameDir_listing.
  eapply sameEntries_trans; [apply sameEntries_swap|].
  apply sameEntries_skip; [|repeat constructor].
  apply sameEntry_directory, sameDir_listing, sameEntries_swap.
Defined.

(** C7: with [maxDepth = 0] the tree whose only matching file is
    [src/index.ts] gives the empty list, although the path matches the
    pattern: a call of [walk] with a depth above [maxDepth] returns
    without listing, the recursive call on a subdirectory has the depth
    plus one, so with [maxDepth = 0] only files listed in the base
    directory itself can be returned. *)
Theorem depth_bound_prunes_subdirectories :
  findFiles Fixtures.srcTree ["**/*.ts"] [] 0 = []
  /\ matchesAnyPattern "src/index.ts" (map normalizePattern ["**/*.ts"]) = true
  /\ (forall patterns ignore maxDepth d dirRel depth results,
        (depth > maxDepth)%Z ->
        walk patterns ignore maxDepth d dirRel depth results = results)
  /\ (forall patterns ignore maxDepth name sub dirRel depth results,
        shouldIgnore (relativeOf dirRel name) ignore = false ->
        (depth <= maxDepth)%Z ->
        walk patterns ignore maxDepth (Listing [Directory name sub])
          dirRel depth results
        = walk patterns ignore maxDepth sub (relativeOf dirRel name)
            (depth + 1)%Z results)
  /\ (forall baseDir patterns ignore p,
        In p (findFiles baseDir patterns ignore 0) ->
        exists entries name,
          baseDir = Listing entries /\ In (File name) entries /\ p = name).
Proof.
  split; [vm_compute; reflexivity|].
  split; [vm_compute; reflexivity|].
  split; [intros; now apply walk_beyond|].
  split.
  - intros patterns ignore maxDepth name sub dirRel depth results Ig Hd.
    rewrite walk_listing by exact Hd. simpl. unfold visit. simpl.
    now rewrite Ig.
  - intros baseDir patterns ignore p Hin.
    apply findFiles_In in Hin as [Hv _].
    destruct baseDir as [|entries]; [inversion Hv|].
    apply Visits_inv in Hv
      as (_ & [(name & Hin & _ & ->)|(name & sub & _ & _ & Hv)]).
    + exists entries, name. auto.
    + apply Visits_depth in Hv. lia.
Qed.

Lemma depth_bound_prunes_subdirectories_witness :
  walk ["**/*.ts"] [] 0 (Listing [File "index.ts"]) "src" 1 [] = []
  /\ walk ["**/*.ts"] [] 0 Fixtures.srcTree "" 0 []
     = walk ["**/*.ts"] [] 0 (Listing [File "index.ts"]) "src" 1 []
  /\ exists entries name,
       Listing [File "index.ts"] = Listing entries
       /\ In (File name) entries /\ "index.ts" = name.
Proof.
  destruct depth_bound_prunes_subdirectories as (_ & _ & Hb & Hr & Hz).
  split; [apply Hb; reflexivity|].
  split; [apply Hr; [reflexivity | discriminate]|].
  apply (Hz (Listing [File "index.ts"]) ["**/*.ts"] []).
  vm_compute. left. reflexivity.
Defined.

End WalkFacts.

(* ================================================================== *)
(** * The pattern matcher *)
(* ================================================================== *)

Module MatchFacts.

Import Str RegExp FileUtils PatternSyntax StrFacts WalkFacts.

(** ** The text is always a pattern the engine compiles *)

Lemma special_is_syntax (c : ascii) :
  isRegexSpecial c = true -> isSyntaxChar c = true.
Proof.
  unfold isRegexSpecial. intros H.
  apply existsb_exists in H as (x & Hin & E).
  apply Ascii.eqb_eq in E. subst x.
  simpl in Hin. repeat destruct Hin as [<-|Hin]; try reflexivity.
  destruct Hin.
Qed.

Lemma escapeSpecial_Escaped (s : string) : Escaped (escapeSpecial s).
Proof.
  induction s as [|c s IH]; simpl; [constructor|].
  destruct (isRegexSpecial c) eqn:E; now constructor.
Qed.

(** A plain prefix can be cut off. *)
Lemma Escaped_strip (p rest : string) :
  Str.forallb (fun c => negb (isRegexSpecial c)) p = true ->
  Escaped (p ++ rest) -> Escaped rest.
Proof.
  induction p as [|a p IH]; simpl; intros Hp H; [exact H|].
  apply andb_true_iff in Hp as [Ha Hp]. apply negb_true_iff in Ha.
  inversion H; subst; [now apply IH|]. discriminate Ha.
Qed.

Lemma Escaped_app_plain (p rest : string) :
  Str.forallb (fun c => negb (isRegexSpecial c)) p = true ->
  Escaped rest -> Escaped (p ++ rest).
Proof.
  induction p as [|a p IH]; simpl; intros Hp H; [exact H|].
  apply andb_true_iff in Hp as [Ha Hp]. apply negb_true_iff in Ha.
  constructor; auto.
Qed.

(** Replacing a text of plain characters by a text of plain characters
    keeps the shape. *)
Lemma replaceAll_Escaped (a : ascii) (p rep : string) :
  Str.forallb (fun c => negb (isRegexSpecial c)) (String a p) = true ->
  Str.forallb (fun c => negb (isRegexSpecial c)) rep = true ->
  forall s, Escaped s -> Escaped (replaceAll (String a p) rep s).
Proof.
  intros Hpat Hrep s. induction s as [s IH] using length_ind. intros Hs.
  assert (Ha : isRegexSpecial a = false).
  { simpl in Hpat. apply andb_true_iff in Hpat as [Ha _].
    now apply negb_true_iff in Ha. }
  inversion Hs as [|c s' Hc Hs'|c s' Hc Hs']; subst.
  - constructor.
  - rewrite replaceAll_cons by discriminate.
    destruct (stripPrefix (String a p) (String c s')) as [rest|] eqn:E.
    + pose proof (@stripPrefix_shorter (String a p) _ _
                    ltac:(discriminate) E) as Hlen.
      apply stripPrefix_Some in E.
      apply Escaped_app_plain; [exact Hrep|].
      apply IH; [exact Hlen|].
      apply (@Escaped_strip (String a p)); [exact Hpat|].
      now rewrite <- E.
    + constructor; [exact Hc|]. apply IH; [simpl; lia | exact Hs'].
  - rewrite replaceAll_skip.
    2:{ intros ->. discriminate Ha. }
    rewrite replaceAll_skip.
    2:{ intros ->. congruence. }
    constructor; [exact Hc|]. apply IH; [simpl; lia | exact Hs'].
Qed.

Lemma toMarkers_before_star (s : string) :
  Escaped s ->
  Escaped (replaceAll "**" DOUBLESTAR
             (replaceAll "/**" SLASH_DOUBLESTAR
                (replaceAll "**/" DOUBLESTAR_SLASH s))).
Proof.
  intros H. repeat (apply replaceAll_Escaped; [reflexivity|reflexivity|]).
  exact H.
Qed.

(** The single star turns the text into regex source. *)
Lemma star_Source (s : string) :
  Escaped s -> exists ts, Source (replaceAll "*" "[^/]*" s) ts.
Proof.
  induction 1 as [|c s Hc Hs [ts IH]|c s Hc Hs [ts IH]].
  - exists []. constructor.
  - rewrite replaceAll_cons by discriminate. cbn [stripPrefix].
    destruct (Ascii.eqb_spec "*" c) as [<-|Hne].
    + eexists. apply Source_star. exact IH.
    + eexists. apply Source_plain; [exact Hc | congruence | exact IH].
  - rewrite replaceAll_skip by discriminate.
    rewrite replaceAll_skip.
    2:{ intros <-. discriminate Hc. }
    eexists. apply Source_esc; [exact Hc | exact IH].
Qed.

(** ** The markers *)

Lemma word_plain (c : ascii) :
  isWordChar c = true -> isRegexSpecial c = false.
Proof.
  intros Hc. destruct (isRegexSpecial c) eqn:E; [|reflexivity].
  unfold isRegexSpecial in E. apply existsb_exists in E as (x & Hin & E).
  apply Ascii.eqb_eq in E. subst x.
  simpl in Hin. repeat destruct Hin as [<-|Hin]; try discriminate Hc.
  destruct Hin.
Qed.

Lemma minSlashesOf_app (a b : list regex) :
  minSlashesOf (a ++ b) = minSlashesOf a + minSlashesOf b.
Proof.
  unfold minSlashesOf. induction a as [|t a IH]; simpl; [reflexivity|].
  rewrite IH. lia.
Qed.

Lemma minSlashesOf_literal (s : string) :
  minSlashesOf (literal s) = Str.count "/" s.
Proof.
  unfold minSlashesOf. induction s as [|c s IH]; simpl; [reflexivity|].
  now rewrite IH.
Qed.

Lemma count_word (s : string) :
  Str.forallb isWordChar s = true -> Str.count "/" s = 0.
Proof.
  induction s as [|c s IH]; simpl; intros H; [reflexivity|].
  apply andb_true_iff in H as [Hc Hs]. rewrite (IH Hs).
  destruct (Ascii.eqb_spec c "/") as [->|_]; [discriminate Hc | reflexivity].
Qed.

(** A marker in front of regex source is made of pattern characters. *)
Lemma Source_strip (m rest : string) :
  Str.forallb isWordChar m = true ->
  forall ts, Source (m ++ rest) ts ->
  exists ts', Source rest ts' /\ ts = (literal m ++ ts')%list.
Proof.
  induction m as [|a m IH]; simpl; intros Hm ts H.
  - exists ts. auto.
  - apply andb_true_iff in Hm as [Ha Hm].
    inversion H as [|c s' ts0 Hc Hstar Hs'|c s' ts0 Hc Hs'
                   |s' ts0 Hs'|s' ts0 Hs'|s' ts0 Hs'];
      subst; try discriminate Ha.
    destruct (IH Hm _ Hs') as (ts' & Hs & ->).
    exists ts'. auto.
Qed.

Lemma Source_literal_app (m s : string) (ts : list regex) :
  Str.forallb isWordChar m = true ->
  Source s ts -> Source (m ++ s) (literal m ++ ts)%list.
Proof.
  induction m as [|a m IH]; simpl; intros Hm H; [exact H|].
  apply andb_true_iff in Hm as [Ha Hm].
  constructor; auto using word_plain.
  intros ->. discriminate Ha.
Qed.

Section Marker.

(** A marker [String "_" m] and the regex text [rep] put in its place,
    which stands for the terms [tF]. *)
Variable m : string.
Variable rep : string.
Variable tF : list regex.
Hypothesis marker_word : Str.forallb isWordChar m = true.
Hypothesis rep_Source :
  forall s ts, Source s ts -> Source (rep ++ s) (tF ++ ts)%list.

Lemma replaceAll_Source :
  forall s ts, Source s ts ->
  exists ts', Source (replaceAll (String "_" m) rep s) ts'
              /\ minSlashesOf ts <= minSlashesOf ts'.
Proof.
  induction s as [s IH] using length_ind. intros ts Hs.
  inversion Hs as [|c s' ts0 Hc Hstar Hs'|c s' ts0 Hc Hs'
                  |s' ts0 Hs'|s' ts0 Hs'|s' ts0 Hs']; subst.
  - exists []. split; [constructor | lia].
  - rewrite replaceAll_cons by discriminate.
    destruct (stripPrefix (String "_" m) (String c s')) as [rest|] eqn:E.
    + pose proof (@stripPrefix_shorter (String "_" m) _ _
                    ltac:(discriminate) E) as Hlen.
      apply stripPrefix_Some in E. rewrite E in Hs.
      destruct (@Source_strip (String "_" m) rest) with (ts := Chr c :: ts0)
        as (tr & Hr & Ets); [simpl; now rewrite marker_word | exact Hs |].
      destruct (IH rest Hlen tr Hr) as (tr' & Hr' & Hle).
      exists (tF ++ tr')%list. split; [now apply rep_Source|].
      rewrite Ets, !minSlashesOf_app, minSlashesOf_literal, count_word.
      * lia.
      * simpl. now rewrite marker_word.
    + destruct (IH s' ltac:(simpl; lia) ts0 Hs') as (ts' & Hs'' & Hle).
      exists (Chr c :: ts'). split; [now constructor|].
      unfold minSlashesOf in *. simpl. lia.
  - rewrite replaceAll_skip by discriminate.
    rewrite replaceAll_skip.
    2:{ intros <-. discriminate Hc. }
    destruct (IH s' ltac:(simpl; lia) ts0 Hs') as (ts' & Hs'' & Hle).
    exists (Chr c :: ts'). split; [now constructor|].
    unfold minSlashesOf in *. simpl. lia.
  - rewrite replaceAll_skip_all by reflexivity.
    destruct (IH s' ltac:(rewrite length_app; simpl; lia) ts0 Hs')
      as (ts' & Hs'' & Hle).
    exists (starClass :: ts'). split; [now constructor|].
    unfold minSlashesOf in *. simpl. lia.
  - rewrite replaceAll_skip_all by reflexivity.
    destruct (IH s' ltac:(rewrite length_app; simpl; lia) ts0 Hs')
      as (ts' & Hs'' & Hle).
    exists (anyText :: ts'). split; [now constructor|].
    unfold minSlashesOf in *. simpl. lia.
  - rewrite replaceAll_skip_all by reflexivity.
    destruct (IH s' ltac:(rewrite length_app; simpl; lia) ts0 Hs')
      as (ts' & Hs'' & Hle).
    exists (anyDirs :: ts'). split; [now constructor|].
    unfold minSlashesOf in *. simpl. lia.
Qed.

End Marker.

Lemma Source_slash_any (s : string) (ts : list regex) :
  Source s ts -> Source ("/.*" ++ s) ([Chr "/"; anyText] ++ ts)%list.
Proof.
  intros H. simpl. apply Source_plain; [reflexivity | discriminate|].
  now apply Source_any.
Qed.

Lemma fromMarkers_Source (s : string) (ts : list regex) :
  Source s ts ->
  exists ts', Source (fromMarkers s) ts'
              /\ minSlashesOf ts <= minSlashesOf ts'.
Proof.
  intros H. unfold fromMarkers.
  destruct (@replaceAll_Source "__DOUBLESTAR_SLASH___" "(?:.*/)?" [anyDirs]
              eq_refl Source_dirs s ts H) as (t1 & H1 & L1).
  destruct (@replaceAll_Source "__SLASH_DOUBLESTAR___" "/.*"
              [Chr "/"; anyText] eq_refl Source_slash_any _ t1 H1)
    as (t2 & H2 & L2).
  destruct (@replaceAll_Source "__DOUBLESTAR___" ".*" [anyText]
              eq_refl Source_any _ t2 H2) as (t3 & H3 & L3).
  exists t3. split; [exact H3 | lia].
Qed.

(** The text between [^] and [$] is regex source. *)
Lemma regexPattern_Source (pattern : string) :
  exists ts, Source (fromMarkers (toMarkers (escapeSpecial pattern))) ts.
Proof.
  destruct (star_Source (toMarkers_before_star (escapeSpecial_Escaped pattern)))
    as (ts & H).
  destruct (fromMarkers_Source H) as (ts' & H' & _).
  exists ts'. exact H'.
Qed.

(** ** Parsing regex source *)

Lemma run_app (a b : string) :
  forall st,
    run st (a ++ b)
    = match run st a with Some st' => run st' b | None => None end.
Proof.
  induction a as [|c a IH]; intros st; simpl; [reflexivity|].
  destruct (step st c); [apply IH | reflexivity].
Qed.

Lemma stepNormal_plain (c : ascii) (st : pstate) :
  isRegexSpecial c = false -> c <> "*"%char ->
  stepNormal st c
  = Some (mkPstate Normal (pushTerm (Chr c) true (cur st)) (stack st)).
Proof.
  intros Hc Hstar. unfold isRegexSpecial in Hc. simpl in Hc.
  repeat (apply orb_false_iff in Hc as [? Hc]).
  unfold stepNormal.
  assert (Ascii.eqb c "*" = false) by now apply Ascii.eqb_neq.
  repeat match goal with
         | E : Ascii.eqb c _ = false |- _ => rewrite E; clear E
         end.
  reflexivity.
Qed.

(** The three pieces of regex text, read in any group. *)
Lemma run_starClass (als trm : list regex) (q : bool) (stk : list frame) :
  run (mkPstate Normal (mkFrame als trm q) stk) "[^/]*"
  = Some (mkPstate Normal (mkFrame als (starClass :: trm) false) stk).
Proof. reflexivity. Qed.

Lemma run_anyText (als trm : list regex) (q : bool) (stk : list frame) :
  run (mkPstate Normal (mkFrame als trm q) stk) ".*"
  = Some (mkPstate Normal (mkFrame als (anyText :: trm) false) stk).
Proof. reflexivity. Qed.

Lemma run_anyDirs (als trm : list regex) (q : bool) (stk : list frame) :
  run (mkPstate Normal (mkFrame als trm q) stk) "(?:.*/)?"
  = Some (mkPstate Normal (mkFrame als (anyDirs :: trm) false) stk).
Proof. reflexivity. Qed.

(** The parser reads regex source as the terms it stands for, whatever
    group it is in. *)
Lemma run_Source (s : string) (ts : list regex) :
  Source s ts ->
  forall als trm q stk,
  exists q',
    run (mkPstate Normal (mkFrame als trm q) stk) s
    = Some (mkPstate Normal (mkFrame als (rev ts ++ trm)%list q') stk).
Proof.
  induction 1 as [|c s ts Hc Hstar Hs IH|c s ts Hc Hs IH
                 |s ts Hs IH|s ts Hs IH|s ts Hs IH];
    intros als trm q stk.
  - exists q. reflexivity.
  - destruct (IH als (Chr c :: trm) true stk) as (q' & E).
    exists q'. cbn [run]. unfold step. cbn [md].
    rewrite stepNormal_plain by assumption.
    unfold pushTerm. cbn [cur stack alts terms].
    rewrite E. simpl. now rewrite <- List.app_assoc.
  - destruct (IH als (Chr c :: trm) true stk) as (q' & E).
    exists q'. cbn [run]. unfold step at 1. cbn [md]. unfold stepNormal.
    cbn [Ascii.eqb Bool.eqb cur stack run].
    unfold step at 1. cbn [md]. rewrite (special_is_syntax _ Hc).
    unfold pushTerm. cbn [cur stack alts terms].
    rewrite E. simpl. now rewrite <- List.app_assoc.
  - destruct (IH als (starClass :: trm) false stk) as (q' & E).
    exists q'. rewrite run_app, run_starClass.
    rewrite E. simpl. now rewrite <- List.app_assoc.
  - destruct (IH als (anyText :: trm) false stk) as (q' & E).
    exists q'. rewrite run_app, run_anyText.
    rewrite E. simpl. now rewrite <- List.app_assoc.
  - destruct (IH als (anyDirs :: trm) false stk) as (q' & E).
    exists q'. rewrite run_app, run_anyDirs.
    rewrite E. simpl. now rewrite <- List.app_assoc.
Qed.

(** [new RegExp] on anchored regex source. *)
Lemma compile_Source (s : string) (ts : list regex) :
  Source s ts ->
  compile ("^" ++ s ++ "$") = Some (mkSeq (Bol :: ts ++ [Eol])%list).
Proof.
  intros H. unfold compile.
  assert (E0 : run initial "^"
               = Some (mkPstate Normal (mkFrame [] [Bol] false) []))
    by reflexivity.
  rewrite run_app, E0, run_app.
  destruct (run_Source H [] [Bol] false []) as (q' & ->).
  cbn [run]. unfold step. cbn [md]. unfold stepNormal, pushTerm.
  cbn [Ascii.eqb Bool.eqb cur stack alts terms].
  unfold finish, closeFrame. cbn [md stack cur alts terms fold_left].
  change (rev (Eol :: (rev ts ++ [Bol])%list))
    with (rev (rev ts ++ [Bol]) ++ [Eol])%list.
  now rewrite rev_app_distr, rev_involutive.
Qed.

(** [matchPattern] in terms of the compiled terms. *)
Lemma matchPattern_exn_Source (filePath pattern : string) (ts : list regex) :
  Source (fromMarkers (toMarkers (escapeSpecial pattern))) ts ->
  matchPattern_exn filePath pattern
  = Some (test (mkSeq (Bol :: ts ++ [Eol])%list) filePath).
Proof.
  intros H. unfold matchPattern_exn, regexPattern.
  now rewrite (compile_Source H).
Qed.

(** C8: for every pattern text and every path, [new RegExp] accepts the
    text that [matchPattern] builds and [test] returns a boolean: no
    exception is thrown.  The functions of the model are total, so the
    call also terminates. *)
Theorem matchPattern_never_throws (filePath pattern : string) :
  (exists r, compile (regexPattern pattern) = Some r)
  /\ exists b,
       matchPattern_exn filePath pattern = Some b
       /\ matchPattern filePath pattern = b.
Proof.
  destruct (regexPattern_Source pattern) as (ts & H).
  split.
  - eexists. unfold regexPattern. apply (compile_Source H).
  - eexists. unfold matchPattern.
    rewrite (matchPattern_exn_Source filePath pattern H). auto.
Qed.

(** The matches of the testable properties, evaluated. *)
Lemma matchPattern_examples :
  matchPattern_exn "src/index.ts" "src/*.ts" = Some true
  /\ matchPattern_exn "src/utils/helper.ts" "src/*.ts" = Some false
  /\ matchPattern_exn "src/index.ts" "src/**/*.ts" = Some true
  /\ matchPattern_exn "src/utils/helper.ts" "src/**/*.ts" = Some true
  /\ matchPattern_exn "src/utils/helper.ts" "**/*.ts" = Some true
  /\ matchPattern_exn "index.ts" "**/*.ts" = Some true.
Proof. repeat split; vm_compute; reflexivity. Qed.

(** ** Texts cut in two *)

Lemma app_eq_app (a b c d : string) :
  a ++ b = c ++ d ->
  (exists m, c = a ++ m /\ b = m ++ d)
  \/ (exists m, a = c ++ m /\ d = m ++ b).
Proof.
  revert c. induction a as [|x a IH]; intros c H.
  - left. exists c. auto.
  - destruct c as [|y c].
    + right. exists (String x a). auto.
    + simpl in H. injection H as <- H.
      destruct (IH c H) as [(m & -> & ->)|(m & -> & ->)];
        [left | right]; exists m; auto.
Qed.

Lemma splits_In (a b : string) : In (a, b) (splits (a ++ b)).
Proof.
  induction a as [|x a IH]; simpl.
  - destruct b; left; reflexivity.
  - right. apply in_map_iff. exists (a, b). auto.
Qed.

Lemma overlaps_In (p1 p2 v' : string) :
  p1 <> "" -> p2 <> "" ->
  In (p1, p2, v') (overlaps (p1 ++ p2) (p2 ++ v')).
Proof.
  intros H1 H2. unfold overlaps. apply in_flat_map.
  exists (p1, p2). split; [apply splits_In|]. simpl.
  destruct p1; [congruence|]. destruct p2 as [|y p2]; [congruence|].
  rewrite (stripPrefix_app (String y p2) v'). now left.
Qed.

Lemma endsWith_app (m p : string) : endsWith (m ++ p) p = true.
Proof.
  unfold endsWith. apply existsb_exists. exists (m, p).
  split; [apply splits_In | apply String.eqb_refl].
Qed.

(** Two texts that end the same text: one ends the other. *)
Lemma suffix_cases (a p b q : string) :
  a ++ p = b ++ q -> endsWith q p = true \/ endsWith p q = true.
Proof.
  intros H. destruct (app_eq_app _ _ _ _ H) as [(m & _ & ->)|(m & _ & ->)];
    [right | left]; apply endsWith_app.
Qed.

(** ** The scan of [replaceAll] over a text cut in two *)

Lemma replaceAll_self (pat rep : string) :
  pat <> "" -> replaceAll pat rep pat = rep.
Proof.
  intros H. rewrite <- (app_nil_r pat) at 2.
  rewrite replaceAll_hit by exact H. now rewrite replaceAll_nil, app_nil_r.
Qed.

(** Either no match lies across the cut, or the first match that reaches
    the cut begins before it and ends after it. *)
Lemma replaceAll_app_cases (pat rep : string) :
  pat <> "" ->
  forall u v,
    replaceAll pat rep (u ++ v)
    = replaceAll pat rep u ++ replaceAll pat rep v
    \/ exists u' p1 p2 v',
         u = u' ++ p1 /\ v = p2 ++ v' /\ pat = p1 ++ p2
         /\ p1 <> "" /\ p2 <> ""
         /\ replaceAll pat rep (u ++ v)
            = replaceAll pat rep u' ++ rep ++ replaceAll pat rep v'.
Proof.
  intros Hpat u. induction u as [u IH] using length_ind. intros v.
  destruct u as [|c u]; [left; reflexivity|].
  change (String c u ++ v) with (String c (u ++ v)).
  rewrite replaceAll_cons by exact Hpat.
  destruct (stripPrefix pat (String c (u ++ v))) as [rest|] eqn:E.
  - apply stripPrefix_Some in E.
    change (String c (u ++ v)) with (String c u ++ v) in E.
    destruct (app_eq_app _ _ _ _ E) as [(m & -> & ->)|(m & Eu & ->)].
    + (* the match reaches the cut or goes beyond it *)
      destruct m as [|y m].
      * (* it ends at the cut *)
        left. simpl. rewrite app_nil_r.
        now rewrite (@replaceAll_self (String c u) rep) by discriminate.
      * right. exists "", (String c u), (String y m), rest.
        repeat split; discriminate.
    + (* the match ends before the cut *)
      rewrite Eu. rewrite replaceAll_hit by exact Hpat.
      assert (Hlen : String.length m < String.length (String c u)).
      { rewrite Eu, length_app. destruct pat; [congruence | simpl; lia]. }
      destruct (IH m Hlen v)
        as [->|(u' & p1 & p2 & v' & -> & -> & Ep & H1 & H2 & ->)].
      * left. now rewrite app_assoc.
      * right. exists (pat ++ u'), p1, p2, v'.
        rewrite replaceAll_hit by exact Hpat.
        repeat split; auto; now rewrite !app_assoc.
  - assert (E' : stripPrefix pat (String c u) = None).
    { destruct (stripPrefix pat (String c u)) as [r|] eqn:E'; [|reflexivity].
      apply stripPrefix_Some in E'.
      assert (stripPrefix pat (String c (u ++ v)) = Some (r ++ v)).
      { apply stripPrefix_Some.
        change (String c (u ++ v)) with (String c u ++ v).
        now rewrite E', app_assoc. }
      congruence. }
    destruct (IH u ltac:(simpl; lia) v)
      as [->|(u' & p1 & p2 & v' & -> & -> & Ep & H1 & H2 & ->)].
    + left. rewrite replaceAll_cons by exact Hpat. now rewrite E'.
    + right. exists (String c u'), p1, p2, v'.
      repeat split; auto.
      rewrite replaceAll_cons by exact Hpat.
      destruct (stripPrefix pat (String c u')) as [r|] eqn:E''; [|reflexivity].
      apply stripPrefix_Some in E''.
      assert (stripPrefix pat (String c (u' ++ p1)) = Some (r ++ p1)).
      { apply stripPrefix_Some.
        change (String c (u' ++ p1)) with (String c u' ++ p1).
        now rewrite E'', app_assoc. }
      congruence.
Qed.

Lemma includesChar_app (c : ascii) (a b : string) :
  includesChar c (a ++ b) = includesChar c a || includesChar c b.
Proof.
  induction a as [|x a IH]; simpl; [reflexivity|].
  now rewrite IH, orb_assoc.
Qed.

(** A character that is not in the pattern cuts the scan. *)
Lemma replaceAll_sep (a : ascii) (p rep : string) (c : ascii) (u v : string) :
  includesChar c (String a p) = false ->
  replaceAll (String a p) rep (u ++ String c v)
  = replaceAll (String a p) rep u
      ++ String c (replaceAll (String a p) rep v).
Proof.
  intros Hc.
  assert (Hac : a <> c).
  { intros ->. simpl in Hc. now rewrite Ascii.eqb_refl in Hc. }
  destruct (@replaceAll_app_cases (String a p) rep ltac:(discriminate)
              u (String c v))
    as [->|(u' & p1 & p2 & v' & _ & Ev & Ep & _ & H2 & _)].
  - now rewrite replaceAll_skip.
  - exfalso. destruct p2 as [|y p2]; [congruence|].
    injection Ev as <- _. rewrite Ep, includesChar_app in Hc.
    simpl in Hc. rewrite Ascii.eqb_refl in Hc.
    now rewrite orb_true_r in Hc.
Qed.

(** A text without the second character of the pattern, followed by a
    text that does not begin with it, holds no match. *)
Lemma replaceAll_needs_second (a b : ascii) (p rep u : string) (h : ascii)
    (v : string) :
  Str.forallb (fun c => negb (Ascii.eqb b c)) u = true ->
  b <> h ->
  replaceAll (String a (String b p)) rep (u ++ String h v)
  = u ++ replaceAll (String a (String b p)) rep (String h v).
Proof.
  intros Hu Hh. induction u as [|c u IH]; [reflexivity|].
  simpl in Hu. apply andb_true_iff in Hu as [Hc Hu].
  change (String c u ++ String h v) with (String c (u ++ String h v)).
  rewrite replaceAll_cons by discriminate.
  assert (E : stripPrefix (String a (String b p)) (String c (u ++ String h v))
              = None).
  { cbn [stripPrefix]. destruct (Ascii.eqb a c); [|reflexivity].
    destruct u as [|x u]; simpl.
    - now destruct (Ascii.eqb_spec b h).
    - simpl in Hu. apply andb_true_iff in Hu as [Hx _].
      apply negb_true_iff in Hx. now rewrite Hx. }
  rewrite E. simpl. now rewrite IH.
Qed.

(** The end of the result that holds no character of the replacement is
    an end of the text. *)
Lemma replaceAll_suffix (pat rep : string) (z : ascii) :
  pat <> "" ->
  (forall x m, rep = x ++ m -> m <> "" -> includesChar z m = true) ->
  rep <> "" ->
  forall s x y,
    replaceAll pat rep s = x ++ y ->
    includesChar z y = false ->
    exists x', s = x' ++ y /\ (x = "" -> x' = "").
Proof.
  intros Hpat Hrep Hne s. induction s as [s IH] using length_ind.
  intros x y E Hy.
  destruct s as [|c s].
  - rewrite replaceAll_nil in E. destruct x; [|discriminate].
    simpl in E. subst y. exists "". auto.
  - rewrite replaceAll_cons in E by exact Hpat.
    destruct (stripPrefix pat (String c s)) as [rest|] eqn:P.
    + pose proof (@stripPrefix_shorter pat _ _ Hpat P) as Hlen.
      apply stripPrefix_Some in P.
      destruct (app_eq_app _ _ _ _ E) as [(m & -> & Er)|(m & Er & Ey)].
      * (* x ++ m is in front, [rep] is a prefix of it *)
        destruct (IH rest Hlen m y Er Hy) as (x' & -> & _).
        exists (pat ++ x'). split.
        -- now rewrite P, app_assoc.
        -- intros Hx. destruct rep; [congruence | discriminate Hx].
      * (* [y] begins inside [rep] *)
        destruct m as [|k m].
        -- simpl in Ey. rewrite app_nil_r in Er. subst x.
           destruct (IH rest Hlen "" y (eq_sym Ey) Hy) as (x' & -> & _).
           exists (pat ++ x'). split.
           ++ now rewrite P, app_assoc.
           ++ intros Hx. congruence.
        -- exfalso. rewrite Ey, includesChar_app in Hy.
           rewrite (Hrep x (String k m) Er) in Hy by discriminate.
           discriminate Hy.
    + destruct x as [|k x].
      * simpl in E. subst y. simpl in Hy.
        apply orb_false_iff in Hy as [Hc Hy].
        destruct (IH s ltac:(simpl; lia) "" (replaceAll pat rep s) eq_refl Hy)
          as (x' & Es & Hx').
        rewrite (Hx' eq_refl) in Es. simpl in Es.
        exists "". split; [|auto]. simpl. now rewrite <- Es.
      * simpl in E. injection E as <- E.
        destruct (IH s ltac:(simpl; lia) x y E Hy) as (x' & -> & _).
        exists (String c x'). split; [reflexivity | discriminate].
Qed.

(** ** Escaping *)

Lemma escapeSpecial_app (a b : string) :
  escapeSpecial (a ++ b) = escapeSpecial a ++ escapeSpecial b.
Proof.
  induction a as [|c a IH]; simpl; [reflexivity|].
  destruct (isRegexSpecial c); simpl; now rewrite IH.
Qed.

Lemma escapeSpecial_plain (s : string) :
  Str.forallb (fun c => negb (isRegexSpecial c)) s = true ->
  escapeSpecial s = s.
Proof.
  induction s as [|c s IH]; simpl; intros H; [reflexivity|].
  apply andb_true_iff in H as [Hc Hs]. apply negb_true_iff in Hc.
  now rewrite Hc, IH.
Qed.

Lemma escapeSpecial_no_star (s : string) :
  includesChar "*" s = false -> includesChar "*" (escapeSpecial s) = false.
Proof.
  induction s as [|c s IH]; simpl; intros H; [reflexivity|].
  apply orb_false_iff in H as [Hc Hs].
  destruct (isRegexSpecial c); simpl; now rewrite Hc, IH.
Qed.

Lemma escapeSpecial_Source (s : string) :
  includesChar "*" s = false -> Source (escapeSpecial s) (literal s).
Proof.
  induction s as [|c s IH]; simpl; intros H; [constructor|].
  apply orb_false_iff in H as [Hc Hs].
  destruct (isRegexSpecial c) eqn:E.
  - constructor; auto.
  - constructor; auto. intros ->. discriminate Hc.
Qed.

Lemma no_star_forallb (s : string) :
  includesChar "*" s = false ->
  Str.forallb (fun c => negb (Ascii.eqb "*" c)) s = true.
Proof.
  induction s as [|c s IH]; cbn [Str.forallb includesChar]; intros H;
    [reflexivity|].
  apply orb_false_iff in H as [Hc Hs].
  rewrite Ascii.eqb_sym, Hc. simpl. auto.
Qed.

(** A word that ends regex source can be cut off. *)
Lemma Source_drop_suffix (s : string) (ts : list regex) :
  Source s ts ->
  forall u p,
    s = u ++ p -> Str.forallb isWordChar p = true ->
    exists tu, Source u tu.
Proof.
  assert (Piece : forall f s,
             (forall u p, s = u ++ p -> Str.forallb isWordChar p = true ->
                exists tu, Source u tu) ->
             (forall t tu, Source t tu -> exists tu', Source (f ++ t) tu') ->
             Str.forallb (fun c => negb (isWordChar c)) f = true ->
             forall u p, f ++ s = u ++ p ->
               Str.forallb isWordChar p = true ->
               exists tu, Source u tu).
  { intros f s0 IH Hf Hnw u p E Hp.
    destruct (app_eq_app _ _ _ _ E) as [(m & -> & Es)|(m & Ef & Ep)].
    - destruct (IH m p Es Hp) as (tu & Hu). now apply (Hf m tu).
    - destruct m as [|k m].
      + rewrite app_nil_r in Ef. subst u.
        destruct (IH "" s0 eq_refl) as (tu & Hu).
        * simpl in Ep. now subst p.
        * apply (Hf "" tu) in Hu. now rewrite app_nil_r in Hu.
      + exfalso. subst p f. simpl in Hp.
        apply andb_true_iff in Hp as [Hk _].
        clear - Hnw Hk. induction u as [|x u IHu]; simpl in Hnw.
        * apply andb_true_iff in Hnw as [Hk' _]. now rewrite Hk in Hk'.
        * apply andb_true_iff in Hnw as [_ Hnw]. auto. }
  induction 1 as [|c s ts Hc Hstar Hs IH|c s ts Hc Hs IH
                 |s ts Hs IH|s ts Hs IH|s ts Hs IH];
    intros u p E Hp.
  - destruct u; [|discriminate]. exists []. constructor.
  - destruct u as [|x u].
    + exists []. constructor.
    + simpl in E. injection E as <- E.
      destruct (IH u p E Hp) as (tu & Hu).
      eexists. apply Source_plain; eauto.
  - destruct u as [|x u]; [exists []; constructor|].
    simpl in E. injection E as <- E.
    destruct u as [|x' u].
    + exfalso. simpl in E. subst p. simpl in Hp.
      apply andb_true_iff in Hp as [Hw _].
      apply word_plain in Hw. congruence.
    + simpl in E. injection E as <- E.
      destruct (IH u p E Hp) as (tu & Hu).
      eexists. apply Source_esc; eauto.
  - refine (Piece "[^/]*" s IH _ eq_refl u p E Hp).
    intros t tu Ht. eexists. apply Source_star. exact Ht.
  - refine (Piece ".*" s IH _ eq_refl u p E Hp).
    intros t tu Ht. eexists. apply Source_any. exact Ht.
  - refine (Piece "(?:.*/)?" s IH _ eq_refl u p E Hp).
    intros t tu Ht. eexists. apply Source_dirs. exact Ht.
Qed.

(** ** What a match consumes *)

Lemma count_app (c : ascii) (a b : string) :
  Str.count c (a ++ b) = Str.count c a + Str.count c b.
Proof.
  induction a as [|x a IH]; simpl; [reflexivity|]. rewrite IH. lia.
Qed.

Lemma starLoop_consumes
    (body : bool -> string -> (bool -> string -> bool) -> bool) :
  (forall bol x k, body bol x k = true ->
     exists w y b, x = w ++ y /\ k b y = true) ->
  forall k fuel bol x,
    starLoop body k fuel bol x = true ->
    exists w y b, x = w ++ y /\ k b y = true.
Proof.
  intros Hbody k. induction fuel as [|f IH]; intros bol x H; simpl in H.
  - exists "", x, bol. auto.
  - apply orb_true_iff in H as [H|H]; [|exists "", x, bol; auto].
    apply Hbody in H as (w & y & b & -> & H).
    destruct (Nat.ltb (String.length y) (String.length (w ++ y)));
      [|discriminate].
    apply IH in H as (w' & y' & b' & -> & H).
    exists (w ++ w'), y', b'. split; [now rewrite app_assoc | exact H].
Qed.

(** A match of [r] takes a prefix of the input that holds at least
    [minSlashes r] slashes, and hands the rest to the continuation. *)
Lemma matchFrom_consumes (r : regex) :
  forall bol x k,
    matchFrom r bol x k = true ->
    exists w y b,
      x = w ++ y /\ k b y = true /\ minSlashes r <= Str.count "/" w.
Proof.
  induction r as [|c| |neg cs| | |r1 IH1 r2 IH2|r1 IH1 r2 IH2
                 |r1 IH1|r1 IH1|r1 IH1];
    intros bol x k H; cbn [matchFrom minSlashes] in *.
  - exists "", x, bol. auto.
  - destruct x as [|a x]; [discriminate|].
    destruct (Ascii.eqb_spec a c) as [->|]; [|discriminate].
    exists (String c ""), x, false. simpl. repeat split; auto.
    destruct (Ascii.eqb c "/"); simpl; lia.
  - destruct x as [|a x]; [discriminate|].
    destruct (isLineTerminator a); [discriminate|].
    exists (String a ""), x, false. simpl. repeat split; auto; lia.
  - destruct x as [|a x]; [discriminate|].
    destruct (inClass neg cs a); [|discriminate].
    exists (String a ""), x, false. simpl. repeat split; auto; lia.
  - destruct bol; [|discriminate]. exists "", x, true. auto.
  - destruct x; [|discriminate]. exists "", "", bol. auto.
  - apply IH1 in H as (w1 & y1 & b1 & -> & H & L1).
    apply IH2 in H as (w2 & y2 & b2 & -> & H & L2).
    exists (w1 ++ w2), y2, b2. rewrite app_assoc, count_app.
    repeat split; auto; lia.
  - apply orb_true_iff in H as [H|H].
    + apply IH1 in H as (w & y & b & -> & H & L).
      exists w, y, b. repeat split; auto; lia.
    + apply IH2 in H as (w & y & b & -> & H & L).
      exists w, y, b. repeat split; auto; lia.
  - apply starLoop_consumes in H as (w & y & b & -> & H).
    + exists w, y, b. repeat split; auto; lia.
    + intros bol' x' k' H'. apply IH1 in H' as (w & y & b & -> & H' & _).
      exists w, y, b. auto.
  - apply IH1 in H as (w1 & y1 & b1 & -> & H & L1).
    apply starLoop_consumes in H as (w2 & y2 & b2 & -> & H).
    + exists (w1 ++ w2), y2, b2. rewrite app_assoc, count_app.
      repeat split; auto; lia.
    + intros bol' x' k' H'. apply IH1 in H' as (w & y & b & -> & H' & _).
      exists w, y, b. auto.
  - apply orb_true_iff in H as [H|H].
    + apply IH1 in H as (w & y & b & -> & H & L).
      exists w, y, b. repeat split; auto; lia.
    + exists "", x, bol. repeat split; auto; simpl; lia.
Qed.

Lemma search_finds (r : regex) :
  forall bol x,
    search r bol x = true ->
    exists w y b,
      x = w ++ y /\ matchFrom r b y (fun _ _ => true) = true.
Proof.
  intros bol x. revert bol.
  induction x as [|a x IH]; intros bol H; simpl in H.
  - rewrite orb_false_r in H. exists "", "", bol. auto.
  - apply orb_true_iff in H as [H|H].
    + exists "", (String a x), bol. auto.
    + apply IH in H as (w & y & b & -> & H).
      exists (String a w), y, b. auto.
Qed.

Lemma minSlashes_mkSeq (ts : list regex) :
  minSlashes (mkSeq ts) = minSlashesOf ts.
Proof.
  unfold mkSeq, minSlashesOf.
  induction ts as [|t ts IH]; simpl; [reflexivity | now rewrite IH].
Qed.

Lemma mkSeq_consumes (ts rest : list regex) :
  forall bol x k,
    matchFrom (mkSeq (ts ++ rest)) bol x k = true ->
    exists w y b,
      x = w ++ y /\ matchFrom (mkSeq rest) b y k = true.
Proof.
  induction ts as [|t ts IH]; intros bol x k H.
  - exists "", x, bol. auto.
  - change (mkSeq ((t :: ts) ++ rest)) with (Seq t (mkSeq (ts ++ rest))) in H.
    cbn [matchFrom] in H.
    apply matchFrom_consumes in H as (w1 & y1 & b1 & -> & H & _).
    apply IH in H as (w2 & y2 & b2 & -> & H).
    exists (w1 ++ w2), y2, b2. now rewrite app_assoc.
Qed.

(** A literal text before [$] is the rest of the input. *)
Lemma literal_to_end (v : string) :
  forall bol y k,
    matchFrom (mkSeq (literal v ++ [Eol])) bol y k = true -> y = v.
Proof.
  induction v as [|c v IH]; intros bol y k H.
  - simpl in H. now destruct y.
  - change (mkSeq (literal (String c v) ++ [Eol]))
      with (Seq (Chr c) (mkSeq (literal v ++ [Eol]))) in H.
    cbn [matchFrom] in H.
    destruct y as [|a y]; [discriminate|].
    destruct (Ascii.eqb_spec a c) as [->|]; [|discriminate].
    f_equal. now apply IH in H.
Qed.

(** The anchored regex of source that asks for more slashes than the path
    has does not match the path. *)
Lemma too_few_slashes (ts : list regex) (filePath : string) :
  Str.count "/" filePath < minSlashesOf ts ->
  test (mkSeq (Bol :: ts ++ [Eol])) filePath = false.
Proof.
  intros Hlt. unfold test.
  destruct (search (mkSeq (Bol :: ts ++ [Eol])) true filePath) eqn:E;
    [exfalso | reflexivity].
  apply search_finds in E as (w & y & b & -> & H).
  apply matchFrom_consumes in H as (w' & y' & b' & -> & _ & L).
  rewrite minSlashes_mkSeq in L.
  change (Bol :: ts ++ [Eol])%list with ([Bol] ++ ts ++ [Eol])%list in L.
  rewrite !minSlashesOf_app in L. rewrite !count_app in Hlt.
  simpl in L. lia.
Qed.

(** The anchored regex of source that ends with a literal text matches
    only paths that end with that text. *)
Lemma literal_tail (ts : list regex) (v filePath : string) :
  test (mkSeq (Bol :: (ts ++ literal v) ++ [Eol])) filePath = true ->
  exists w, filePath = w ++ v.
Proof.
  unfold test. intros H.
  apply search_finds in H as (w & y & b & -> & H).
  rewrite <- List.app_assoc in H.
  change (mkSeq (Bol :: ts ++ literal v ++ [Eol])%list)
    with (Seq Bol (mkSeq (ts ++ (literal v ++ [Eol]))%list)) in H.
  cbn [matchFrom] in H. destruct b; [|discriminate].
  apply mkSeq_consumes in H as (w' & y' & b' & -> & H).
  apply literal_to_end in H. subst y'.
  exists (w ++ w'). now rewrite app_assoc.
Qed.

(** ** The pattern [d/**] *)

Lemma Source_app (s1 : string) (t1 : list regex) :
  Source s1 t1 ->
  forall s2 t2, Source s2 t2 -> Source (s1 ++ s2) (t1 ++ t2)%list.
Proof.
  induction 1; intros s2 t2 H2; simpl; try rewrite !app_assoc;
    try (constructor; auto); auto.
Qed.

Lemma Source_word (v : string) :
  Str.forallb isWordChar v = true -> Source v (literal v).
Proof.
  intros H. rewrite <- (app_nil_r v) at 1.
  rewrite <- (List.app_nil_r (literal v)).
  apply Source_literal_app; [exact H | constructor].
Qed.

(** Every way for a marker to begin in the path and end in the marker put
    after it is harmless. *)
Lemma overlaps_harmless :
  List.forallb harmless
    (overlaps DOUBLESTAR_SLASH SLASH_DOUBLESTAR
       ++ overlaps SLASH_DOUBLESTAR SLASH_DOUBLESTAR)%list = true.
Proof. vm_compute. reflexivity. Qed.

Lemma overlap_harmless (pat p1 p2 v' : string) :
  pat = DOUBLESTAR_SLASH \/ pat = SLASH_DOUBLESTAR ->
  pat = p1 ++ p2 -> SLASH_DOUBLESTAR = p2 ++ v' ->
  p1 <> "" -> p2 <> "" ->
  Str.forallb isWordChar p1 = true
  /\ includes "DOUBLESTAR" p1 = true
  /\ fixedWord v' = true /\ noCommonEnd p1 v' = true.
Proof.
  intros Hpat Ep Ev H1 H2.
  pose proof (@overlaps_In p1 p2 v' H1 H2) as Hin.
  rewrite <- Ep, <- Ev in Hin.
  pose proof overlaps_harmless as Hall.
  rewrite List.forallb_forall in Hall.
  assert (Hh : harmless (p1, p2, v') = true).
  { apply Hall. apply in_or_app. destruct Hpat as [->| ->]; auto. }
  unfold harmless in Hh. rewrite !andb_true_iff in Hh. tauto.
Qed.

Lemma fixedWord_spec (v : string) :
  fixedWord v = true ->
  Str.forallb isWordChar v = true
  /\ replaceAll DOUBLESTAR_SLASH "(?:.*/)?" v = v
  /\ replaceAll SLASH_DOUBLESTAR "/.*" v = v
  /\ replaceAll DOUBLESTAR ".*" v = v.
Proof.
  unfold fixedWord. rewrite !andb_true_iff, !String.eqb_eq. tauto.
Qed.

Section Dir.

(** [e] is the escaped path. *)
Variable e : string.
Hypothesis e_no_star : includesChar "*" e = false.

Lemma toMarkers_dir : toMarkers (e ++ "/**") = e ++ SLASH_DOUBLESTAR.
Proof.
  unfold toMarkers.
  rewrite (@replaceAll_skip_all "*" "*/" DOUBLESTAR_SLASH e "/**")
    by now apply no_star_forallb.
  change (replaceAll "**/" DOUBLESTAR_SLASH "/**") with "/**".
  rewrite (@replaceAll_needs_second "/" "*" "*" SLASH_DOUBLESTAR e "/" "**")
    by (now apply no_star_forallb || discriminate).
  change (replaceAll "/**" SLASH_DOUBLESTAR "/**") with SLASH_DOUBLESTAR.
  assert (H : Str.forallb (fun c => negb (Ascii.eqb "*" c))
                (e ++ SLASH_DOUBLESTAR) = true).
  { clear - e_no_star. apply no_star_forallb.
    now rewrite includesChar_app, e_no_star. }
  rewrite (@replaceAll_absent "*" "*" DOUBLESTAR _ H).
  now rewrite (@replaceAll_absent "*" "" "[^/]*" _ H).
Qed.

(** The three forms of the text built for [d/**]. *)
Lemma fromMarkers_dir :
  fromMarkers (e ++ SLASH_DOUBLESTAR) = fromMarkers e ++ "/.*"
  \/ (exists u p1 v,
         replaceAll DOUBLESTAR_SLASH "(?:.*/)?" e = u ++ p1
         /\ Str.forallb isWordChar p1 = true
         /\ includes "DOUBLESTAR" p1 = true
         /\ fixedWord v = true /\ noCommonEnd p1 v = true
         /\ fromMarkers (e ++ SLASH_DOUBLESTAR)
            = replaceAll DOUBLESTAR ".*" (replaceAll SLASH_DOUBLESTAR "/.*" u)
                ++ "/.*" ++ v)
  \/ (exists u p1 v,
         e = u ++ p1
         /\ Str.forallb isWordChar p1 = true
         /\ includes "DOUBLESTAR" p1 = true
         /\ fixedWord v = true /\ noCommonEnd p1 v = true
         /\ fromMarkers (e ++ SLASH_DOUBLESTAR)
            = fromMarkers u ++ "(?:.*/)?" ++ v).
Proof.
  unfold fromMarkers.
  destruct (@replaceAll_app_cases DOUBLESTAR_SLASH "(?:.*/)?"
              ltac:(discriminate) e SLASH_DOUBLESTAR)
    as [E6|(u & p1 & p2 & v & Eu & Ev & Ep & H1 & H2 & E6)]; rewrite E6.
  - change (replaceAll DOUBLESTAR_SLASH "(?:.*/)?" SLASH_DOUBLESTAR)
      with SLASH_DOUBLESTAR.
    destruct (@replaceAll_app_cases SLASH_DOUBLESTAR "/.*"
                ltac:(discriminate)
                (replaceAll DOUBLESTAR_SLASH "(?:.*/)?" e) SLASH_DOUBLESTAR)
      as [E7|(u & p1 & p2 & v & Eu & Ev & Ep & H1 & H2 & E7)]; rewrite E7.
    + left.
      change (replaceAll SLASH_DOUBLESTAR "/.*" SLASH_DOUBLESTAR) with "/.*".
      change "/.*" with (String "/" ".*") at 1.
      rewrite (@replaceAll_sep "_" "__DOUBLESTAR___" ".*" "/") by reflexivity.
      reflexivity.
    + right. left.
      destruct (@overlap_harmless SLASH_DOUBLESTAR p1 p2 v)
        as (Hp1 & Hds & Hv & Hne); auto.
      destruct (fixedWord_spec _ Hv) as (Hw & F6 & F7 & F8).
      exists u, p1, v. repeat split; auto.
      unfold DOUBLESTAR, SLASH_DOUBLESTAR, DOUBLESTAR_SLASH in *.
      rewrite F7.
      change ("/.*" ++ v) with (String "/" (".*" ++ v)).
      rewrite (@replaceAll_sep "_" "__DOUBLESTAR___" ".*" "/") by reflexivity.
      rewrite (@replaceAll_skip_all "_" "__DOUBLESTAR___" ".*" ".*" v)
        by reflexivity.
      now rewrite F8.
  - right. right.
    destruct (@overlap_harmless DOUBLESTAR_SLASH p1 p2 v)
      as (Hp1 & Hds & Hv & Hne); auto.
    destruct (fixedWord_spec _ Hv) as (Hw & F6 & F7 & F8).
    exists u, p1, v. repeat split; auto.
    unfold DOUBLESTAR, SLASH_DOUBLESTAR, DOUBLESTAR_SLASH in *.
    rewrite F6.
    change ("(?:.*/)?" ++ v) with (String "(" ("?:.*/)?" ++ v)).
    rewrite (@replaceAll_sep "_" "__SLASH_DOUBLESTAR___" "/.*" "(")
      by reflexivity.
    rewrite (@replaceAll_skip_all "_" "__SLASH_DOUBLESTAR___" "/.*" "?:.*/)?" v)
      by reflexivity.
    rewrite F7.
    rewrite (@replaceAll_sep "_" "__DOUBLESTAR___" ".*" "(") by reflexivity.
    rewrite (@replaceAll_skip_all "_" "__DOUBLESTAR___" ".*" "?:.*/)?" v)
      by reflexivity.
    now rewrite F8.
Qed.

End Dir.

Lemma word_forall_plain (v : string) :
  Str.forallb isWordChar v = true ->
  Str.forallb (fun c => negb (isRegexSpecial c)) v = true.
Proof.
  induction v as [|c v IH]; simpl; intros H; [reflexivity|].
  apply andb_true_iff in H as [Hc Hv].
  now rewrite (word_plain _ Hc), IH.
Qed.

Lemma word_without (z : ascii) (v : string) :
  isWordChar z = false ->
  Str.forallb isWordChar v = true -> includesChar z v = false.
Proof.
  intros Hz. induction v as [|c v IH]; simpl; intros H; [reflexivity|].
  apply andb_true_iff in H as [Hc Hv]. rewrite (IH Hv).
  destruct (Ascii.eqb_spec c z) as [->|]; [congruence | reflexivity].
Qed.

(** Every end of the text put for [**/] holds a question mark. *)
Lemma anyDirs_text_ends (x m : string) :
  "(?:.*/)?" = x ++ m -> m <> "" -> includesChar "?" m = true.
Proof.
  intros E Hm.
  assert (Hall : List.forallb
                   (fun ab => match snd ab with
                              | EmptyString => true
                              | _ => includesChar "?" (snd ab)
                              end) (splits "(?:.*/)?") = true)
    by (vm_compute; reflexivity).
  rewrite List.forallb_forall in Hall.
  specialize (Hall (x, m)). rewrite E in Hall.
  specialize (Hall (splits_In x m)). simpl in Hall.
  destruct m; [congruence | exact Hall].
Qed.

(** A path that ends with [v], once escaped, cannot end with [p1] when no
    text ends with both. *)
Lemma no_common_end (d w v x p1 : string) :
  Str.forallb isWordChar v = true ->
  noCommonEnd p1 v = true ->
  d = w ++ v -> escapeSpecial d = x ++ p1 -> False.
Proof.
  intros Hv Hne -> E.
  rewrite escapeSpecial_app, (escapeSpecial_plain v) in E
    by now apply word_forall_plain.
  unfold noCommonEnd in Hne. apply andb_true_iff in Hne as [N1 N2].
  apply negb_true_iff in N1, N2.
  destruct (suffix_cases _ _ _ _ E); congruence.
Qed.

(** The text built for [d/**] does not match [d]. *)
Lemma dir_pattern_rejects_dir (d : string) :
  includesChar "*" d = false ->
  matchPattern_exn d (d ++ "/**") = Some false.
Proof.
  intros Hd.
  pose proof (escapeSpecial_no_star d Hd) as He.
  pose proof (escapeSpecial_Source d Hd) as Hse.
  pose proof (minSlashesOf_literal d) as Hcount.
  set (te := literal d) in *.
  assert (Etr : fromMarkers (toMarkers (escapeSpecial (d ++ "/**")))
                = fromMarkers (escapeSpecial d ++ SLASH_DOUBLESTAR)).
  { rewrite escapeSpecial_app.
    change (escapeSpecial "/**") with "/**".
    now rewrite toMarkers_dir. }
  destruct (fromMarkers_dir (escapeSpecial d))
    as [E|[(u & p1 & v & Eu & Hp1 & _ & Hv & Hne & E)
          |(u & p1 & v & Eu & Hp1 & _ & Hv & Hne & E)]].
  - (* the marker is replaced where it was put *)
    destruct (fromMarkers_Source Hse) as (ts & Hs & Hle).
    assert (Hsrc : Source (fromMarkers (toMarkers (escapeSpecial (d ++ "/**"))))
                     (ts ++ [Chr "/"; anyText])%list).
    { rewrite Etr, E. apply Source_app; [exact Hs|].
      apply (Source_slash_any Source_nil). }
    rewrite (matchPattern_exn_Source d (d ++ "/**") Hsrc). f_equal.
    apply too_few_slashes. rewrite minSlashesOf_app.
    unfold minSlashesOf at 2. simpl. lia.
  - (* a marker of the second kind begins in the path *)
    destruct (fixedWord_spec _ Hv) as (Hw & _).
    destruct (@replaceAll_Source "__DOUBLESTAR_SLASH___" "(?:.*/)?" [anyDirs]
                eq_refl Source_dirs _ te Hse) as (t6 & H6 & _).
    destruct (Source_drop_suffix H6 u p1 Eu Hp1) as (tu & Hu).
    destruct (@replaceAll_Source "__SLASH_DOUBLESTAR___" "/.*"
                [Chr "/"; anyText] eq_refl Source_slash_any _ tu Hu)
      as (t7 & H7 & _).
    destruct (@replaceAll_Source "__DOUBLESTAR___" ".*" [anyText]
                eq_refl Source_any _ t7 H7) as (t8 & H8 & _).
    assert (Hsrc : Source (fromMarkers (toMarkers (escapeSpecial (d ++ "/**"))))
                     ((t8 ++ [Chr "/"; anyText]) ++ literal v)%list).
    { rewrite Etr, E, <- List.app_assoc. apply Source_app; [exact H8|].
      apply Source_slash_any. now apply Source_word. }
    rewrite (matchPattern_exn_Source d (d ++ "/**") Hsrc). f_equal.
    destruct (test _ d) eqn:T; [exfalso | reflexivity].
    apply literal_tail in T as (w & Ed).
    destruct (@replaceAll_suffix DOUBLESTAR_SLASH "(?:.*/)?" "?"
                ltac:(discriminate) anyDirs_text_ends ltac:(discriminate)
                (escapeSpecial d) u p1 Eu)
      as (x & Ex & _); [now apply word_without|].
    exact (@no_common_end d w v x p1 Hw Hne Ed Ex).
  - (* a marker of the first kind begins in the path *)
    destruct (fixedWord_spec _ Hv) as (Hw & _).
    destruct (Source_drop_suffix Hse u p1 Eu Hp1) as (tu & Hu).
    destruct (fromMarkers_Source Hu) as (ts & Hs & _).
    assert (Hsrc : Source (fromMarkers (toMarkers (escapeSpecial (d ++ "/**"))))
                     ((ts ++ [anyDirs]) ++ literal v)%list).
    { rewrite Etr, E, <- List.app_assoc. apply Source_app; [exact Hs|].
      apply Source_dirs. now apply Source_word. }
    rewrite (matchPattern_exn_Source d (d ++ "/**") Hsrc). f_equal.
    destruct (test _ d) eqn:T; [exfalso | reflexivity].
    apply literal_tail in T as (w & Ed).
    exact (@no_common_end d w v u p1 Hw Hne Ed Eu).
Qed.

(** ** What [d/**] excludes *)

Lemma includes_spec (w s : string) :
  includes w s = true <-> exists u v, s = u ++ w ++ v.
Proof.
  split.
  - induction s as [|c s IH]; cbn [includes]; intros H.
    + rewrite orb_false_r in H. unfold startsWith in H.
      destruct (stripPrefix w "") as [r|] eqn:E; [|discriminate].
      apply stripPrefix_Some in E. exists "", r. exact E.
    + apply orb_true_iff in H as [H|H].
      * unfold startsWith in H.
        destruct (stripPrefix w (String c s)) as [r|] eqn:E; [|discriminate].
        apply stripPrefix_Some in E. exists "", r. exact E.
      * destruct (IH H) as (u & v & ->). exists (String c u), v. reflexivity.
  - intros (u & v & ->). induction u as [|c u IH].
    + simpl. destruct (w ++ v) eqn:E; cbn [includes]; rewrite <- E;
        unfold startsWith; now rewrite stripPrefix_app.
    + change (String c u ++ w ++ v) with (String c (u ++ w ++ v)).
      cbn [includes]. rewrite IH. apply orb_true_r.
Qed.

Lemma includes_false_startsWith (w s : string) :
  includes w s = false -> stripPrefix w s = None.
Proof.
  destruct s; cbn [includes]; intros H; apply orb_false_iff in H as [H _];
    unfold startsWith in H; now destruct (stripPrefix w _).
Qed.

(** A pattern that does not occur is not replaced. *)
Lemma replaceAll_no_occurrence (pat rep s : string) :
  pat <> "" -> includes pat s = false -> replaceAll pat rep s = s.
Proof.
  intros Hpat. induction s as [|c s IH]; intros H; [reflexivity|].
  rewrite replaceAll_cons by exact Hpat.
  rewrite (includes_false_startsWith _ _ H).
  cbn [includes] in H. apply orb_false_iff in H as [_ H].
  now rewrite IH.
Qed.

(** A text that does not hold a word does not hold a text around it. *)
Lemma includes_around (a w b s : string) :
  includes w s = false -> includes (a ++ w ++ b) s = false.
Proof.
  intros H. destruct (includes (a ++ w ++ b) s) eqn:E; [|reflexivity].
  apply includes_spec in E as (u & v & ->).
  assert (includes w (u ++ (a ++ w ++ b) ++ v) = true); [|congruence].
  apply includes_spec. exists (u ++ a), (b ++ v).
  now rewrite !app_assoc.
Qed.

Lemma escapeSpecial_prefix (w : string) :
  Str.forallb isWordChar w = true ->
  forall d v, escapeSpecial d = w ++ v -> exists v', d = w ++ v'.
Proof.
  induction w as [|a w IH]; intros Hw d v E.
  - exists d. reflexivity.
  - simpl in Hw. apply andb_true_iff in Hw as [Ha Hw].
    destruct d as [|c d]; [discriminate|].
    simpl in E. destruct (isRegexSpecial c) eqn:Ec.
    + injection E as <- _. discriminate Ha.
    + injection E as <- E. destruct (IH Hw d v E) as (v' & ->).
      exists v'. reflexivity.
Qed.

(** Escaping does not make a word appear. *)
Lemma escapeSpecial_includes (w d : string) :
  Str.forallb isWordChar w = true -> w <> "" ->
  includes w d = false -> includes w (escapeSpecial d) = false.
Proof.
  intros Hw Hne H. destruct (includes w (escapeSpecial d)) eqn:E;
    [|reflexivity].
  assert (includes w d = true); [|congruence]. clear H.
  apply includes_spec in E as (u & v & E). apply includes_spec.
  revert u E. induction d as [|c d IH]; intros u E.
  - destruct u; [|discriminate]. destruct w; [congruence | discriminate].
  - simpl in E. destruct (isRegexSpecial c) eqn:Ec.
    + destruct u as [|x u].
      * exfalso. destruct w as [|a w]; [congruence|].
        simpl in Hw. apply andb_true_iff in Hw as [Ha _].
        injection E as <- _. discriminate Ha.
      * injection E as <- E. destruct u as [|y u].
        -- exfalso. destruct w as [|a w]; [congruence|].
           simpl in Hw. apply andb_true_iff in Hw as [Ha _].
           injection E as <- _. apply word_plain in Ha. congruence.
        -- injection E as <- E. destruct (IH u E) as (u' & v' & ->).
           exists (String c u'), v'. reflexivity.
    + destruct u as [|x u].
      * destruct (@escapeSpecial_prefix w Hw (String c d) v) as (v' & ->).
        -- simpl. now rewrite Ec.
        -- exists "", v'. reflexivity.
      * injection E as <- E. destruct (IH u E) as (u' & v' & ->).
        exists (String c u'), v'. reflexivity.
Qed.

(** When the path does not hold the word of the markers, the text built
    for [d/**] is the escaped path followed by [/.*]. *)
Lemma dir_pattern_text (d : string) :
  includesChar "*" d = false ->
  includes "DOUBLESTAR" d = false ->
  fromMarkers (toMarkers (escapeSpecial (d ++ "/**")))
  = escapeSpecial d ++ "/.*".
Proof.
  intros Hd Hds.
  pose proof (escapeSpecial_no_star d Hd) as He.
  pose proof (@escapeSpecial_includes "DOUBLESTAR" d eq_refl
                ltac:(discriminate) Hds) as Hes.
  rewrite escapeSpecial_app. change (escapeSpecial "/**") with "/**".
  rewrite toMarkers_dir by exact He.
  assert (Hclean : forall u p1,
             escapeSpecial d = u ++ p1 ->
             includes "DOUBLESTAR" p1 = true -> False).
  { intros u p1 E H. apply includes_spec in H as (a & b & ->).
    assert (includes "DOUBLESTAR" (escapeSpecial d) = true); [|congruence].
    apply includes_spec. exists (u ++ a), b. now rewrite E, !app_assoc. }
  assert (F6 : replaceAll DOUBLESTAR_SLASH "(?:.*/)?" (escapeSpecial d)
               = escapeSpecial d).
  { apply replaceAll_no_occurrence; [discriminate|].
    apply (@includes_around "___" "DOUBLESTAR" "_SLASH___"). exact Hes. }
  assert (F7 : replaceAll SLASH_DOUBLESTAR "/.*" (escapeSpecial d)
               = escapeSpecial d).
  { apply replaceAll_no_occurrence; [discriminate|].
    apply (@includes_around "___SLASH_" "DOUBLESTAR" "___"). exact Hes. }
  assert (F8 : replaceAll DOUBLESTAR ".*" (escapeSpecial d)
               = escapeSpecial d).
  { apply replaceAll_no_occurrence; [discriminate|].
    apply (@includes_around "___" "DOUBLESTAR" "___"). exact Hes. }
  destruct (fromMarkers_dir (escapeSpecial d))
    as [E|[(u & p1 & v & Eu & _ & Hp & _)|(u & p1 & v & Eu & _ & Hp & _)]].
  - rewrite E. unfold fromMarkers. now rewrite F6, F7, F8.
  - exfalso. rewrite F6 in Eu. exact (Hclean u p1 Eu Hp).
  - exfalso. exact (Hclean u p1 Eu Hp).
Qed.

(** A literal text at the head of a pattern takes itself off the input. *)
Lemma literal_match (d : string) (rest : list regex) :
  forall bol y k,
  exists b,
    matchFrom (mkSeq (literal d ++ rest)) bol (d ++ y) k
    = matchFrom (mkSeq rest) b y k.
Proof.
  induction d as [|c d IH]; intros bol y k.
  - exists bol. reflexivity.
  - destruct (IH false y k) as (b & E). exists b.
    change (mkSeq (literal (String c d) ++ rest))
      with (Seq (Chr c) (mkSeq (literal d ++ rest))).
    change (String c d ++ y) with (String c (d ++ y)).
    cbn [matchFrom]. now rewrite Ascii.eqb_refl.
Qed.

(** [.*] before [$] takes a text without line terminators to its end. *)
Lemma any_to_end (k : bool -> string -> bool) (rest : string) :
  Str.forallb (fun c => negb (isLineTerminator c)) rest = true ->
  k false "" = true -> k true "" = true ->
  forall fuel bol,
    String.length rest <= fuel ->
    starLoop (matchFrom Dot) (fun b y => matchFrom (Seq Eol Empty) b y k)
      fuel bol rest = true.
Proof.
  intros Hrest Kf Kt.
  induction rest as [|a rest IH]; intros fuel bol Hfuel.
  - destruct fuel; simpl; now destruct bol.
  - simpl in Hrest. apply andb_true_iff in Hrest as [Ha Hrest].
    apply negb_true_iff in Ha.
    destruct fuel as [|fuel]; [simpl in Hfuel; lia|].
    cbn [starLoop matchFrom]. rewrite Ha.
    assert (L : Nat.ltb (String.length rest) (String.length (String a rest))
                = true) by (apply Nat.ltb_lt; simpl; lia).
    rewrite L, IH; [reflexivity | exact Hrest | simpl in Hfuel; lia].
Qed.

(** The entries below [d] that [d/**] matches. *)
Lemma dir_pattern_accepts_entry (d rest : string) :
  includesChar "*" d = false ->
  includes "DOUBLESTAR" d = false ->
  Str.forallb (fun c => negb (isLineTerminator c)) rest = true ->
  matchPattern_exn (d ++ "/" ++ rest) (d ++ "/**") = Some true.
Proof.
  intros Hd Hds Hrest.
  assert (Hsrc : Source (fromMarkers (toMarkers (escapeSpecial (d ++ "/**"))))
                   (literal d ++ [Chr "/"; anyText])%list).
  { rewrite (dir_pattern_text d Hd Hds).
    apply Source_app; [now apply escapeSpecial_Source|].
    apply (Source_slash_any Source_nil). }
  rewrite (matchPattern_exn_Source _ (d ++ "/**") Hsrc). f_equal.
  unfold test.
  destruct (d ++ "/" ++ rest) eqn:Ex; cbn [search]; rewrite <- Ex;
    apply orb_true_iff; left.
  all: rewrite <- List.app_assoc.
  all: change (mkSeq (Bol :: literal d ++ [Chr "/"; anyText] ++ [Eol])%list)
         with (Seq Bol (mkSeq (literal d ++ [Chr "/"; anyText; Eol])%list)).
  all: cbn [matchFrom].
  all: destruct (literal_match d [Chr "/"; anyText; Eol] true ("/" ++ rest)
                   (fun _ _ => true)) as (b & ->).
  all: change (mkSeq [Chr "/"; anyText; Eol])
         with (Seq (Chr "/") (Seq (Star Dot) (Seq Eol Empty))).
  all: cbn [matchFrom append Ascii.eqb Bool.eqb].
  all: now apply any_to_end.
Qed.

Lemma backslashToSlash_app (a b : string) :
  backslashToSlash (a ++ b) = backslashToSlash a ++ backslashToSlash b.
Proof. induction a as [|c a IH]; simpl; [reflexivity | now rewrite IH]. Qed.

Lemma backslashToSlash_no_star (s : string) :
  includesChar "*" s = false ->
  includesChar "*" (backslashToSlash s) = false.
Proof.
  induction s as [|c s IH]; cbn [includesChar backslashToSlash]; intros H;
    [reflexivity|].
  apply orb_false_iff in H as [Hc Hs]. rewrite (IH Hs), orb_false_r.
  destruct (Ascii.eqb_spec c "\") as [->|]; [reflexivity | exact Hc].
Qed.

(** C10: the first half of the claim holds of the code: for every
    non-empty path [d] without [*] the pattern [d/**] does not match [d]
    itself, so the walk does not skip the directory [d] and lists it.
    The second half does not: the entries of [d] are not all excluded by
    [d/**], in two cases.  Below the directory [x___DOUBLESTAR_SLASH] the
    file [n.js] is returned although [x___DOUBLESTAR_SLASH/**] is
    excluded: the name ends like a marker of the replacements, and the
    regex built is [^x(?:.*/)?SLASH_DOUBLESTAR___$] where the comment of
    the source promises [/**] to match anything after a slash.  Below
    [node_modules] the file [a<LF>b.js] is returned although
    [node_modules/**] is excluded, while its sibling [c.js] is not:
    [.] does not take a line feed. *)
Theorem dir_doublestar_leaves_entries :
  (forall d,
      d <> "" ->
      includesChar "*" d = false ->
      matchPattern d (d ++ "/**") = false
      /\ shouldIgnore d (map normalizePattern [d ++ "/**"]) = false
      /\ forall patterns maxDepth sub results,
           (0 <= maxDepth)%Z ->
           walk patterns (map normalizePattern [d ++ "/**"]) maxDepth
             (Listing [Directory d sub]) "" 0 results
           = walk patterns (map normalizePattern [d ++ "/**"]) maxDepth
               sub d 1 results)
  /\ (regexPattern (Fixtures.markerDir ++ "/**")
      = "^x(?:.*/)?SLASH_DOUBLESTAR___$"
      /\ matchPattern (Fixtures.markerDir ++ "/n.js")
           (Fixtures.markerDir ++ "/**") = false
      /\ shouldIgnore (relativeOf Fixtures.markerDir "n.js")
           (map normalizePattern [Fixtures.markerDir ++ "/**"]) = false
      /\ findFiles Fixtures.markerTree ["**/*.js"]
           [Fixtures.markerDir ++ "/**"] 10
         = [Fixtures.markerDir ++ "/n.js"])
  /\ (regexPattern "node_modules/**" = "^node_modules/.*$"
      /\ matchPattern ("node_modules/" ++ Fixtures.twoLines)
           "node_modules/**" = false
      /\ matchPattern "node_modules/c.js" "node_modules/**" = true
      /\ findFiles Fixtures.twoLinesTree ["**/*.js"] ["node_modules/**"] 10
         = ["node_modules/" ++ Fixtures.twoLines]).
Proof.
  split; [|split; repeat split; vm_compute; reflexivity].
  intros d _ Hd.
  assert (Hig : shouldIgnore d (map normalizePattern [d ++ "/**"]) = false).
  { unfold shouldIgnore, normalizePattern. cbn [map existsb].
    rewrite backslashToSlash_app.
    change (backslashToSlash "/**") with "/**".
    unfold matchPattern.
    rewrite dir_pattern_rejects_dir by now apply backslashToSlash_no_star.
    reflexivity. }
  split; [unfold matchPattern; now rewrite dir_pattern_rejects_dir|].
  split; [exact Hig|].
  intros patterns maxDepth sub results Hmax.
  rewrite walk_listing by exact Hmax. cbn [fold_left]. unfold visit.
  cbn [entryName relativeOf]. now rewrite Hig.
Qed.

Lemma dir_doublestar_leaves_entries_witness :
  matchPattern "node_modules" ("node_modules" ++ "/**") = false.
Proof.
  destruct dir_doublestar_leaves_entries as [H _].
  destruct (H "node_modules") as [H1 _]; [discriminate | reflexivity |].
  exact H1.
Defined.

(** ** One star, and [**/], between ordinary texts *)

Lemma count_absent (c : ascii) (s : string) :
  includesChar c s = false -> Str.count c s = 0.
Proof.
  induction s as [|x s IH]; simpl; intros H; [reflexivity|].
  apply orb_false_iff in H as [Hx Hs]. now rewrite Hx, IH.
Qed.

Lemma count_includes (c : ascii) (w s : string) :
  includes w s = true -> Str.count c w <= Str.count c s.
Proof.
  intros H. apply includes_spec in H as (u & v & ->).
  rewrite !count_app. lia.
Qed.

Lemma includes_few (c : ascii) (w s : string) :
  Str.count c s < Str.count c w -> includes w s = false.
Proof.
  intros H. destruct (includes w s) eqn:E; [|reflexivity].
  apply (count_includes c) in E. lia.
Qed.

Lemma ordinary_spec (s : string) :
  ordinary s = true ->
  includesChar "*" s = false /\ includes "DOUBLESTAR" s = false.
Proof.
  unfold ordinary. rewrite andb_true_iff, !negb_true_iff. tauto.
Qed.

Section Between.

(** [ea] and [eb] are the escaped texts before and after the wildcard. *)
Variables ea eb : string.
Hypothesis ea_no_star : includesChar "*" ea = false.
Hypothesis eb_no_star : includesChar "*" eb = false.
Hypothesis ea_no_word : includes "DOUBLESTAR" ea = false.
Hypothesis eb_no_word : includes "DOUBLESTAR" eb = false.

Lemma toMarkers_one_star :
  toMarkers (ea ++ "*" ++ eb) = ea ++ "[^/]*" ++ eb.
Proof.
  assert (C : Str.count "*" (ea ++ "*" ++ eb) = 1).
  { rewrite !count_app, (count_absent _ _ ea_no_star),
      (count_absent _ _ eb_no_star). reflexivity. }
  unfold toMarkers.
  rewrite (@replaceAll_no_occurrence "**/" DOUBLESTAR_SLASH)
    by (discriminate || (apply (includes_few "*"); rewrite C; simpl; lia)).
  rewrite (@replaceAll_no_occurrence "/**" SLASH_DOUBLESTAR)
    by (discriminate || (apply (includes_few "*"); rewrite C; simpl; lia)).
  rewrite (@replaceAll_no_occurrence "**" DOUBLESTAR)
    by (discriminate || (apply (includes_few "*"); rewrite C; simpl; lia)).
  rewrite (@replaceAll_skip_all "*" "" "[^/]*" ea)
    by now apply no_star_forallb.
  rewrite (@replaceAll_hit "*" "[^/]*" eb) by discriminate.
  now rewrite (@replaceAll_absent "*" "" "[^/]*" eb)
    by now apply no_star_forallb.
Qed.

Lemma toMarkers_dirs :
  toMarkers (ea ++ "**/" ++ eb) = ea ++ DOUBLESTAR_SLASH ++ eb.
Proof.
  unfold toMarkers.
  rewrite (@replaceAll_skip_all "*" "*/" DOUBLESTAR_SLASH ea)
    by now apply no_star_forallb.
  rewrite (@replaceAll_hit "**/" DOUBLESTAR_SLASH eb) by discriminate.
  rewrite (@replaceAll_absent "*" "*/" DOUBLESTAR_SLASH eb)
    by now apply no_star_forallb.
  assert (H : includesChar "*" (ea ++ DOUBLESTAR_SLASH ++ eb) = false).
  { now rewrite !includesChar_app, ea_no_star, eb_no_star. }
  rewrite (@replaceAll_no_occurrence "/**" SLASH_DOUBLESTAR).
  2: discriminate.
  2:{ apply (includes_few "*"). rewrite (count_absent _ _ H). simpl. lia. }
  rewrite (@replaceAll_absent "*" "*" DOUBLESTAR)
    by now apply no_star_forallb.
  now rewrite (@replaceAll_absent "*" "" "[^/]*")
    by now apply no_star_forallb.
Qed.

(** A marker is replaced neither in [ea] nor in [eb], nor across a piece
    of regex text between them. *)
Lemma replaceAll_piece (m rep : string) (c : ascii) (f : string) :
  includes (String "_" m) ea = false ->
  includes (String "_" m) eb = false ->
  includesChar c (String "_" m) = false ->
  Str.forallb (fun x => negb (Ascii.eqb "_" x)) f = true ->
  replaceAll (String "_" m) rep (ea ++ String c f ++ eb)
  = ea ++ String c f ++ eb.
Proof.
  intros Ha Hb Hc Hf.
  change (ea ++ String c f ++ eb) with (ea ++ String c (f ++ eb)).
  rewrite replaceAll_sep by exact Hc.
  rewrite replaceAll_skip_all by exact Hf.
  now rewrite !replaceAll_no_occurrence by (discriminate || assumption).
Qed.

Lemma fromMarkers_piece (c : ascii) (f : string) :
  isWordChar c = false ->
  Str.forallb (fun x => negb (Ascii.eqb "_" x)) f = true ->
  fromMarkers (ea ++ String c f ++ eb) = ea ++ String c f ++ eb.
Proof.
  intros Hc Hf.
  unfold fromMarkers, DOUBLESTAR_SLASH, SLASH_DOUBLESTAR, DOUBLESTAR.
  rewrite (@replaceAll_piece "__DOUBLESTAR_SLASH___" "(?:.*/)?" c f); auto.
  rewrite (@replaceAll_piece "__SLASH_DOUBLESTAR___" "/.*" c f); auto.
  rewrite (@replaceAll_piece "__DOUBLESTAR___" ".*" c f); auto.
  all: try (apply word_without; [exact Hc | reflexivity]).
  all: try (apply (@includes_around "___" "DOUBLESTAR" "___"); assumption).
  all: try (apply (@includes_around "___SLASH_" "DOUBLESTAR" "___");
            assumption).
  all: apply (@includes_around "___" "DOUBLESTAR" "_SLASH___"); assumption.
Qed.

(** The ways for the marker of [**/] to begin before its own place. *)
Lemma overlaps_self :
  List.forallb (fun t => includes "DOUBLESTAR" (fst (fst t)))
    (overlaps DOUBLESTAR_SLASH DOUBLESTAR_SLASH) = true.
Proof. vm_compute. reflexivity. Qed.

Lemma fromMarkers_dirs :
  fromMarkers (ea ++ DOUBLESTAR_SLASH ++ eb) = ea ++ "(?:.*/)?" ++ eb.
Proof.
  assert (H6 : replaceAll DOUBLESTAR_SLASH "(?:.*/)?"
                 (ea ++ DOUBLESTAR_SLASH ++ eb)
               = ea ++ "(?:.*/)?" ++ eb).
  { destruct (@replaceAll_app_cases DOUBLESTAR_SLASH "(?:.*/)?"
                ltac:(discriminate) ea (DOUBLESTAR_SLASH ++ eb))
      as [->|(u & p1 & p2 & v & Eu & Ev & Ep & H1 & H2 & _)].
    - rewrite replaceAll_hit by discriminate.
      rewrite !replaceAll_no_occurrence; try discriminate; auto;
        apply (@includes_around "___" "DOUBLESTAR" "_SLASH___"); assumption.
    - exfalso.
      assert (Hb : exists m, DOUBLESTAR_SLASH = p2 ++ m).
      { destruct (app_eq_app _ _ _ _ Ev) as [(m & E & _)|(m & E & _)].
        - exfalso. apply (f_equal String.length) in E, Ep.
          rewrite length_app in E, Ep. destruct p1; [congruence|].
          simpl in E, Ep. lia.
        - exists m. exact E. }
      destruct Hb as (m & Em).
      pose proof (@overlaps_In p1 p2 m H1 H2) as Hin.
      rewrite <- Ep, <- Em in Hin.
      pose proof overlaps_self as Hall.
      rewrite List.forallb_forall in Hall.
      specialize (Hall _ Hin). cbn [fst] in Hall.
      apply includes_spec in Hall as (x & y & ->).
      assert (includes "DOUBLESTAR" ea = true); [|congruence].
      apply includes_spec. exists (u ++ x), y. now rewrite Eu, !app_assoc. }
  unfold fromMarkers. rewrite H6.
  unfold SLASH_DOUBLESTAR, DOUBLESTAR.
  rewrite (@replaceAll_piece "__SLASH_DOUBLESTAR___" "/.*" "(" "?:.*/)?");
    auto.
  rewrite (@replaceAll_piece "__DOUBLESTAR___" ".*" "(" "?:.*/)?"); auto.
  all: try (apply (@includes_around "___" "DOUBLESTAR" "___"); assumption).
  all: apply (@includes_around "___SLASH_" "DOUBLESTAR" "___"); assumption.
Qed.

End Between.

(** ** Matching the pieces *)

Lemma search_unanchored_start (r : regex) (x : string) :
  search (Seq Bol r) false x = false.
Proof. induction x as [|a x IH]; simpl; [reflexivity | exact IH]. Qed.

(** A regex that begins with [^] is tried at index 0 only. *)
Lemma search_anchored (r : regex) (x : string) :
  search (Seq Bol r) true x = matchFrom r true x (fun _ _ => true).
Proof.
  destruct x as [|a x]; cbn [search matchFrom].
  - apply orb_false_r.
  - now rewrite search_unanchored_start, orb_false_r.
Qed.

Lemma literal_match_inv (d : string) (rest : list regex) :
  forall bol x k,
    matchFrom (mkSeq (literal d ++ rest)) bol x k = true ->
    exists y b, x = d ++ y /\ matchFrom (mkSeq rest) b y k = true.
Proof.
  induction d as [|c d IH]; intros bol x k H.
  - exists x, bol. auto.
  - change (mkSeq (literal (String c d) ++ rest))
      with (Seq (Chr c) (mkSeq (literal d ++ rest))) in H.
    cbn [matchFrom] in H. destruct x as [|a x]; [discriminate|].
    destruct (Ascii.eqb_spec a c) as [->|]; [|discriminate].
    apply IH in H as (y & b & -> & H). exists y, b. auto.
Qed.

Lemma literal_accepts (v : string) (bol : bool) :
  matchFrom (mkSeq (literal v ++ [Eol])) bol v (fun _ _ => true) = true.
Proof.
  destruct (literal_match v [Eol] bol "" (fun _ _ => true)) as (b & E).
  rewrite app_nil_r in E. rewrite E. reflexivity.
Qed.

(** What [[^/]*] takes holds no slash. *)
Lemma starClass_sound (k : bool -> string -> bool) :
  forall fuel bol x,
    starLoop (matchFrom (Class true ["/"%char])) k fuel bol x = true ->
    exists w y b,
      x = w ++ y /\ includesChar "/" w = false /\ k b y = true.
Proof.
  induction fuel as [|f IH]; intros bol x H; cbn [starLoop] in H.
  - exists "", x, bol. auto.
  - apply orb_true_iff in H as [H|H]; [|exists "", x, bol; auto].
    cbn [matchFrom] in H. destruct x as [|a x]; [discriminate|].
    destruct (inClass true ["/"%char] a) eqn:Ca; [|discriminate].
    destruct (Nat.ltb (String.length x) (String.length (String a x)));
      [|discriminate].
    apply IH in H as (w & y & b & -> & Hw & Hk).
    exists (String a w), y, b. repeat split; auto.
    simpl. rewrite Hw, orb_false_r.
    unfold inClass in Ca. simpl in Ca. rewrite orb_false_r in Ca.
    now apply negb_true_iff in Ca.
Qed.

(** And it can take any text without a slash. *)
Lemma starClass_complete (k : bool -> string -> bool) (y : string) :
  (forall b, k b y = true) ->
  forall w fuel bol,
    includesChar "/" w = false ->
    String.length (w ++ y) <= fuel ->
    starLoop (matchFrom (Class true ["/"%char])) k fuel bol (w ++ y) = true.
Proof.
  intros Hk. induction w as [|a w IH]; intros fuel bol Hw Hfuel.
  - change ("" ++ y) with y.
    destruct fuel; cbn [starLoop];
      [apply Hk | rewrite (Hk bol); apply orb_true_r].
  - simpl in Hw. apply orb_false_iff in Hw as [Ha Hw].
    destruct fuel as [|fuel]; [simpl in Hfuel; lia|].
    change (String a w ++ y) with (String a (w ++ y)).
    cbn [starLoop matchFrom].
    assert (Ca : inClass true ["/"%char] a = true).
    { unfold inClass. simpl. now rewrite Ha. }
    assert (L : Nat.ltb (String.length (w ++ y))
                  (String.length (String a (w ++ y))) = true)
      by (apply Nat.ltb_lt; simpl; lia).
    rewrite Ca, L, IH; [reflexivity | exact Hw | simpl in Hfuel; lia].
Qed.

(** What [(?:.*/)?] takes is empty or ends with a slash. *)
Lemma anyDirs_sound (k : bool -> string -> bool) (bol : bool) (x : string) :
  matchFrom anyDirs bol x k = true ->
  k bol x = true
  \/ exists w y, x = (w ++ "/") ++ y /\ k false y = true.
Proof.
  unfold anyDirs. cbn [matchFrom]. intros H.
  apply orb_true_iff in H as [H|H]; [right | now left].
  apply starLoop_consumes in H as (w & y & b & -> & H).
  - destruct y as [|a y]; [discriminate|].
    destruct (Ascii.eqb_spec a "/") as [->|]; [|discriminate].
    exists w, y. split; [now rewrite app_assoc | exact H].
  - intros bol' x' k' H'. cbn [matchFrom] in H'.
    destruct x' as [|a x']; [discriminate|].
    destruct (isLineTerminator a); [discriminate|].
    exists (String a ""), x', false. auto.
Qed.

(** ** One star *)

Lemma one_star_matches (a b path : string) :
  ordinary a = true -> ordinary b = true ->
  matchPattern_exn path (a ++ "*" ++ b) = Some true
  <-> exists seg, path = a ++ seg ++ b /\ includesChar "/" seg = false.
Proof.
  intros Ha Hb.
  apply ordinary_spec in Ha as [Ha Hwa]. apply ordinary_spec in Hb as [Hb Hwb].
  assert (Hsrc : Source (fromMarkers (toMarkers
                           (escapeSpecial (a ++ "*" ++ b))))
                   (literal a ++ starClass :: literal b)%list).
  { rewrite !escapeSpecial_app. change (escapeSpecial "*") with "*".
    rewrite toMarkers_one_star by now apply escapeSpecial_no_star.
    rewrite (@fromMarkers_piece (escapeSpecial a) (escapeSpecial b))
      by (reflexivity
          || (apply escapeSpecial_includes;
              [reflexivity | discriminate | assumption])).
    apply Source_app; [now apply escapeSpecial_Source|].
    apply Source_star. now apply escapeSpecial_Source. }
  rewrite (matchPattern_exn_Source path _ Hsrc). unfold test.
  change (mkSeq (Bol :: (literal a ++ starClass :: literal b) ++ [Eol])%list)
    with (Seq Bol (mkSeq ((literal a ++ starClass :: literal b) ++ [Eol])%list)).
  rewrite search_anchored.
  rewrite <- List.app_assoc.
  change ((starClass :: literal b) ++ [Eol])%list
    with (starClass :: literal b ++ [Eol])%list.
  split.
  - intros [= H].
    apply literal_match_inv in H as (y & b0 & -> & H).
    change (mkSeq (starClass :: literal b ++ [Eol])%list)
      with (Seq starClass (mkSeq (literal b ++ [Eol])%list)) in H.
    cbn [matchFrom starClass] in H.
    apply starClass_sound in H as (seg & y' & b1 & -> & Hseg & H).
    apply literal_to_end in H. subst y'. exists seg. auto.
  - intros (seg & -> & Hseg). f_equal.
    destruct (literal_match a (starClass :: literal b ++ [Eol])%list true
                (seg ++ b) (fun _ _ => true)) as (b0 & ->).
    change (mkSeq (starClass :: literal b ++ [Eol])%list)
      with (Seq starClass (mkSeq (literal b ++ [Eol])%list)).
    cbn [matchFrom starClass].
    apply starClass_complete; [|exact Hseg|lia].
    intros b1. apply literal_accepts.
Qed.

(** ** [**/] *)

Lemma dirs_matches (a b path : string) :
  ordinary a = true -> ordinary b = true ->
  matchPattern_exn path (a ++ "**/" ++ b) = Some true ->
  exists dirs,
    path = a ++ dirs ++ b /\ (dirs = "" \/ exists x, dirs = x ++ "/").
Proof.
  intros Ha Hb.
  apply ordinary_spec in Ha as [Ha Hwa]. apply ordinary_spec in Hb as [Hb Hwb].
  assert (Hsrc : Source (fromMarkers (toMarkers
                           (escapeSpecial (a ++ "**/" ++ b))))
                   (literal a ++ anyDirs :: literal b)%list).
  { rewrite !escapeSpecial_app. change (escapeSpecial "**/") with "**/".
    rewrite toMarkers_dirs by now apply escapeSpecial_no_star.
    rewrite fromMarkers_dirs
      by (apply escapeSpecial_includes;
          [reflexivity | discriminate | assumption]).
    apply Source_app; [now apply escapeSpecial_Source|].
    apply Source_dirs. now apply escapeSpecial_Source. }
  rewrite (matchPattern_exn_Source path _ Hsrc). unfold test.
  change (mkSeq (Bol :: (literal a ++ anyDirs :: literal b) ++ [Eol])%list)
    with (Seq Bol (mkSeq ((literal a ++ anyDirs :: literal b) ++ [Eol])%list)).
  rewrite search_anchored.
  rewrite <- List.app_assoc.
  change ((anyDirs :: literal b) ++ [Eol])%list
    with (anyDirs :: literal b ++ [Eol])%list.
  intros [= H].
  apply literal_match_inv in H as (y & b0 & -> & H).
  change (mkSeq (anyDirs :: literal b ++ [Eol])%list)
    with (Seq anyDirs (mkSeq (literal b ++ [Eol])%list)) in H.
  cbn [matchFrom] in H.
  apply anyDirs_sound in H as [H|(w & y' & -> & H)];
    apply literal_to_end in H; subst.
  - exists "". auto.
  - exists (w ++ "/"). split; [now rewrite app_assoc | right; now exists w].
Qed.

(** C4: the six matches of the claim hold of the code.  That [**/]
    matches zero or more whole path segments does not hold of every
    segment: for the pattern [src/**/*.ts] the regex built is
    [^src/(?:.*/)?[^/]*\.ts$], where [.] does not take a line feed, so
    the file [helper.ts] of the directory [src/a<LF>b] is not matched,
    while the same file of the directory [src/ab] is.  The comment of the
    source says of this replacement that it matches zero or more path
    segments. *)
Theorem doublestar_refuses_line_feed_segment :
  (matchPattern_exn "src/index.ts" "src/*.ts" = Some true
   /\ matchPattern_exn "src/utils/helper.ts" "src/*.ts" = Some false
   /\ matchPattern_exn "src/index.ts" "src/**/*.ts" = Some true
   /\ matchPattern_exn "src/utils/helper.ts" "src/**/*.ts" = Some true
   /\ matchPattern_exn "src/utils/helper.ts" "**/*.ts" = Some true
   /\ matchPattern_exn "index.ts" "**/*.ts" = Some true)
  /\ regexPattern "src/**/*.ts" = "^src/(?:.*/)?[^/]*\.ts$"
  /\ matchPattern_exn ("src/" ++ Fixtures.lineFeedDir ++ "/helper.ts")
       "src/**/*.ts" = Some false
  /\ matchPattern ("src/" ++ Fixtures.lineFeedDir ++ "/helper.ts")
       "src/**/*.ts" = false
  /\ matchPattern ("src/" ++ "ab" ++ "/helper.ts") "src/**/*.ts" = true.
Proof.
  split; [exact matchPattern_examples|].
  repeat split; vm_compute; reflexivity.
Qed.

End MatchFacts.

(* ================================================================== *)
(** * Patterns without wildcard *)
(* ================================================================== *)

Module LiteralFacts.

Import Str RegExp FileUtils PatternSyntax StrFacts WalkFacts MatchFacts.

(** The text of the regex of a pattern without wildcard: the escaped
    pattern, which the seven replacements leave as it is. *)
Lemma literal_pattern_text (pattern : string) :
  ordinary pattern = true ->
  fromMarkers (toMarkers (escapeSpecial pattern)) = escapeSpecial pattern.
Proof.
  intros H. apply ordinary_spec in H as [Hs Hw].
  pose proof (escapeSpecial_no_star pattern Hs) as He.
  pose proof (@escapeSpecial_includes "DOUBLESTAR" pattern eq_refl
                ltac:(discriminate) Hw) as Hes.
  pose proof (no_star_forallb _ He) as Hf.
  assert (T : toMarkers (escapeSpecial pattern) = escapeSpecial pattern).
  { unfold toMarkers.
    rewrite (@replaceAll_absent "*" "*/" DOUBLESTAR_SLASH _ Hf).
    rewrite (@replaceAll_no_occurrence "/**" SLASH_DOUBLESTAR
               (escapeSpecial pattern)).
    - rewrite (@replaceAll_absent "*" "*" DOUBLESTAR _ Hf).
      apply (@replaceAll_absent "*" "" "[^/]*" _ Hf).
    - discriminate.
    - apply (includes_few "*"). rewrite (count_absent _ _ He). simpl. lia. }
  rewrite T. unfold fromMarkers.
  rewrite (@replaceAll_no_occurrence DOUBLESTAR_SLASH "(?:.*/)?"
             (escapeSpecial pattern));
    [|discriminate
     |apply (@includes_around "___" "DOUBLESTAR" "_SLASH___"); exact Hes].
  rewrite (@replaceAll_no_occurrence SLASH_DOUBLESTAR "/.*"
             (escapeSpecial pattern));
    [|discriminate
     |apply (@includes_around "___SLASH_" "DOUBLESTAR" "___"); exact Hes].
  apply replaceAll_no_occurrence; [discriminate|].
  apply (@includes_around "___" "DOUBLESTAR" "___"). exact Hes.
Qed.

(** What a pattern without wildcard matches. *)
Lemma literal_pattern_exn (filePath pattern : string) :
  ordinary pattern = true ->
  matchPattern_exn filePath pattern = Some (String.eqb filePath pattern).
Proof.
  intros H.
  assert (Hsrc : Source (fromMarkers (toMarkers (escapeSpecial pattern)))
                   (literal pattern)).
  { rewrite literal_pattern_text by exact H.
    apply escapeSpecial_Source. now apply ordinary_spec in H as [Hs _]. }
  rewrite (matchPattern_exn_Source filePath _ Hsrc). f_equal. unfold test.
  change (mkSeq (Bol :: literal pattern ++ [Eol])%list)
    with (Seq Bol (mkSeq (literal pattern ++ [Eol])%list)).
  rewrite search_anchored.
  destruct (String.eqb_spec filePath pattern) as [->|Hne].
  - apply literal_accepts.
  - destruct (matchFrom _ true filePath _) eqn:E; [|reflexivity].
    apply literal_to_end in E. contradiction.
Qed.

Lemma literal_pattern_matchPattern (filePath pattern : string) :
  ordinary pattern = true ->
  matchPattern filePath pattern = String.eqb filePath pattern.
Proof.
  intros H. unfold matchPattern. now rewrite literal_pattern_exn.
Qed.

(** X1: a pattern without [*] and without the word of the markers is an
    exact match: [matchPattern] accepts the path that is the pattern,
    character for character, and no other.  The characters that are
    special in a regular expression ([.], [+], [?], brackets and the
    like) stand for themselves, and the match is anchored at both ends,
    so a name does not match the same name in a subdirectory. *)
Theorem literal_pattern_matches_itself_only (filePath pattern : string) :
  ordinary pattern = true ->
  (matchPattern filePath pattern = true <-> filePath = pattern).
Proof.
  intros H. rewrite literal_pattern_matchPattern by exact H.
  apply String.eqb_eq.
Qed.

Lemma literal_pattern_matches_itself_only_witness :
  matchPattern "a+b (1).txt" "a+b (1).txt" = true.
Proof.
  apply (@literal_pattern_matches_itself_only "a+b (1).txt" "a+b (1).txt");
    reflexivity.
Defined.

End LiteralFacts.

(* ================================================================== *)
(** * Patterns with [**/] and [*] *)
(* ================================================================== *)

Module GlobFacts.

Import Str RegExp FileUtils PatternSyntax StrFacts WalkFacts MatchFacts.
Import Notions.

(** An occurrence of [w] in a text does not hold a character that is not
    in [w]: it lies before the character or after it. *)
Lemma includes_sep (w x : string) (c : ascii) (y : string) :
  w <> "" ->
  includesChar c w = false ->
  includes w x = false -> includes w y = false ->
  includes w (x ++ String c y) = false.
Proof.
  intros Hw Hc Hx Hy.
  destruct (includes w (x ++ String c y)) eqn:E; [exfalso|reflexivity].
  apply includes_spec in E as (u & v & E).
  assert (Hhead : forall n t, w = String c n ++ t -> False).
  { intros n t ->. simpl in Hc. now rewrite Ascii.eqb_refl in Hc. }
  destruct (app_eq_app _ _ _ _ E) as [(m & Eu & Ey)|(m & Ex & Ewv)].
  - destruct m as [|c' m].
    + simpl in Ey. destruct w as [|a w]; [contradiction|].
      simpl in Ey. injection Ey as <- _. apply (Hhead "" w). reflexivity.
    + simpl in Ey. injection Ey as <- Ey.
      assert (includes w y = true); [|congruence].
      apply includes_spec. now exists m, v.
  - symmetry in Ewv.
    destruct (app_eq_app _ _ _ _ Ewv) as [(n & Ew & Ecy)|(n & Em & Ev)].
    + destruct n as [|c' n].
      * rewrite app_nil_r in Ew. subst m.
        assert (includes w x = true); [|congruence].
        apply includes_spec. exists u, "". now rewrite app_nil_r.
      * simpl in Ecy. injection Ecy as <- _.
        assert (includesChar c w = true); [|congruence].
        rewrite Ew, includesChar_app. simpl. rewrite Ascii.eqb_refl.
        apply orb_true_r.
    + assert (includes w x = true); [|congruence].
      apply includes_spec. exists u, n. now rewrite Ex, Em.
Qed.

Lemma includes_nil (w : string) : w <> "" -> includes w "" = false.
Proof. destruct w; [contradiction | reflexivity]. Qed.

(** The word of the markers is not in the regex text of a star, nor
    across it. *)
Lemma no_word_around_star (x y : string) :
  includes "DOUBLESTAR" x = false -> includes "DOUBLESTAR" y = false ->
  includes "DOUBLESTAR" (x ++ "[^/]*" ++ y) = false.
Proof.
  intros Hx Hy.
  change (x ++ "[^/]*" ++ y)
    with (x ++ String "[" ("" ++ String "^" ("" ++ String "/"
            ("" ++ String "]" ("" ++ String "*" y))))).
  repeat (apply includes_sep;
          [discriminate | reflexivity | assumption || reflexivity |]).
  exact Hy.
Qed.

Section Recursive.

(** [ea], [eb] and [ec] are the escaped texts around [**/] and [*]. *)
Variables ea eb ec : string.
Hypothesis ea_no_star : includesChar "*" ea = false.
Hypothesis eb_no_star : includesChar "*" eb = false.
Hypothesis ec_no_star : includesChar "*" ec = false.
Hypothesis ea_no_word : includes "DOUBLESTAR" ea = false.
Hypothesis eb_no_word : includes "DOUBLESTAR" eb = false.
Hypothesis ec_no_word : includes "DOUBLESTAR" ec = false.

Lemma toMarkers_recursive :
  toMarkers (ea ++ "**/" ++ eb ++ "*" ++ ec)
  = ea ++ DOUBLESTAR_SLASH ++ eb ++ "[^/]*" ++ ec.
Proof.
  assert (C1 : Str.count "*" (eb ++ "*" ++ ec) = 1).
  { rewrite !count_app, (count_absent _ _ eb_no_star),
      (count_absent _ _ ec_no_star). reflexivity. }
  assert (C : Str.count "*" (ea ++ DOUBLESTAR_SLASH ++ eb ++ "*" ++ ec) = 1).
  { rewrite (count_app _ ea), (count_app _ DOUBLESTAR_SLASH), C1,
      (count_absent _ _ ea_no_star). reflexivity. }
  unfold toMarkers.
  rewrite (@replaceAll_skip_all "*" "*/" DOUBLESTAR_SLASH ea)
    by now apply no_star_forallb.
  rewrite (@replaceAll_hit "**/" DOUBLESTAR_SLASH (eb ++ "*" ++ ec))
    by discriminate.
  rewrite (@replaceAll_no_occurrence "**/" DOUBLESTAR_SLASH
             (eb ++ "*" ++ ec))
    by (discriminate || (apply (includes_few "*"); rewrite C1; simpl; lia)).
  rewrite (@replaceAll_no_occurrence "/**" SLASH_DOUBLESTAR)
    by (discriminate || (apply (includes_few "*"); rewrite C; simpl; lia)).
  rewrite (@replaceAll_no_occurrence "**" DOUBLESTAR)
    by (discriminate || (apply (includes_few "*"); rewrite C; simpl; lia)).
  assert (R : ea ++ DOUBLESTAR_SLASH ++ eb ++ "*" ++ ec
              = (ea ++ DOUBLESTAR_SLASH ++ eb) ++ "*" ++ ec)
    by now rewrite !app_assoc.
  rewrite R.
  rewrite (@replaceAll_skip_all "*" "" "[^/]*" (ea ++ DOUBLESTAR_SLASH ++ eb)).
  2:{ apply no_star_forallb.
      now rewrite !includesChar_app, ea_no_star, eb_no_star. }
  rewrite (@replaceAll_hit "*" "[^/]*" ec) by discriminate.
  rewrite (@replaceAll_absent "*" "" "[^/]*" ec)
    by now apply no_star_forallb.
  now rewrite !app_assoc.
Qed.

Lemma recursive_text :
  fromMarkers (toMarkers (ea ++ "**/" ++ eb ++ "*" ++ ec))
  = ea ++ "(?:.*/)?" ++ eb ++ "[^/]*" ++ ec.
Proof.
  rewrite toMarkers_recursive.
  apply fromMarkers_dirs; [exact ea_no_word|].
  now apply no_word_around_star.
Qed.

End Recursive.

Lemma recursive_Source (a b c : string) :
  ordinary a = true -> ordinary b = true -> ordinary c = true ->
  Source (fromMarkers (toMarkers
            (escapeSpecial (a ++ "**/" ++ b ++ "*" ++ c))))
    (literal a ++ anyDirs :: literal b ++ starClass :: literal c)%list.
Proof.
  intros Ha Hb Hc.
  apply ordinary_spec in Ha as [Ha Hwa]. apply ordinary_spec in Hb as [Hb Hwb].
  apply ordinary_spec in Hc as [Hc Hwc].
  rewrite !escapeSpecial_app.
  change (escapeSpecial "**/") with "**/".
  change (escapeSpecial "*") with "*".
  rewrite recursive_text;
    try (now apply escapeSpecial_no_star);
    try (apply escapeSpecial_includes;
         [reflexivity | discriminate | assumption]).
  apply Source_app; [now apply escapeSpecial_Source|].
  apply Source_dirs.
  apply Source_app; [now apply escapeSpecial_Source|].
  apply Source_star. now apply escapeSpecial_Source.
Qed.

Lemma asciiLine_noLineBreak (s : string) :
  asciiLine s = true -> noLineBreak s = true.
Proof.
  unfold asciiLine, noLineBreak.
  induction s as [|c s IH]; simpl; intros H; [reflexivity|].
  apply andb_true_iff in H as [Hc Hs].
  apply andb_true_iff in Hc as [Hc _]. now rewrite Hc, IH.
Qed.

(** What [.*] takes holds no line feed and no carriage return. *)
Lemma anyText_sound (k : bool -> string -> bool) :
  forall fuel bol x,
    starLoop (matchFrom Dot) k fuel bol x = true ->
    exists w y b,
      x = w ++ y /\ noLineBreak w = true /\ k b y = true.
Proof.
  induction fuel as [|f IH]; intros bol x H; cbn [starLoop] in H.
  - exists "", x, bol. auto.
  - apply orb_true_iff in H as [H|H]; [|exists "", x, bol; auto].
    cbn [matchFrom] in H. destruct x as [|a x]; [discriminate|].
    destruct (isLineTerminator a) eqn:Ca; [discriminate|].
    destruct (Nat.ltb (String.length x) (String.length (String a x)));
      [|discriminate].
    apply IH in H as (w & y & b & -> & Hw & Hk).
    exists (String a w), y, b. repeat split; auto.
    unfold noLineBreak in *. simpl. now rewrite Ca, Hw.
Qed.

(** What [(?:.*/)?] takes is nothing, or a text without line feed and
    carriage return followed by a slash. *)
Lemma anyDirs_takes (k : bool -> string -> bool) (bol : bool) (x : string) :
  matchFrom anyDirs bol x k = true ->
  k bol x = true
  \/ exists w y,
       x = (w ++ "/") ++ y /\ noLineBreak w = true /\ k false y = true.
Proof.
  unfold anyDirs. cbn [matchFrom]. intros H.
  apply orb_true_iff in H as [H|H]; [right | now left].
  apply anyText_sound in H as (w & y & b & -> & Hw & H).
  cbn [matchFrom] in H. destruct y as [|a y]; [discriminate|].
  destruct (Ascii.eqb_spec a "/") as [->|]; [|discriminate].
  exists w, y. split; [now rewrite app_assoc | auto].
Qed.

(** [.*] can take any text without line feed and carriage return. *)
Lemma anyText_complete (k : bool -> string -> bool) (y : string) :
  (forall b, k b y = true) ->
  forall w fuel bol,
    noLineBreak w = true ->
    String.length (w ++ y) <= fuel ->
    starLoop (matchFrom Dot) k fuel bol (w ++ y) = true.
Proof.
  intros Hk. induction w as [|a w IH]; intros fuel bol Hw Hfuel.
  - change ("" ++ y) with y.
    destruct fuel; cbn [starLoop];
      [apply Hk | rewrite (Hk bol); apply orb_true_r].
  - unfold noLineBreak in Hw. simpl in Hw.
    apply andb_true_iff in Hw as [Ha Hw]. apply negb_true_iff in Ha.
    destruct fuel as [|fuel]; [simpl in Hfuel; lia|].
    change (String a w ++ y) with (String a (w ++ y)).
    cbn [starLoop matchFrom]. rewrite Ha.
    assert (L : Nat.ltb (String.length (w ++ y))
                  (String.length (String a (w ++ y))) = true)
      by (apply Nat.ltb_lt; simpl; lia).
    rewrite L, IH; [reflexivity | exact Hw | simpl in Hfuel; lia].
Qed.

(** [(?:.*/)?] can take nothing, and any such text followed by a
    slash. *)
Lemma anyDirs_complete (k : bool -> string -> bool) (y : string) :
  (forall b, k b y = true) ->
  (forall bol, matchFrom anyDirs bol y k = true)
  /\ (forall x bol,
        noLineBreak x = true ->
        matchFrom anyDirs bol (x ++ "/" ++ y) k = true).
Proof.
  intros Hk. split.
  - intros bol. unfold anyDirs. cbn [matchFrom].
    rewrite (Hk bol). apply orb_true_r.
  - intros x bol Hx. unfold anyDirs. cbn [matchFrom].
    apply orb_true_iff. left.
    apply anyText_complete; [|exact Hx|lia].
    intros b. cbn [matchFrom append Ascii.eqb Bool.eqb]. apply Hk.
Qed.

Lemma recursive_terms (a b c : string) :
  ((literal a ++ anyDirs :: literal b ++ starClass :: literal c) ++ [Eol])%list
  = (literal a ++ anyDirs :: literal b ++ starClass :: literal c ++ [Eol])%list.
Proof.
  rewrite <- List.app_assoc. cbn [app]. rewrite <- List.app_assoc.
  reflexivity.
Qed.

(** What the regex of [a**/b*c] takes. *)
Lemma recursive_sound (a b c path : string) :
  matchFrom
    (mkSeq (literal a ++ anyDirs :: literal b ++ starClass
              :: literal c ++ [Eol])%list)
    true path (fun _ _ => true) = true ->
  exists dirs seg,
    path = a ++ dirs ++ b ++ seg ++ c
    /\ (dirs = "" \/ exists x, dirs = x ++ "/" /\ noLineBreak x = true)
    /\ includesChar "/" seg = false.
Proof.
  intros H.
  apply literal_match_inv in H as (y & b0 & -> & H).
  change (mkSeq (anyDirs :: literal b ++ starClass :: literal c ++ [Eol])%list)
    with (Seq anyDirs
            (mkSeq (literal b ++ starClass :: literal c ++ [Eol])%list)) in H.
  cbn [matchFrom] in H.
  assert (Hrest : forall bol z,
             matchFrom
               (mkSeq (literal b ++ starClass :: literal c ++ [Eol])%list)
               bol z (fun _ _ => true) = true ->
             exists seg, z = b ++ seg ++ c /\ includesChar "/" seg = false).
  { intros bol z Hz.
    apply literal_match_inv in Hz as (z' & b1 & -> & Hz).
    change (mkSeq (starClass :: literal c ++ [Eol])%list)
      with (Seq starClass (mkSeq (literal c ++ [Eol])%list)) in Hz.
    cbn [matchFrom starClass] in Hz.
    apply starClass_sound in Hz as (seg & z'' & b2 & -> & Hseg & Hz).
    apply literal_to_end in Hz. subst z''. exists seg. auto. }
  apply anyDirs_takes in H as [H|(w & y' & -> & Hw & H)];
    apply Hrest in H as (seg & -> & Hseg).
  - exists "", seg. auto.
  - exists (w ++ "/"), seg. split; [now rewrite !app_assoc|].
    split; [right; now exists w | exact Hseg].
Qed.

Lemma recursive_complete (a b c seg : string) :
  includesChar "/" seg = false ->
  forall dirs,
    dirs = "" \/ (exists x, dirs = x ++ "/" /\ asciiLine x = true) ->
    matchFrom
      (mkSeq (literal a ++ anyDirs :: literal b ++ starClass
                :: literal c ++ [Eol])%list)
      true (a ++ dirs ++ b ++ seg ++ c) (fun _ _ => true) = true.
Proof.
  intros Hseg dirs Hdirs.
  destruct (literal_match a
              (anyDirs :: literal b ++ starClass :: literal c ++ [Eol])%list
              true (dirs ++ b ++ seg ++ c) (fun _ _ => true)) as (b0 & ->).
  change (mkSeq (anyDirs :: literal b ++ starClass :: literal c ++ [Eol])%list)
    with (Seq anyDirs
            (mkSeq (literal b ++ starClass :: literal c ++ [Eol])%list)).
  cbn [matchFrom].
  assert (Hrest : forall bol,
             matchFrom
               (mkSeq (literal b ++ starClass :: literal c ++ [Eol])%list)
               bol (b ++ seg ++ c) (fun _ _ => true) = true).
  { intros bol.
    destruct (literal_match b (starClass :: literal c ++ [Eol])%list bol
                (seg ++ c) (fun _ _ => true)) as (b1 & ->).
    change (mkSeq (starClass :: literal c ++ [Eol])%list)
      with (Seq starClass (mkSeq (literal c ++ [Eol])%list)).
    cbn [matchFrom starClass].
    apply starClass_complete; [|exact Hseg|lia].
    intros b2. apply literal_accepts. }
  destruct (anyDirs_complete
              (fun b1 z =>
                 matchFrom
                   (mkSeq (literal b ++ starClass :: literal c ++ [Eol])%list)
                   b1 z (fun _ _ => true))
              (b ++ seg ++ c) Hrest) as [H0 H1].
  destruct Hdirs as [->|(x & -> & Hx)].
  - apply H0.
  - rewrite app_assoc. now apply H1, asciiLine_noLineBreak.
Qed.

(** X28: a single [*] stays in its segment.  For texts [a] and [b]
    without [*] and without the word of the markers, the paths that
    [matchPattern] accepts for the pattern [a*b] are exactly the paths
    [a ++ seg ++ b] where [seg] holds no slash; [seg] may be empty and
    may begin with a dot. *)
Theorem single_star_stays_in_its_segment (a b path : string) :
  ordinary a = true -> ordinary b = true ->
  (matchPattern path (a ++ "*" ++ b) = true
   <-> exists seg, path = a ++ seg ++ b /\ includesChar "/" seg = false).
Proof.
  intros Ha Hb. rewrite <- (@one_star_matches a b path Ha Hb).
  unfold matchPattern.
  destruct (matchPattern_exn path (a ++ "*" ++ b)) as [[|]|];
    split; congruence.
Qed.

Lemma single_star_stays_in_its_segment_witness :
  matchPattern (".github/workflows/" ++ "ci" ++ ".yml")
    (".github/workflows/" ++ "*" ++ ".yml") = true.
Proof.
  apply (@single_star_stays_in_its_segment ".github/workflows/" ".yml");
    [reflexivity | reflexivity |].
  now exists "ci".
Defined.

(** X2: the patterns [a**/b*c] (as [src/**/*.ts], [k8s/**/*.yaml],
    [**/*.js]), for texts [a], [b] and [c] without [*] and without the
    word of the markers.  A path that [matchPattern] accepts is
    [a ++ dirs ++ b ++ seg ++ c] where [seg] holds no slash and [dirs]
    is empty or is a text without line feed and without carriage return
    followed by a slash; and [matchPattern] accepts every such path when
    [dirs] is empty or is a text of ASCII characters without line feed
    and without carriage return followed by a slash.  So [**/] stands
    for no directory at all as well as for several; nothing is said here
    of directories whose names hold other characters with a line feed or
    a carriage return. *)
Theorem recursive_pattern_matches (a b c : string) :
  ordinary a = true -> ordinary b = true -> ordinary c = true ->
  (forall path,
      matchPattern path (a ++ "**/" ++ b ++ "*" ++ c) = true ->
      exists dirs seg,
        path = a ++ dirs ++ b ++ seg ++ c
        /\ (dirs = "" \/ exists x, dirs = x ++ "/" /\ noLineBreak x = true)
        /\ includesChar "/" seg = false)
  /\ (forall dirs seg,
        dirs = "" \/ (exists x, dirs = x ++ "/" /\ asciiLine x = true) ->
        includesChar "/" seg = false ->
        matchPattern (a ++ dirs ++ b ++ seg ++ c)
          (a ++ "**/" ++ b ++ "*" ++ c) = true).
Proof.
  intros Ha Hb Hc.
  pose proof (recursive_Source a b c Ha Hb Hc) as Hsrc.
  assert (E : forall path,
             matchPattern path (a ++ "**/" ++ b ++ "*" ++ c)
             = matchFrom
                 (mkSeq (literal a ++ anyDirs :: literal b ++ starClass
                           :: literal c ++ [Eol])%list)
                 true path (fun _ _ => true)).
  { intros path. unfold matchPattern.
    rewrite (matchPattern_exn_Source path _ Hsrc). unfold test.
    rewrite recursive_terms.
    change (mkSeq (Bol :: literal a ++ anyDirs :: literal b ++ starClass
                     :: literal c ++ [Eol])%list)
      with (Seq Bol
              (mkSeq (literal a ++ anyDirs :: literal b ++ starClass
                        :: literal c ++ [Eol])%list)).
    apply search_anchored. }
  split.
  - intros path H. rewrite E in H. now apply recursive_sound.
  - intros dirs seg Hdirs Hseg. rewrite E. now apply recursive_complete.
Qed.

Lemma recursive_pattern_matches_witness :
  matchPattern ("k8s/" ++ "" ++ "" ++ "deploy" ++ ".yaml")
    ("k8s/" ++ "**/" ++ "" ++ "*" ++ ".yaml") = true
  /\ matchPattern ("k8s/" ++ ("prod/eu" ++ "/") ++ "" ++ "deploy" ++ ".yaml")
       ("k8s/" ++ "**/" ++ "" ++ "*" ++ ".yaml") = true.
Proof.
  destruct (@recursive_pattern_matches "k8s/" "" ".yaml"
              eq_refl eq_refl eq_refl) as [_ H].
  split.
  - apply (H "" "deploy"); [now left | reflexivity].
  - apply (H ("prod/eu" ++ "/") "deploy"); [|reflexivity].
    right. now exists "prod/eu".
Defined.

End GlobFacts.

(* ================================================================== *)
(** * Slashes and backslashes *)
(* ================================================================== *)

Module SlashFacts.

Import Str RegExp FileUtils PatternSyntax StrFacts WalkFacts MatchFacts.
Import LiteralFacts.

Lemma backslashToSlash_idempotent (s : string) :
  backslashToSlash (backslashToSlash s) = backslashToSlash s.
Proof.
  induction s as [|c s IH]; simpl; [reflexivity|]. rewrite IH. f_equal.
  destruct (Ascii.eqb_spec c "\") as [->|Hc]; [reflexivity|].
  now destruct (Ascii.eqb_spec c "\").
Qed.

(** A text cut in two after the replacement was cut in two before it. *)
Lemma backslashToSlash_cut (a b : string) :
  forall s,
    backslashToSlash s = a ++ b ->
    exists a' b',
      s = a' ++ b' /\ backslashToSlash a' = a /\ backslashToSlash b' = b.
Proof.
  induction a as [|c a IH]; intros s E.
  - exists "", s. auto.
  - destruct s as [|x s]; [discriminate|].
    simpl in E. injection E as Ec E.
    apply IH in E as (a' & b' & -> & <- & <-).
    exists (String x a'), b'. simpl. now rewrite Ec.
Qed.

(** What the replacement gives without a slash it has left as it was. *)
Lemma backslashToSlash_unchanged (w : string) :
  forall s,
    backslashToSlash s = w -> includesChar "/" w = false -> s = w.
Proof.
  induction w as [|c w IH]; intros s E H; destruct s as [|x s];
    try discriminate; [reflexivity|].
  simpl in E, H. injection E as Ec E.
  apply orb_false_iff in H as [Hc Hw]. f_equal; [|now apply IH].
  destruct (Ascii.eqb_spec x "\"); [|exact Ec].
  subst c. discriminate.
Qed.

Lemma backslashToSlash_ordinary (s : string) :
  ordinary s = true -> ordinary (backslashToSlash s) = true.
Proof.
  intros H. apply ordinary_spec in H as [Hs Hw].
  unfold ordinary. rewrite (backslashToSlash_no_star _ Hs). simpl.
  apply negb_true_iff.
  destruct (includes "DOUBLESTAR" (backslashToSlash s)) eqn:E;
    [|reflexivity].
  apply includes_spec in E as (u & v & E).
  apply backslashToSlash_cut in E as (u' & r & -> & _ & E).
  apply backslashToSlash_cut in E as (w' & v' & -> & E & _).
  apply backslashToSlash_unchanged in E; [|reflexivity]. subst w'.
  assert (includes "DOUBLESTAR" (u' ++ "DOUBLESTAR" ++ v') = true);
    [|congruence].
  apply includes_spec. now exists u', v'.
Qed.

Lemma matchesAnyPattern_normalized (filePath : string)
    (patterns : list string) :
  matchesAnyPattern (backslashToSlash filePath) patterns
  = matchesAnyPattern filePath patterns.
Proof.
  unfold matchesAnyPattern. now rewrite backslashToSlash_idempotent.
Qed.

(** X3: the direction of the slashes does not count.  [findFiles] gives
    the same result for patterns written with backslashes as for the same
    patterns after [normalizePattern]; and an inclusion pattern without
    [*] and without the word [DOUBLESTAR] of the markers matches exactly
    the paths that are equal to it once every backslash, in the path and
    in the pattern, is read as a slash. *)
Theorem slash_direction_is_ignored :
  (forall baseDir patterns ignore maxDepth,
      findFiles baseDir (map normalizePattern patterns)
        (map normalizePattern ignore) maxDepth
      = findFiles baseDir patterns ignore maxDepth)
  /\ (forall filePath pattern,
        ordinary pattern = true ->
        (matchesAnyPattern filePath [normalizePattern pattern] = true
         <-> backslashToSlash filePath = backslashToSlash pattern)).
Proof.
  split.
  - intros baseDir patterns ignore maxDepth. unfold findFiles.
    assert (E : forall l,
               map normalizePattern (map normalizePattern l)
               = map normalizePattern l).
    { intros l. rewrite map_map. apply map_ext.
      intros x. apply backslashToSlash_idempotent. }
    now rewrite !E.
  - intros filePath pattern H. unfold matchesAnyPattern, normalizePattern.
    cbn [existsb]. rewrite orb_false_r.
    rewrite literal_pattern_matchPattern
      by now apply backslashToSlash_ordinary.
    apply String.eqb_eq.
Qed.

Lemma slash_direction_is_ignored_witness :
  matchesAnyPattern "src\index.ts" [normalizePattern "src/index.ts"] = true.
Proof.
  destruct slash_direction_is_ignored as [_ H].
  apply (H "src\index.ts" "src/index.ts"); reflexivity.
Defined.

End SlashFacts.

(* ================================================================== *)
(** * More on [findFiles] *)
(* ================================================================== *)

Module FindFacts.

Import Str FileUtils StrFacts WalkFacts Notions.

(** [Visits] looks at the exclusion patterns through [shouldIgnore] only,
    and a deeper bound lets it reach at least as far. *)
Lemma Visits_monotone (ignore ignore' : list string) (maxDepth maxDepth' : Z)
    (d : dir) (dirRel : string) (depth : Z) (p : string) :
  (forall q, shouldIgnore q ignore = false -> shouldIgnore q ignore' = false) ->
  (maxDepth <= maxDepth')%Z ->
  Visits ignore maxDepth d dirRel depth p ->
  Visits ignore' maxDepth' d dirRel depth p.
Proof.
  intros Hig Hm H.
  induction H as [entries dirRel depth name Hd Hin Ig
                 |entries dirRel depth name sub p Hd Hin Ig _ IH].
  - apply Visits_file; auto. lia.
  - apply Visits_dir with (name := name) (sub := sub); auto. lia.
Qed.

Lemma shouldIgnore_false (q : string) (ignore : list string) :
  shouldIgnore q ignore = false
  <-> forall pattern, In pattern ignore ->
        matchPattern (backslashToSlash q) pattern = false.
Proof.
  unfold shouldIgnore. split.
  - intros H pattern Hin.
    destruct (matchPattern (backslashToSlash q) pattern) eqn:E;
      [|reflexivity].
    assert (existsb (fun pattern => matchPattern (backslashToSlash q) pattern)
              ignore = true); [|congruence].
    apply existsb_exists. now exists pattern.
  - intros H.
    destruct (existsb _ ignore) eqn:E; [|reflexivity].
    apply existsb_exists in E as (pattern & Hin & E).
    rewrite (H pattern Hin) in E. discriminate.
Qed.

Lemma shouldIgnore_incl (q : string) (ignore ignore' : list string) :
  incl ignore' ignore ->
  shouldIgnore q ignore = false -> shouldIgnore q ignore' = false.
Proof.
  rewrite !shouldIgnore_false. intros Hi H pattern Hin. apply H, Hi, Hin.
Qed.

Lemma matchesAnyPattern_true (p : string) (patterns : list string) :
  matchesAnyPattern p patterns = true
  <-> exists pattern, In pattern patterns
        /\ matchPattern (backslashToSlash p) pattern = true.
Proof. unfold matchesAnyPattern. apply existsb_exists. Qed.

Lemma matchesAnyPattern_incl (p : string) (patterns patterns' : list string) :
  incl patterns patterns' ->
  matchesAnyPattern p (map normalizePattern patterns) = true ->
  matchesAnyPattern p (map normalizePattern patterns') = true.
Proof.
  intros H. rewrite !matchesAnyPattern_true.
  intros (pattern & Hin & E). exists pattern. split; [|exact E].
  apply in_map_iff in Hin as (y & <- & Hy). apply in_map, H, Hy.
Qed.

(** A file that [walk] reaches from the directory [dirRel] entered at
    [depth] is a file of the tree, below directories that are listed, no
    more of them than the bound lets the walk enter. *)
Lemma Visits_HasFile (ignore : list string) (maxDepth : Z) (d : dir)
    (dirRel : string) (depth : Z) (p : string) :
  Visits ignore maxDepth d dirRel depth p ->
  exists dirs name,
    HasFile d dirs name
    /\ p = pathOf dirRel dirs name
    /\ (depth + Z.of_nat (List.length dirs) <= maxDepth)%Z.
Proof.
  induction 1 as [entries dirRel depth name Hd Hin Ig
                 |entries dirRel depth name sub p Hd Hin Ig _ IH].
  - exists [], name. split; [now constructor|].
    split; [reflexivity | simpl; lia].
  - destruct IH as (dirs & file & Hf & -> & Hlen).
    exists (name :: dirs), file.
    split; [now apply HasFile_below with (sub := sub)|].
    split; [reflexivity|]. simpl List.length. lia.
Qed.

(** Without exclusion patterns, [walk] reaches every file of the tree
    that the bound lets it reach. *)
Lemma HasFile_Visits (maxDepth : Z) (d : dir) (dirs : list string)
    (name : string) :
  HasFile d dirs name ->
  forall dirRel depth,
    (depth + Z.of_nat (List.length dirs) <= maxDepth)%Z ->
    Visits [] maxDepth d dirRel depth (pathOf dirRel dirs name).
Proof.
  induction 1 as [entries name Hin|entries d sub dirs name Hin _ IH];
    intros dirRel depth Hlen.
  - apply Visits_file; [simpl in Hlen; lia | exact Hin | reflexivity].
  - apply Visits_dir with (name := d) (sub := sub);
      [simpl List.length in Hlen; lia | exact Hin | reflexivity|].
    apply IH. simpl List.length in Hlen. lia.
Qed.

(** The separators of a path built from names without slash. *)
Lemma count_relativeOf (dirRel name : string) :
  includesChar "/" name = false ->
  Str.count "/" (relativeOf dirRel name)
  = match dirRel with
    | EmptyString => 0
    | _ => S (Str.count "/" dirRel)
    end.
Proof.
  intros H. pose proof (MatchFacts.count_absent _ _ H) as C.
  unfold relativeOf. destruct dirRel as [|c r]; [exact C|].
  rewrite !MatchFacts.count_app, C. simpl Str.count at 2. lia.
Qed.

Lemma count_pathOf (dirs : list string) (name : string) :
  Forall (fun n => includesChar "/" n = false) (dirs ++ [name]) ->
  forall dirRel,
    Str.count "/" (pathOf dirRel dirs name)
    <= match dirRel with
       | EmptyString => 0
       | _ => S (Str.count "/" dirRel)
       end + List.length dirs.
Proof.
  induction dirs as [|d dirs IH]; intros Hall dirRel.
  - inversion Hall as [|? ? Hn _]; subst.
    unfold pathOf. cbn [app fold_left List.length].
    rewrite (@count_relativeOf dirRel name Hn). lia.
  - inversion Hall as [|? ? Hd Hall']; subst.
    change (pathOf dirRel (d :: dirs) name)
      with (pathOf (relativeOf dirRel d) dirs name).
    specialize (IH Hall' (relativeOf dirRel d)).
    pose proof (@count_relativeOf dirRel d Hd) as C.
    cbn [List.length].
    destruct (relativeOf dirRel d) as [|c r] eqn:E; lia.
Qed.

Lemma findFiles_sorted (baseDir : dir) (patterns ignore : list string)
    (maxDepth : Z) :
  StronglySorted le (findFiles baseDir patterns ignore maxDepth)
  /\ NoDup (findFiles baseDir patterns ignore maxDepth).
Proof.
  unfold findFiles. split; [apply sort_sorted|].
  apply sort_NoDup, walk_NoDup. constructor.
Qed.

(** X4: [findFiles] with no inclusion pattern returns nothing, and with
    two lists of inclusion patterns put together it returns the paths
    that one list or the other gives. *)
Theorem findFiles_union_of_patterns (baseDir : dir)
    (patterns patterns' ignore : list string) (maxDepth : Z) :
  findFiles baseDir [] ignore maxDepth = []
  /\ forall p,
       In p (findFiles baseDir (patterns ++ patterns') ignore maxDepth)
       <-> In p (findFiles baseDir patterns ignore maxDepth)
           \/ In p (findFiles baseDir patterns' ignore maxDepth).
Proof.
  split.
  - destruct (findFiles baseDir [] ignore maxDepth) as [|p l] eqn:E;
      [reflexivity|].
    assert (H : In p (findFiles baseDir [] ignore maxDepth))
      by (rewrite E; now left).
    apply findFiles_In in H as [_ H]. discriminate H.
  - intros p. rewrite !findFiles_In, map_app. unfold matchesAnyPattern.
    rewrite existsb_app, orb_true_iff. tauto.
Qed.

(** X5: the result of [findFiles] depends on the inclusion patterns
    and on the exclusion patterns as sets: the order in which the
    patterns are written and their repetitions do not change it. *)
Theorem findFiles_depends_on_pattern_sets (baseDir : dir)
    (patterns patterns' ignore ignore' : list string) (maxDepth : Z) :
  (forall x, In x patterns <-> In x patterns') ->
  (forall x, In x ignore <-> In x ignore') ->
  findFiles baseDir patterns ignore maxDepth
  = findFiles baseDir patterns' ignore' maxDepth.
Proof.
  intros Hp Hi.
  apply sorted_unique; try apply findFiles_sorted.
  assert (Hv : forall ig ig' : list string,
             (forall x, In x ig -> In x ig') ->
             forall p,
               Visits (map normalizePattern ig') maxDepth baseDir "" 0%Z p ->
               Visits (map normalizePattern ig) maxDepth baseDir "" 0%Z p).
  { intros ig ig' H p. apply Visits_monotone; [|lia].
    intros q. apply shouldIgnore_incl.
    intros x Hx. apply in_map_iff in Hx as (y & <- & Hy).
    apply in_map, H, Hy. }
  assert (Hm : forall ps ps' : list string,
             (forall x, In x ps -> In x ps') ->
             forall p,
               matchesAnyPattern p (map normalizePattern ps) = true ->
               matchesAnyPattern p (map normalizePattern ps') = true).
  { intros ps ps' H p. now apply matchesAnyPattern_incl. }
  intros p. rewrite !findFiles_In. split; intros [V M]; split.
  - revert V. apply Hv. intros x. apply Hi.
  - revert M. apply Hm. intros x. apply Hp.
  - revert V. apply Hv. intros x. apply Hi.
  - revert M. apply Hm. intros x. apply Hp.
Qed.

Lemma findFiles_depends_on_pattern_sets_witness :
  findFiles Fixtures.orderedTree ["*.ts"; "**/*.ts"; "*.ts"] ["a"; "b"] 10
  = findFiles Fixtures.orderedTree ["**/*.ts"; "*.ts"] ["b"; "a"; "b"] 10.
Proof.
  apply findFiles_depends_on_pattern_sets; intros x; simpl; tauto.
Defined.

(** X6: exclusion patterns only take paths away and depth only adds
    some: a path returned with the exclusion patterns [ignore] and the
    bound [maxDepth] is still returned with a part of these exclusion
    patterns and with a bound at least as large. *)
Theorem findFiles_monotone (baseDir : dir)
    (patterns ignore ignore' : list string) (maxDepth maxDepth' : Z)
    (p : string) :
  incl ignore' ignore -> (maxDepth <= maxDepth')%Z ->
  In p (findFiles baseDir patterns ignore maxDepth) ->
  In p (findFiles baseDir patterns ignore' maxDepth').
Proof.
  intros Hi Hm. rewrite !findFiles_In. intros [V M]. split; [|exact M].
  revert V. apply Visits_monotone; [|exact Hm].
  intros q. apply shouldIgnore_incl.
  intros x Hx. apply in_map_iff in Hx as (y & <- & Hy).
  apply in_map, Hi, Hy.
Qed.

Lemma findFiles_monotone_witness :
  In "lib/x.ts" (findFiles Fixtures.orderedTree ["**/*.ts"] [] 10).
Proof.
  apply (@findFiles_monotone Fixtures.orderedTree ["**/*.ts"] ["a.ts"] []
           1 10 "lib/x.ts").
  - intros x [].
  - lia.
  - vm_compute. auto.
Defined.

(** An entry that the loop of [walk] passes over. *)
Lemma visit_skipped (patterns ignore : list string) (maxDepth : Z)
    (dirRel : string) (depth : Z) (results : list string) (e : entry) :
  skipped ignore dirRel e ->
  visit patterns ignore maxDepth dirRel depth results e = results.
Proof.
  unfold visit. intros [H|[(n & ->)|(n & ->)]].
  - now rewrite H.
  - now destruct (shouldIgnore _ ignore).
  - destruct (shouldIgnore _ ignore); [reflexivity|].
    apply walk_unreadable.
Qed.

(** X7: what [walk] passes over leaves no trace.  A base directory that
    cannot be read gives the empty result, not an error; and an entry
    that matches an exclusion pattern, or is neither a file nor a
    directory, or is a directory that cannot be read, can be taken out
    of the listing without changing what [walk] and [findFiles] return:
    the entries listed after it are visited as if it were not there. *)
Theorem skipped_entry_leaves_no_trace (patterns ignore : list string)
    (maxDepth : Z) (before after : list entry) (e : entry) :
  findFiles Unreadable patterns ignore maxDepth = []
  /\ (forall dirRel depth results,
        skipped ignore dirRel e ->
        walk patterns ignore maxDepth (Listing (before ++ e :: after))
          dirRel depth results
        = walk patterns ignore maxDepth (Listing (before ++ after))
            dirRel depth results)
  /\ (skipped (map normalizePattern ignore) "" e ->
      findFiles (Listing (before ++ e :: after)) patterns ignore maxDepth
      = findFiles (Listing (before ++ after)) patterns ignore maxDepth).
Proof.
  assert (H : forall pats ign dirRel depth results,
             skipped ign dirRel e ->
             walk pats ign maxDepth (Listing (before ++ e :: after))
               dirRel depth results
             = walk pats ign maxDepth (Listing (before ++ after))
                 dirRel depth results).
  { intros pats ign dirRel depth results Hs.
    destruct (Z_le_gt_dec depth maxDepth) as [Hd|Hd].
    - rewrite !walk_listing by exact Hd.
      rewrite !fold_left_app. cbn [fold_left].
      now rewrite visit_skipped.
    - now rewrite !walk_beyond. }
  split; [|split].
  - unfold findFiles. now rewrite walk_unreadable.
  - intros dirRel depth results. apply H.
  - intros Hs. unfold findFiles. now rewrite H.
Qed.

Lemma skipped_entry_leaves_no_trace_witness :
  findFiles
    (Listing ([File "a.ts"] ++ Directory "locked" Unreadable :: [File "b.ts"]))
    ["*.ts"] [] 10
  = findFiles (Listing ([File "a.ts"] ++ [File "b.ts"])) ["*.ts"] [] 10.
Proof.
  apply (@skipped_entry_leaves_no_trace ["*.ts"] [] 10 [File "a.ts"]
           [File "b.ts"] (Directory "locked" Unreadable)).
  right. right. now exists "locked".
Defined.

(** X8: the depth bound in general.  Every path that [findFiles]
    returns is the path of a file of the tree that lies below at most
    [maxDepth] directories of the base directory, and when the names on
    the way hold no slash the path has at most [maxDepth] separators.
    The bound is exact: without exclusion patterns, every file of the
    tree that lies below at most [maxDepth] directories, all of them
    listed, is returned when its path matches an inclusion pattern. *)
Theorem depth_bound_in_general (baseDir : dir) (patterns : list string)
    (maxDepth : Z) :
  (forall ignore p,
      In p (findFiles baseDir patterns ignore maxDepth) ->
      exists dirs name,
        HasFile baseDir dirs name
        /\ p = pathOf "" dirs name
        /\ (Z.of_nat (List.length dirs) <= maxDepth)%Z
        /\ (Forall (fun n => includesChar "/" n = false) (dirs ++ [name]) ->
            (Z.of_nat (Str.count "/" p) <= maxDepth)%Z))
  /\ (forall dirs name,
        HasFile baseDir dirs name ->
        (Z.of_nat (List.length dirs) <= maxDepth)%Z ->
        matchesAnyPattern (pathOf "" dirs name)
          (map normalizePattern patterns) = true ->
        In (pathOf "" dirs name) (findFiles baseDir patterns [] maxDepth)).
Proof.
  split.
  - intros ignore p H. apply findFiles_In in H as [V _].
    apply Visits_HasFile in V as (dirs & name & Hf & E & Hlen).
    exists dirs, name. split; [exact Hf|]. split; [exact E|].
    split; [lia|]. intros Hall.
    pose proof (@count_pathOf dirs name Hall "") as C.
    rewrite <- E in C. simpl in C. lia.
  - intros dirs name Hf Hlen M. apply findFiles_In. split; [|exact M].
    apply HasFile_Visits; [exact Hf | lia].
Qed.

Lemma depth_bound_in_general_witness :
  In (pathOf "" ["lib"] "x.ts")
    (findFiles Fixtures.orderedTree ["**/*.ts"] [] 1).
Proof.
  destruct (@depth_bound_in_general Fixtures.orderedTree ["**/*.ts"] 1)
    as [_ H].
  apply (H ["lib"] "x.ts").
  - apply HasFile_below with (sub := Listing [File "x.ts"; File "y.ts"]).
    + right. now left.
    + apply HasFile_here. now left.
  - simpl. lia.
  - vm_compute. reflexivity.
Defined.

End FindFacts.

(* ================================================================== *)
(** * [estimateTokens] and [truncateContent] *)
(* ================================================================== *)

Module EstimateFacts.

Import Str FileUtils Index StrFacts IndexFacts Notions.

Local Open Scope Z_scope.

Lemma strlen_nonneg (s : string) : 0 <= strlen s.
Proof. unfold strlen. lia. Qed.

(** [estimateTokens] is the ceiling of a quarter of the length. *)
Lemma estimateTokens_bounds (text : string) :
  4 * (estimateTokens text - 1) < strlen text <= 4 * estimateTokens text.
Proof.
  unfold estimateTokens.
  pose proof (Z.div_mod (strlen text) 4 ltac:(lia)) as E.
  pose proof (Z.mod_pos_bound (strlen text) 4 ltac:(lia)) as B.
  destruct (Z.eqb_spec (strlen text mod 4) 0); lia.
Qed.

(** X9: [estimateTokens] is the quarter of the length rounded up: the
    least number of tokens [t] with [4 * t] at least the length.  Only
    the empty text costs nothing, and the cost of two texts put together
    is at least the cost of the first and at most the sum of the two
    costs. *)
Theorem estimateTokens_is_ceiling (a b : string) :
  4 * (estimateTokens a - 1) < strlen a <= 4 * estimateTokens a
  /\ (estimateTokens a = 0 <-> a = "")
  /\ estimateTokens a <= estimateTokens (a ++ b)
     <= estimateTokens a + estimateTokens b.
Proof.
  pose proof (estimateTokens_bounds a) as Ha.
  pose proof (estimateTokens_bounds b) as Hb.
  pose proof (estimateTokens_bounds (a ++ b)) as Hab.
  rewrite strlen_app in Hab.
  pose proof (strlen_nonneg a). pose proof (strlen_nonneg b).
  split; [exact Ha|]. split; [|lia].
  split.
  - intros E. destruct a as [|c a]; [reflexivity|].
    unfold strlen in Ha. simpl String.length in Ha. lia.
  - intros ->. reflexivity.
Qed.

Lemma substring_app_prefix (a b : string) :
  String.substring 0 (String.length a) (a ++ b) = a.
Proof.
  induction a as [|c a IH]; simpl.
  - now destruct b.
  - now rewrite IH.
Qed.

Lemma substring_zero (s : string) : String.substring 0 0 s = "".
Proof. now destruct s. Qed.

Lemma notice_not_empty (maxChars : Z) : 2 <= strlen (truncationNotice maxChars).
Proof.
  unfold truncationNotice. rewrite !strlen_app.
  change (strlen nl) with 1.
  pose proof (strlen_nonneg
                ("... [Content truncated - file too large. Showing first "
                 ++ numberToString maxChars ++ " characters]")).
  rewrite !strlen_app in H. lia.
Qed.

(** X10: [truncateContent] applied to its own result changes nothing,
    for any text and any bound (a negative bound keeps no character): a
    truncated text is not cut again at another place and the notice is
    not repeated. *)
Theorem truncateContent_idempotent (content : string) (maxChars : Z) :
  truncateContent (truncateContent content maxChars) maxChars
  = truncateContent content maxChars.
Proof.
  destruct (Z_le_gt_dec (strlen content) maxChars) as [Hle|Hgt].
  - rewrite (@truncateContent_short content maxChars Hle).
    exact (@truncateContent_short content maxChars Hle).
  - pose proof (notice_not_empty maxChars) as Hn.
    assert (E : truncateContent content maxChars
                = (String.substring 0 (Z.to_nat maxChars) content
                     ++ truncationNotice maxChars)%string
                /\ String.length
                     (String.substring 0 (Z.to_nat maxChars) content)
                   = Z.to_nat maxChars).
    { unfold truncateContent.
      destruct (Z.leb_spec (strlen content) maxChars) as [?|_]; [lia|].
      split; [reflexivity|].
      destruct (@substring_prefix (Z.to_nat maxChars) content)
        as (rest & _ & L); [unfold strlen in Hgt; lia | exact L]. }
    destruct E as [E L]. rewrite E.
    unfold truncateContent at 1.
    destruct (Z.leb_spec
                (strlen (String.substring 0 (Z.to_nat maxChars) content
                           ++ truncationNotice maxChars)%string)
                maxChars) as [Hle|_].
    + rewrite strlen_app in Hle. unfold strlen at 1 in Hle.
      rewrite L in Hle. lia.
    + f_equal. rewrite <- L at 1. apply substring_app_prefix.
Qed.

End EstimateFacts.

(* ================================================================== *)
(** * [getFilePriority] *)
(* ================================================================== *)

Module PriorityFacts.

Import Str FileUtils Index StrFacts IndexFacts Notions.

Local Open Scope Z_scope.

Lemma splitLast_name (name : string) :
  includesChar "/" name = false -> splitLast name = (None, name).
Proof.
  induction name as [|c name IH]; simpl; intros H; [reflexivity|].
  apply orb_false_iff in H as [Hc Hn]. now rewrite IH, Hc.
Qed.

Lemma splitLast_path (d name : string) :
  includesChar "/" name = false ->
  splitLast (d ++ "/" ++ name) = (Some d, name).
Proof.
  intros H. induction d as [|c d IH].
  - change ("" ++ "/" ++ name)%string with (String "/" name).
    cbn [splitLast]. now rewrite splitLast_name.
  - change (String c d ++ "/" ++ name)%string
      with (String c (d ++ "/" ++ name)).
    cbn [splitLast]. now rewrite IH.
Qed.

(** [path.basename] of the path that [walk] builds for an entry. *)
Lemma basename_relativeOf (dirRel name : string) :
  includesChar "/" name = false -> basename (relativeOf dirRel name) = name.
Proof.
  intros H. unfold basename, relativeOf. destruct dirRel as [|c d].
  - now rewrite splitLast_name.
  - now rewrite (@splitLast_path (String c d) name H).
Qed.

(** X11: the priority of the path that [walk] builds for an entry
    [name] (not empty, without slash) of the directory [dirRel] is
    between 1 and 8; it is 1 exactly
    when the entry is named [package.json], and 2 exactly when its name
    begins with [readme] in any letter case, in whatever directory the
    entry is. *)
Theorem priority_of_manifest_and_readme (dirRel name : string) :
  name <> "" -> includesChar "/" name = false ->
  1 <= getFilePriority (relativeOf dirRel name) <= 8
  /\ (getFilePriority (relativeOf dirRel name) = 1
      <-> name = "package.json")
  /\ (getFilePriority (relativeOf dirRel name) = 2
      <-> startsWith "readme" (toLowerCase name) = true).
Proof.
  intros _ H. unfold getFilePriority.
  rewrite (@basename_relativeOf dirRel name H).
  destruct (String.eqb_spec name "package.json") as [->|Hne].
  - split; [lia|]. split; [tauto|]. split; [lia | discriminate].
  - destruct (startsWith "readme" (toLowerCase name)).
    + split; [lia|]. split; [split; [lia | contradiction] | tauto].
    + repeat match goal with
             | |- context [if ?c then _ else _] => destruct c
             end;
        (split; [lia|]; split; split;
         solve [lia | contradiction | discriminate]).
Qed.

Lemma priority_of_manifest_and_readme_witness :
  getFilePriority (relativeOf "packages/app" "ReadMe.MD") = 2.
Proof.
  apply (@priority_of_manifest_and_readme "packages/app" "ReadMe.MD");
    [discriminate | reflexivity | reflexivity].
Defined.

End PriorityFacts.

(* ================================================================== *)
(** * The order of the candidates *)
(* ================================================================== *)

Module OrderFacts.

Import Str FileUtils Index StrFacts IndexFacts WalkFacts Notions FindFacts.

Local Open Scope Z_scope.

(** ** The first loop *)

Lemma withPriorities_fresh (matches : list string) :
  forall seenPaths,
    NoDup matches ->
    (forall x, In x matches -> ~ In x seenPaths) ->
    withPriorities matches seenPaths
    = map (fun match_ => (match_, getFilePriority match_)) matches.
Proof.
  induction matches as [|x matches IH]; intros seenPaths Hnd Hfresh;
    [reflexivity|].
  inversion Hnd as [|? ? Hx Hnd']; subst. cbn [withPriorities map].
  destruct (existsb (String.eqb x) seenPaths) eqn:E.
  - apply existsb_exists in E as (y & Hy & Exy).
    apply String.eqb_eq in Exy. subst y.
    destruct (Hfresh x (or_introl eq_refl) Hy).
  - f_equal. apply IH; [exact Hnd'|].
    intros y Hy Hin. apply in_app_or in Hin as [Hin|[<-|[]]].
    + exact (Hfresh y (or_intror Hy) Hin).
    + contradiction.
Qed.

(** ** The sort *)

Lemma insertByPriority_Permutation (x : string * Z) (l : list (string * Z)) :
  Permutation (x :: l) (insertByPriority x l).
Proof.
  induction l as [|y l IH]; simpl; [reflexivity|].
  destruct (snd x <=? snd y); [reflexivity|].
  rewrite perm_swap. now apply perm_skip.
Qed.

Lemma sortByPriority_Permutation (l : list (string * Z)) :
  Permutation l (sortByPriority l).
Proof.
  induction l as [|x l IH]; simpl; [reflexivity|].
  rewrite <- insertByPriority_Permutation. now apply perm_skip.
Qed.

Lemma readBefore_from_priority (a b : string) :
  getFilePriority a <= getFilePriority b ->
  String.compare a b = Lt ->
  readBefore a b.
Proof.
  intros Hp Hc. unfold readBefore.
  destruct (Z.eq_dec (getFilePriority a) (getFilePriority b)); [right|left];
    [auto | lia].
Qed.

Lemma readBefore_priority (a b : string) :
  readBefore a b -> getFilePriority a <= getFilePriority b.
Proof. intros [H|[H _]]; lia. Qed.

(** Putting [x] in a list that is in reading order keeps the order, when
    the paths of the list come after the path of [x]: among equal
    priorities the sort keeps the order of the array. *)
Lemma insertByPriority_sorted (x : string * Z) (l : list (string * Z)) :
  Forall (fun y => snd y = getFilePriority (fst y)) (x :: l) ->
  Forall (fun y => String.compare (fst x) (fst y) = Lt) l ->
  StronglySorted (fun a b => readBefore (fst a) (fst b)) l ->
  StronglySorted (fun a b => readBefore (fst a) (fst b))
    (insertByPriority x l).
Proof.
  intros Ht Hc Hs. inversion Ht as [|? ? Hx Htl]; subst.
  induction Hs as [|y l Hs IH Hy]; simpl.
  - repeat constructor.
  - inversion Htl as [|? ? Hty Htl']; subst.
    inversion Hc as [|? ? Hcy Hc']; subst.
    destruct (Z.leb_spec (snd x) (snd y)) as [Hle|Hgt].
    + constructor; [now constructor|].
      constructor.
      * apply readBefore_from_priority; [lia | exact Hcy].
      * rewrite Forall_forall in Hy, Hc' |- *. intros z Hz.
        apply readBefore_from_priority; [|now apply Hc'].
        pose proof (readBefore_priority (Hy z Hz)). lia.
    + constructor.
      * apply IH; auto.
      * apply (Permutation_Forall (insertByPriority_Permutation x l)).
        constructor; [|exact Hy]. left. lia.
Qed.

Lemma sortByPriority_sorted (l : list string) :
  StronglySorted (fun a b => String.compare a b = Lt) l ->
  StronglySorted (fun a b => readBefore (fst a) (fst b))
    (sortByPriority
       (map (fun match_ => (match_, getFilePriority match_)) l)).
Proof.
  induction 1 as [|x l Hs IH Hx]; simpl; [constructor|].
  apply insertByPriority_sorted.
  - constructor; [reflexivity|].
    apply (Permutation_Forall (sortByPriority_Permutation _)).
    apply Forall_forall. intros y Hy.
    apply in_map_iff in Hy as (m & <- & _). reflexivity.
  - apply (Permutation_Forall (sortByPriority_Permutation _)).
    apply Forall_forall. intros y Hy.
    apply in_map_iff in Hy as (m & <- & Hm). simpl.
    rewrite Forall_forall in Hx. now apply Hx.
  - exact IH.
Qed.

Lemma StronglySorted_map_fst (R : string -> string -> Prop)
    (l : list (string * Z)) :
  StronglySorted (fun a b => R (fst a) (fst b)) l ->
  StronglySorted R (map fst l).
Proof.
  induction 1 as [|x l Hs IH Hx]; simpl; constructor; [exact IH|].
  apply Forall_forall. intros y Hy.
  apply in_map_iff in Hy as (z & <- & Hz).
  rewrite Forall_forall in Hx. now apply Hx.
Qed.

Lemma findFiles_strict (baseDir : dir) (patterns ignore : list string)
    (maxDepth : Z) :
  StronglySorted (fun a b => String.compare a b = Lt)
    (findFiles baseDir patterns ignore maxDepth).
Proof. apply sorted_strict; apply findFiles_sorted. Qed.

Lemma allFiles_unfold (baseDir : dir) (patterns : list string) :
  allFiles baseDir patterns
  = map fst
      (sortByPriority
         (map (fun match_ => (match_, getFilePriority match_))
            (findFiles baseDir patterns ignoreList defaultMaxDepth))).
Proof.
  unfold allFiles. rewrite withPriorities_fresh; [reflexivity| |auto].
  apply findFiles_sorted.
Qed.

Lemma allFiles_sorted (baseDir : dir) (patterns : list string) :
  StronglySorted readBefore (allFiles baseDir patterns).
Proof.
  rewrite allFiles_unfold.
  apply StronglySorted_map_fst, sortByPriority_sorted, findFiles_strict.
Qed.

(** The candidates are the paths that [findFiles] returned. *)
Lemma allFiles_In (baseDir : dir) (patterns : list string) (p : string) :
  In p (allFiles baseDir patterns)
  <-> In p (findFiles baseDir patterns ignoreList defaultMaxDepth).
Proof.
  rewrite allFiles_unfold. split; intros H.
  - apply in_map_iff in H as ([q n] & <- & H).
    apply (Permutation_in _ (Permutation_sym (sortByPriority_Permutation _)))
      in H.
    apply in_map_iff in H as (m & [= <- _] & Hm). exact Hm.
  - apply in_map_iff. exists (p, getFilePriority p). split; [reflexivity|].
    apply (Permutation_in _ (sortByPriority_Permutation _)).
    apply in_map_iff. now exists p.
Qed.

(** X12: the candidates of [findAndReadFiles] after the sort are the
    paths that [findFiles] returned, each once, by increasing priority
    number; candidates with the same priority stay in the order of
    [findFiles], which is the order of code units. *)
Theorem candidates_are_taken_in_priority_order (baseDir : dir)
    (patterns : list string) :
  Permutation (findFiles baseDir patterns ignoreList defaultMaxDepth)
    (allFiles baseDir patterns)
  /\ StronglySorted readBefore (allFiles baseDir patterns).
Proof.
  rewrite allFiles_unfold. split.
  - rewrite <- sortByPriority_Permutation, map_map. simpl.
    now rewrite map_id.
  - apply StronglySorted_map_fst, sortByPriority_sorted.
    apply sorted_strict; apply findFiles_sorted.
Qed.

(** X13: the test on [seenPaths] in the first loop of
    [findAndReadFiles] never skips a match: [findFiles] returns every
    path once, so each match gets its priority and goes to
    [allFiles]. *)
Theorem duplicate_filter_never_fires (baseDir : dir)
    (patterns ignore : list string) (maxDepth : Z) :
  withPriorities (findFiles baseDir patterns ignore maxDepth) []
  = map (fun match_ => (match_, getFilePriority match_))
      (findFiles baseDir patterns ignore maxDepth).
Proof. apply withPriorities_fresh; [apply findFiles_sorted | auto]. Qed.

End OrderFacts.

(* ================================================================== *)
(** * More on [findAndReadFiles] *)
(* ================================================================== *)

Module ReadFacts.

Import Str FileUtils Index StrFacts IndexFacts WalkFacts Notions.
Import PatternSyntax LiteralFacts SlashFacts FindFacts EstimateFacts OrderFacts.

Local Open Scope Z_scope.

(** ** Subsequences *)

Lemma Subsequence_nil_l (A : Type) (l : list A) : Subsequence [] l.
Proof. induction l; constructor; assumption. Qed.

Lemma Subsequence_In (A : Type) (l1 l2 : list A) :
  Subsequence l1 l2 -> forall x, In x l1 -> In x l2.
Proof.
  induction 1 as [|x l1 l2 _ IH|x l1 l2 _ IH]; intros y Hy; simpl in *; auto.
  destruct Hy as [->|Hy]; auto.
Qed.

Lemma Subsequence_sorted (A : Type) (R : A -> A -> Prop) (l1 l2 : list A) :
  Subsequence l1 l2 -> StronglySorted R l2 -> StronglySorted R l1.
Proof.
  induction 1 as [|x l1 l2 Hsub IH|x l1 l2 Hsub IH]; intros Hs;
    [constructor| |].
  - inversion Hs as [|? ? Hs' Hx]; subst. constructor; [now apply IH|].
    rewrite Forall_forall in Hx |- *. intros y Hy.
    apply Hx. exact (Subsequence_In Hsub y Hy).
  - inversion Hs; subst. now apply IH.
Qed.

Section Loop.

Variable readFile : string -> readResult.

(** ** What the loop appends *)

Lemma readLoop_appends (total : Z) (files : list string) :
  forall st,
  exists more,
    results (readLoop readFile total files st) = (results st ++ more)%list
    /\ Subsequence (map fst more) files.
Proof.
  induction files as [|match_ rest IH]; intros st.
  - exists []. simpl. rewrite List.app_nil_r. split; [reflexivity|constructor].
  - cbn [readLoop].
    destruct (loopBody_cases readFile total match_ st)
      as [(line & -> & _)
         |(content & st1 & R & B & Sr & St & [(_ & line & ->)|(Hle & ->)])].
    + destruct (IH (say line st)) as (more & E & Hsub).
      exists more. split; [exact E | now constructor].
    + exists []. simpl. rewrite List.app_nil_r.
      split; [exact Sr | apply Subsequence_nil_l].
    + destruct (IH (mkState
                      (results st
                       ++ [(match_,
                            truncateContent content MAX_FILE_SIZE)])%list
                      (totalTokens st
                       + estimateTokens
                           (truncateContent content MAX_FILE_SIZE))
                      (log st1))) as (more & E & Hsub).
      exists ((match_, truncateContent content MAX_FILE_SIZE) :: more).
      split; [|now constructor].
      rewrite E. simpl. now rewrite <- List.app_assoc.
Qed.

(** The candidates that are not text leave the array and the running
    total as they are. *)
Lemma readLoop_skips (total : Z) (rest : list string) :
  forall pre st,
    (forall p, In p pre -> isText readFile p = false) ->
    exists st',
      readLoop readFile total (pre ++ rest)%list st
      = readLoop readFile total rest st'
      /\ results st' = results st /\ totalTokens st' = totalTokens st.
Proof.
  induction pre as [|x pre IH]; intros st H.
  - exists st. auto.
  - cbn [app readLoop].
    destruct (loopBody_cases readFile total x st)
      as [(line & -> & _)|(content & st1 & R & B & _)].
    + destruct (IH (say line st)) as (st' & E & Hr & Ht).
      * intros p Hp. apply H. now right.
      * exists st'. auto.
    + specialize (H x (or_introl eq_refl)). unfold isText in H.
      rewrite R, B in H. discriminate.
Qed.

(** A text costs at most 12519 tokens once it went through
    [truncateContent]. *)
Lemma truncated_cost (content : string) :
  estimateTokens (truncateContent content MAX_FILE_SIZE) <= 12519.
Proof.
  pose proof (estimateTokens_bounds (truncateContent content MAX_FILE_SIZE))
    as B.
  assert (strlen (truncateContent content MAX_FILE_SIZE) <= 50074); [|lia].
  destruct (Z_le_gt_dec (strlen content) MAX_FILE_SIZE) as [Hle|Hgt].
  - rewrite (@truncateContent_short content MAX_FILE_SIZE Hle).
    unfold MAX_FILE_SIZE in Hle. lia.
  - destruct (@truncateContent_long content MAX_FILE_SIZE) as [E L];
      [unfold MAX_FILE_SIZE; lia | exact Hgt |].
    rewrite E, strlen_app, L, notice_length. unfold MAX_FILE_SIZE. lia.
Qed.

(** The first candidate that is a text is accepted whatever its size. *)
Lemma readLoop_first_text (total : Z) (pre : list string) (c : string)
    (post : list string) (content : string) :
  (forall p, In p pre -> isText readFile p = false) ->
  readFile c = ReadOk content ->
  includesChar NUL content = false ->
  exists rest,
    results (readLoop readFile total (pre ++ c :: post)%list initialState)
    = (c, truncateContent content MAX_FILE_SIZE) :: rest.
Proof.
  intros Hpre R B.
  destruct (@readLoop_skips total (c :: post) pre initialState Hpre)
    as (st' & -> & Hr & Ht).
  cbn [readLoop]. simpl in Hr, Ht.
  pose proof (truncated_cost content) as Hcost.
  destruct (loopBody_cases readFile total c st')
    as [(line & _ & Hbin)
       |(content' & st1 & R' & _ & Sr & St & [(Hgt & _)|(Hle & ->)])].
  - rewrite (Hbin content R) in B. discriminate.
  - rewrite R in R'. injection R' as <-.
    simpl in Hgt. unfold MAX_TOTAL_TOKENS in Hgt. lia.
  - rewrite R in R'. injection R' as <-.
    destruct (readLoop_appends total post
                (mkState
                   (results st'
                    ++ [(c, truncateContent content MAX_FILE_SIZE)])%list
                   (totalTokens st'
                    + estimateTokens (truncateContent content MAX_FILE_SIZE))
                   (log st1))) as (more & E & _).
    exists more. rewrite E. simpl. now rewrite Hr.
Qed.

(** The running total is the cost of the array. *)
Lemma readLoop_total (total : Z) (files : list string) (st : state) :
  tokensOf (results st) = totalTokens st ->
  tokensOf (results (readLoop readFile total files st))
  = totalTokens (readLoop readFile total files st).
Proof.
  intros E.
  apply (@readLoop_invariant readFile (fun rs tot => tokensOf rs = tot));
    [|exact E].
  intros rs tot match_ content HE _ _ content' _.
  rewrite tokensOf_app, HE. simpl. lia.
Qed.

End Loop.

Lemma first_text (f : string -> bool) (l : list string) :
  (exists p, In p l /\ f p = true) ->
  exists pre c post,
    l = (pre ++ c :: post)%list
    /\ (forall q, In q pre -> f q = false) /\ f c = true.
Proof.
  induction l as [|x l IH]; intros (p & Hin & Hp); [destruct Hin|].
  destruct (f x) eqn:Ex.
  - exists [], x, l. repeat split; auto. intros q [].
  - destruct IH as (pre & c & post & -> & Hpre & Hc).
    + destruct Hin as [->|Hin]; [congruence | now exists p].
    + exists (x :: pre), c, post. repeat split; auto.
      intros q [<-|Hq]; auto.
Qed.

Lemma charsOf_le (files : list (string * string)) :
  charsOf files <= 4 * tokensOf files.
Proof.
  unfold charsOf, tokensOf.
  induction files as [|f files IH]; cbn [fold_right]; [lia|].
  pose proof (estimateTokens_bounds (snd f)). lia.
Qed.

Lemma tokensOf_nonneg (files : list (string * string)) : 0 <= tokensOf files.
Proof.
  unfold tokensOf.
  induction files as [|f files IH]; cbn [fold_right]; [lia|].
  pose proof (estimateTokens_bounds (snd f)).
  pose proof (strlen_nonneg (snd f)). lia.
Qed.

Lemma tokensOf_In (x : string * string) (files : list (string * string)) :
  In x files -> estimateTokens (snd x) <= tokensOf files.
Proof.
  intros H. apply in_split in H as (l1 & l2 & ->).
  rewrite tokensOf_app. simpl.
  pose proof (tokensOf_nonneg l1). pose proof (tokensOf_nonneg l2). lia.
Qed.

Lemma tokensOf_In2 (x y : string * string) (files : list (string * string)) :
  In x files -> In y files -> x <> y ->
  estimateTokens (snd x) + estimateTokens (snd y) <= tokensOf files.
Proof.
  intros Hx Hy Hne. apply in_split in Hx as (l1 & l2 & ->).
  rewrite tokensOf_app. simpl.
  pose proof (tokensOf_nonneg l1). pose proof (tokensOf_nonneg l2).
  apply in_app_or in Hy as [Hy|[Hy|Hy]].
  - pose proof (@tokensOf_In y _ Hy). lia.
  - congruence.
  - pose proof (@tokensOf_In y _ Hy). lia.
Qed.

(** The paths returned are candidates. *)
Lemma results_in_candidates (readFile : string -> readResult)
    (baseDir : dir) (patterns : list string) (p c : string) :
  In (p, c) (findAndReadFiles readFile baseDir patterns) ->
  In p (allFiles baseDir patterns).
Proof.
  rewrite findAndReadFiles_afterLoop. unfold afterLoop.
  destruct (readLoop_appends readFile
              (Z.of_nat (List.length (allFiles baseDir patterns)))
              (allFiles baseDir patterns) initialState)
    as (more & -> & Hsub).
  intros H. apply (Subsequence_In Hsub).
  change p with (fst (p, c)). now apply in_map.
Qed.

(** X14: the files come back in the order in which they were taken: the
    paths returned by [findAndReadFiles] are the candidates with some of
    them left out, so they are in priority order, in the order of code
    units among equal priorities, and none is returned twice. *)
Theorem results_follow_priority_order (readFile : string -> readResult)
    (baseDir : dir) (patterns : list string) :
  Subsequence (map fst (findAndReadFiles readFile baseDir patterns))
    (allFiles baseDir patterns)
  /\ StronglySorted readBefore
       (map fst (findAndReadFiles readFile baseDir patterns)).
Proof.
  assert (H : Subsequence
                (map fst (findAndReadFiles readFile baseDir patterns))
                (allFiles baseDir patterns)).
  { rewrite findAndReadFiles_afterLoop. unfold afterLoop.
    destruct (readLoop_appends readFile
                (Z.of_nat (List.length (allFiles baseDir patterns)))
                (allFiles baseDir patterns) initialState)
      as (more & -> & Hsub).
    exact Hsub. }
  split; [exact H|].
  exact (Subsequence_sorted H (allFiles_sorted baseDir patterns)).
Qed.

(** X15: the budget never keeps the first text out.  The first
    candidate, in priority order, that is read without error and holds
    no null byte is the first file returned, whatever its length: after
    [truncateContent] it costs at most 12519 tokens, which is below the
    budget of 15000. *)
Theorem first_text_file_is_returned (readFile : string -> readResult)
    (baseDir : dir) (patterns pre : list string) (c : string)
    (post : list string) (content : string) :
  allFiles baseDir patterns = (pre ++ c :: post)%list ->
  (forall p, In p pre -> isText readFile p = false) ->
  readFile c = ReadOk content ->
  includesChar NUL content = false ->
  exists rest,
    findAndReadFiles readFile baseDir patterns
    = (c, truncateContent content MAX_FILE_SIZE) :: rest.
Proof.
  intros E Hpre R B.
  rewrite findAndReadFiles_afterLoop. unfold afterLoop. rewrite E.
  now apply readLoop_first_text.
Qed.

Lemma first_text_file_is_returned_witness :
  exists rest,
    findAndReadFiles Fixtures.binaryRead Fixtures.binaryTree standard
    = ("README.md", truncateContent "# readme" MAX_FILE_SIZE) :: rest.
Proof.
  apply (@first_text_file_is_returned Fixtures.binaryRead
           Fixtures.binaryTree standard [] "README.md" ["Dockerfile"]
           "# readme").
  - vm_compute. reflexivity.
  - intros p [].
  - reflexivity.
  - reflexivity.
Defined.

(** The candidates that are texts, and the first of them. *)
Lemma text_candidates (readFile : string -> readResult) (baseDir : dir)
    (patterns : list string) :
  (forall p, In p (allFiles baseDir patterns) -> isText readFile p = false)
  \/ exists pre c post content,
       allFiles baseDir patterns = (pre ++ c :: post)%list
       /\ (forall p, In p pre -> isText readFile p = false)
       /\ readFile c = ReadOk content
       /\ includesChar NUL content = false.
Proof.
  destruct (List.forallb (fun p => negb (isText readFile p))
              (allFiles baseDir patterns)) eqn:E.
  - left. intros p Hin. rewrite List.forallb_forall in E.
    apply negb_true_iff. now apply E.
  - right.
    destruct (@first_text (isText readFile) (allFiles baseDir patterns))
      as (pre & c & post & El & Hpre & Hc).
    { destruct (existsb (isText readFile) (allFiles baseDir patterns))
        eqn:Ex.
      - apply existsb_exists in Ex as (p & Hin & Hp). now exists p.
      - assert (List.forallb (fun p => negb (isText readFile p))
                  (allFiles baseDir patterns) = true); [|congruence].
        apply List.forallb_forall. intros p Hin. apply negb_true_iff.
        destruct (isText readFile p) eqn:T; [|reflexivity].
        assert (existsb (isText readFile) (allFiles baseDir patterns) = true);
          [|congruence].
        apply existsb_exists. now exists p. }
    unfold isText in Hc.
    destruct (readFile c) as [content|] eqn:R; [|discriminate].
    apply negb_true_iff in Hc.
    exists pre, c, post, content. auto.
Qed.

Lemma budget_holds (readFile : string -> readResult) (baseDir : dir)
    (patterns : list string) :
  tokensOf (findAndReadFiles readFile baseDir patterns) <= MAX_TOTAL_TOKENS.
Proof.
  rewrite findAndReadFiles_afterLoop. unfold afterLoop.
  apply readLoop_budget; [reflexivity | unfold MAX_TOTAL_TOKENS; simpl; lia].
Qed.

(** X16: [findAndReadFiles] returns no file exactly when no candidate
    is a text: every candidate either cannot be read or holds a null
    byte. *)
Theorem nothing_returned_iff_nothing_readable
    (readFile : string -> readResult) (baseDir : dir)
    (patterns : list string) :
  findAndReadFiles readFile baseDir patterns = []
  <-> forall p, In p (allFiles baseDir patterns) -> isText readFile p = false.
Proof.
  rewrite findAndReadFiles_afterLoop. unfold afterLoop. split.
  - intros E p Hin.
    destruct (isText readFile p) eqn:T; [|reflexivity]. exfalso.
    destruct (@first_text (isText readFile) (allFiles baseDir patterns))
      as (pre & c & post & El & Hpre & Hc); [now exists p|].
    unfold isText in Hc.
    destruct (readFile c) as [content|] eqn:R; [|discriminate].
    apply negb_true_iff in Hc.
    destruct (@readLoop_first_text readFile
                (Z.of_nat (List.length (allFiles baseDir patterns)))
                pre c post content Hpre R Hc) as (rest & Er).
    rewrite <- El, E in Er. discriminate.
  - intros H.
    destruct (@readLoop_skips readFile
                (Z.of_nat (List.length (allFiles baseDir patterns)))
                [] (allFiles baseDir patterns) initialState H)
      as (st' & E & Hr & _).
    rewrite List.app_nil_r in E. rewrite E. exact Hr.
Qed.

(** X17: the texts returned by one call of [findAndReadFiles] hold at
    most 60000 characters together, four for each token of the
    budget. *)
Theorem returned_text_is_bounded (readFile : string -> readResult)
    (baseDir : dir) (patterns : list string) :
  charsOf (findAndReadFiles readFile baseDir patterns) <= 60000.
Proof.
  pose proof (charsOf_le (findAndReadFiles readFile baseDir patterns)) as H.
  pose proof (budget_holds readFile baseDir patterns).
  unfold MAX_TOTAL_TOKENS in *. lia.
Qed.

(** X18: at most one of the files returned is a truncated one.  Two
    entries of the result whose texts are longer than the cap of 50000
    characters are the same entry: each costs more than 12500 tokens,
    and the budget is 15000. *)
Theorem at_most_one_truncated_file (readFile : string -> readResult)
    (baseDir : dir) (patterns : list string) (f1 f2 : string * string) :
  In f1 (findAndReadFiles readFile baseDir patterns) ->
  In f2 (findAndReadFiles readFile baseDir patterns) ->
  strlen (snd f1) > MAX_FILE_SIZE ->
  strlen (snd f2) > MAX_FILE_SIZE ->
  f1 = f2.
Proof.
  intros H1 H2 L1 L2.
  pose proof (budget_holds readFile baseDir patterns) as Hb.
  assert (Hdec : {f1 = f2} + {f1 <> f2}).
  { decide equality; apply string_dec. }
  destruct Hdec as [E|Hne]; [exact E|]. exfalso.
  pose proof (@tokensOf_In2 f1 f2 _ H1 H2 Hne) as H.
  pose proof (estimateTokens_bounds (snd f1)).
  pose proof (estimateTokens_bounds (snd f2)).
  unfold MAX_TOTAL_TOKENS, MAX_FILE_SIZE in *. lia.
Qed.

Lemma at_most_one_truncated_file_witness :
  ("package.json", truncateContent Fixtures.bigContent MAX_FILE_SIZE)
  = ("package.json", truncateContent Fixtures.bigContent MAX_FILE_SIZE).
Proof.
  apply (@at_most_one_truncated_file Fixtures.bigRead Fixtures.bigTree
           minimal).
  - apply In_files. vm_compute. reflexivity.
  - apply In_files. vm_compute. reflexivity.
  - vm_compute. reflexivity.
  - vm_compute. reflexivity.
Defined.

(** X19: a file that cannot be read is passed over.  The loop goes on
    with the next candidate, with the same array and the same running
    total, after one diagnostic that names the file and gives the
    message of the error; and the file is not in what
    [findAndReadFiles] returns. *)
Theorem unreadable_file_is_skipped (readFile : string -> readResult)
    (total : Z) (match_ message : string) (rest : list string) (st : state) :
  readFile match_ = ReadError message ->
  readLoop readFile total (match_ :: rest) st
  = readLoop readFile total rest
      (mkState (results st) (totalTokens st)
         (log st
          ++ [("Could not read " ++ match_ ++ ": " ++ message)%string])%list)
  /\ forall (baseDir : dir) (patterns : list string) (c : string),
       ~ In (match_, c) (findAndReadFiles readFile baseDir patterns).
Proof.
  intros R. split.
  - cbn [readLoop]. unfold loopBody. now rewrite R.
  - intros baseDir patterns c Hin.
    rewrite findAndReadFiles_afterLoop in Hin. unfold afterLoop in Hin.
    apply readLoop_results in Hin; [|intros ? ? []].
    destruct Hin as (original & R' & _). congruence.
Qed.

Lemma unreadable_file_is_skipped_witness :
  readLoop lockedRead 2 ["README.md"; "package.json"] initialState
  = readLoop lockedRead 2 ["package.json"]
      (mkState [] 0
         ["Could not read README.md: EACCES: permission denied"])
  /\ forall (baseDir : dir) (patterns : list string) (c : string),
       ~ In ("README.md", c) (findAndReadFiles lockedRead baseDir patterns).
Proof.
  apply (@unreadable_file_is_skipped lockedRead 2 "README.md"
           "EACCES: permission denied" ["package.json"] initialState).
  reflexivity.
Defined.

(** X20: the last diagnostic of [findAndReadFiles] is accurate: the
    running total is the sum of the estimated costs of the files
    returned, and the last line written gives the number of these files
    and that sum. *)
Theorem final_diagnostic_is_accurate (readFile : string -> readResult)
    (baseDir : dir) (patterns : list string) :
  let st := findAndReadFiles_state readFile baseDir patterns in
  totalTokens st = tokensOf (findAndReadFiles readFile baseDir patterns)
  /\ last (log st) ""
     = "Collected "
         ++ numberToString
              (Z.of_nat
                 (List.length (findAndReadFiles readFile baseDir patterns)))
         ++ " files (≈"
         ++ numberToString
              (tokensOf (findAndReadFiles readFile baseDir patterns))
         ++ " tokens)".
Proof.
  intros st.
  assert (E : totalTokens (afterLoop readFile baseDir patterns)
              = tokensOf (results (afterLoop readFile baseDir patterns))).
  { symmetry. unfold afterLoop. now apply readLoop_total. }
  split.
  - exact E.
  - unfold st, findAndReadFiles_state, say. cbn [log].
    rewrite last_last, E. reflexivity.
Qed.

(** ** The pattern tables *)

Lemma minimal_incl_standard : incl minimal standard.
Proof. unfold standard. apply incl_appl, incl_refl. Qed.

Lemma standard_incl_deep : incl standard deep.
Proof. unfold deep. apply incl_appl, incl_refl. Qed.

Lemma findFiles_more_patterns (baseDir : dir)
    (patterns patterns' ignore : list string) (maxDepth : Z) (p : string) :
  incl patterns patterns' ->
  In p (findFiles baseDir patterns ignore maxDepth) ->
  In p (findFiles baseDir patterns' ignore maxDepth).
Proof.
  intros Hi. rewrite !findFiles_In. intros [V M]. split; [exact V|].
  revert M. now apply matchesAnyPattern_incl.
Qed.

(** X21: a deeper scan looks for more.  The patterns of [minimal] are
    among those of [standard], which are among those of [deep], so a
    path that [findFiles] returns for one depth is returned for the next
    one, whatever the exclusion patterns and the depth bound. *)
Theorem deeper_scan_finds_more (baseDir : dir) (ignore : list string)
    (maxDepth : Z) (p : string) :
  (In p (findFiles baseDir (getFilePatterns "minimal") ignore maxDepth) ->
   In p (findFiles baseDir (getFilePatterns "standard") ignore maxDepth))
  /\ (In p (findFiles baseDir (getFilePatterns "standard") ignore maxDepth) ->
      In p (findFiles baseDir (getFilePatterns "deep") ignore maxDepth)).
Proof.
  split; apply findFiles_more_patterns.
  - exact minimal_incl_standard.
  - exact standard_incl_deep.
Qed.

Lemma deeper_scan_finds_more_witness :
  In "package.json"
    (findFiles Fixtures.manifestTree (getFilePatterns "deep") [] 10).
Proof.
  destruct (@deeper_scan_finds_more Fixtures.manifestTree [] 10
              "package.json") as [H1 H2].
  apply H2, H1. vm_compute. auto.
Defined.

(** The patterns of the minimal scan are names: no wildcard, no
    separator. *)
Lemma minimal_names :
  forall pattern, In pattern minimal ->
    ordinary pattern = true
    /\ includesChar "/" pattern = false
    /\ normalizePattern pattern = pattern.
Proof.
  assert (H : List.forallb
                (fun pattern =>
                   ordinary pattern
                   && negb (includesChar "/" pattern)
                   && String.eqb (normalizePattern pattern) pattern)
                minimal = true) by (vm_compute; reflexivity).
  rewrite List.forallb_forall in H. intros pattern Hin.
  specialize (H pattern Hin).
  apply andb_true_iff in H as [H H3]. apply andb_true_iff in H as [H1 H2].
  apply negb_true_iff in H2. apply String.eqb_eq in H3. auto.
Qed.

(** X22: the minimal scan stays at the root of the repository.  Its
    patterns are plain names, and a plain name matches itself only, so
    every path returned for the depth [minimal] is one of the names of
    the table and holds no slash: a manifest in a subdirectory is not
    collected. *)
Theorem minimal_scan_stays_at_root (readFile : string -> readResult)
    (baseDir : dir) (p c : string) :
  In (p, c) (findAndReadFiles readFile baseDir (getFilePatterns "minimal")) ->
  In p minimal /\ includesChar "/" p = false.
Proof.
  intros Hin.
  assert (Hf : In p (findFiles baseDir minimal ignoreList defaultMaxDepth)).
  { apply allFiles_In. exact (results_in_candidates _ _ _ _ _ Hin). }
  apply findFiles_In in Hf as [_ M].
  apply matchesAnyPattern_true in M as (pattern & Hp & M).
  apply in_map_iff in Hp as (q & <- & Hq).
  destruct (@minimal_names q Hq) as (Ho & Hs & Hn). rewrite Hn in M.
  rewrite (@literal_pattern_matchPattern (backslashToSlash p) q Ho) in M.
  apply String.eqb_eq in M.
  apply backslashToSlash_unchanged in M; [|exact Hs]. subst q. auto.
Qed.

Lemma minimal_scan_stays_at_root_witness :
  In "package.json" minimal /\ includesChar "/" "package.json" = false.
Proof.
  apply (@minimal_scan_stays_at_root Fixtures.smallRead Fixtures.smallTree
           "package.json" "{}").
  apply In_files. vm_compute. reflexivity.
Defined.

End ReadFacts.

(* ================================================================== *)
(** * Excluded directories *)
(* ================================================================== *)

Module ExclusionFacts.

Import Str RegExp FileUtils PatternSyntax Index StrFacts IndexFacts WalkFacts.
Import MatchFacts Notions SlashFacts FindFacts OrderFacts ReadFacts.

Local Open Scope Z_scope.

Lemma backslashToSlash_noLineBreak (s : string) :
  noLineBreak s = true -> noLineBreak (backslashToSlash s) = true.
Proof.
  unfold noLineBreak.
  induction s as [|c s IH]; simpl; intros H; [reflexivity|].
  apply andb_true_iff in H as [Hc Hs]. rewrite (IH Hs), andb_true_r.
  destruct (Ascii.eqb_spec c "\"); [reflexivity | exact Hc].
Qed.

(** The paths below [d] match the exclusion pattern [d/**]. *)
Lemma shouldIgnore_below (ignore : list string) (d rest : string) :
  ordinary d = true -> asciiLine rest = true ->
  In (d ++ "/**") ignore ->
  shouldIgnore (d ++ "/" ++ rest) (map normalizePattern ignore) = true.
Proof.
  intros Hd Hrest Hin. unfold shouldIgnore.
  apply existsb_exists. exists (normalizePattern (d ++ "/**")).
  split; [now apply in_map|].
  unfold normalizePattern. rewrite !backslashToSlash_app.
  change (backslashToSlash "/**") with "/**".
  change (backslashToSlash "/") with "/".
  apply backslashToSlash_ordinary, ordinary_spec in Hd as [Hs Hw].
  unfold matchPattern.
  rewrite (dir_pattern_accepts_entry (backslashToSlash d)
             (backslashToSlash rest) Hs Hw).
  - reflexivity.
  - now apply backslashToSlash_noLineBreak, GlobFacts.asciiLine_noLineBreak.
Qed.

(** X23: an exclusion pattern [d/**] keeps out the files below the
    directory [d] of the base directory.  For a text [d] without [*] and
    without the word of the markers, and a text [rest] of ASCII
    characters without line feed and carriage return, the path [d/rest]
    is not returned by [findFiles] when [d/**] is among the exclusion
    patterns; with the exclusion list of [findAndReadFiles], no such
    path below [node_modules], [.git], [dist] and the other directories
    of the list is collected.  The patterns are anchored at the base
    directory: a directory of the same name deeper in the tree is not
    excluded, and [k8s/node_modules/x.yaml] matches no pattern of the
    list. *)
Theorem excluded_directory_hides_its_files (baseDir : dir)
    (patterns : list string) (d rest : string) :
  ordinary d = true -> asciiLine rest = true ->
  (forall ignore maxDepth,
      In (d ++ "/**") ignore ->
      ~ In (d ++ "/" ++ rest) (findFiles baseDir patterns ignore maxDepth))
  /\ (In (d ++ "/**") ignoreList ->
      forall readFile c,
        ~ In (d ++ "/" ++ rest, c)
            (findAndReadFiles readFile baseDir patterns))
  /\ shouldIgnore "k8s/node_modules/x.yaml" (map normalizePattern ignoreList)
     = false.
Proof.
  intros Hd Hrest.
  assert (H : forall ignore maxDepth,
             In (d ++ "/**") ignore ->
             ~ In (d ++ "/" ++ rest)
                 (findFiles baseDir patterns ignore maxDepth)).
  { intros ignore maxDepth Hin Hf.
    apply findFiles_In in Hf as [V _].
    apply Visits_not_ignored in V.
    rewrite (@shouldIgnore_below ignore d rest Hd Hrest Hin) in V.
    discriminate. }
  split; [exact H|]. split; [|vm_compute; reflexivity].
  intros Hin readFile c Hr.
  apply (H ignoreList defaultMaxDepth Hin).
  apply allFiles_In. exact (results_in_candidates _ _ _ _ _ Hr).
Qed.

Lemma excluded_directory_hides_its_files_witness :
  ~ In "node_modules/lib.js"
      (findFiles Fixtures.jsTree ["**/*.js"] ignoreList 10).
Proof.
  destruct (@excluded_directory_hides_its_files Fixtures.jsTree ["**/*.js"]
              "node_modules" "lib.js" eq_refl eq_refl) as [H _].
  apply (H ignoreList 10). vm_compute. auto.
Defined.

End ExclusionFacts.

(* ================================================================== *)
(** * Diagnostics, completeness and the answer of the tool *)
(* ================================================================== *)

Module ToolFacts.

Import Str FileUtils Index StrFacts IndexFacts WalkFacts Notions Tools.
Import EstimateFacts OrderFacts ReadFacts.

Local Open Scope Z_scope.

Section Reports.

Variable readFile : string -> readResult.

Lemma readLoop_reports (total : Z) (files : list string) :
  forall st,
    (forall p c, In (p, c) (results st) -> reported readFile (log st) p) ->
    forall p c,
      In (p, c) (results (readLoop readFile total files st)) ->
      reported readFile (log (readLoop readFile total files st)) p.
Proof.
  induction files as [|match_ rest IH]; intros st Hst; [exact Hst|].
  cbn [readLoop]. unfold loopBody.
  destruct (readFile match_) as [content|message] eqn:R.
  - destruct (includesChar NUL content) eqn:B.
    + apply IH. intros p c Hin original Hr Hl. simpl.
      apply in_or_app. left. exact (Hst p c Hin original Hr Hl).
    + assert (Hprep :
                results (snd (prepare match_ content st)) = results st
                /\ (forall p,
                      reported readFile (log st) p ->
                      reported readFile
                        (log (snd (prepare match_ content st))) p)
                /\ reported readFile
                     (log (snd (prepare match_ content st))) match_).
      { unfold prepare.
        destruct (Z.gtb_spec (strlen content) MAX_FILE_SIZE) as [Hgt|Hle];
          cbn [snd say results log].
        - split; [reflexivity|]. split.
          + intros p Hp original Hr Hl. apply in_or_app. left.
            exact (Hp original Hr Hl).
          + intros original Hr Hl. rewrite R in Hr. injection Hr as <-.
            apply in_or_app. right. now left.
        - split; [reflexivity|]. split; [auto|].
          intros original Hr Hl. rewrite R in Hr. injection Hr as <-. lia. }
      destruct (prepare match_ content st) as [content' st1].
      cbn [snd] in Hprep. destruct Hprep as (Sr & Hold & Hnew).
      destruct (totalTokens st1 + estimateTokens content' >? MAX_TOTAL_TOKENS).
      * intros p c Hin original Hr Hl. cbn [say results log] in *.
        apply in_or_app. left. rewrite Sr in Hin.
        exact (Hold p (Hst p c Hin) original Hr Hl).
      * apply IH. cbn [results log]. intros p c Hin.
        rewrite Sr in Hin. apply in_app_or in Hin as [Hin|[[= <- <-]|[]]].
        -- exact (Hold p (Hst p c Hin)).
        -- exact Hnew.
  - apply IH. intros p c Hin original Hr Hl. simpl.
    apply in_or_app. left. exact (Hst p c Hin original Hr Hl).
Qed.

End Reports.

(** X24: a truncation is always told.  When a file returned by
    [findAndReadFiles] comes from a text longer than the cap, the
    diagnostics hold the line that names the file, gives the length of
    the text before the truncation and the number of characters
    kept. *)
Theorem truncation_is_reported (readFile : string -> readResult)
    (baseDir : dir) (patterns : list string) (p c original : string) :
  In (p, c) (findAndReadFiles readFile baseDir patterns) ->
  readFile p = ReadOk original ->
  strlen original > MAX_FILE_SIZE ->
  In (truncationLine p original)
    (log (findAndReadFiles_state readFile baseDir patterns)).
Proof.
  intros Hin Hr Hl. unfold findAndReadFiles_state, say. cbn [log].
  apply in_or_app. left.
  rewrite findAndReadFiles_afterLoop in Hin. unfold afterLoop in *.
  apply (@readLoop_reports readFile _ _ initialState) with (c := c);
    [intros ? ? [] | exact Hin | exact Hr | exact Hl].
Qed.

Lemma truncation_is_reported_witness :
  In (truncationLine "package.json" Fixtures.bigContent)
    (log (findAndReadFiles_state Fixtures.bigRead Fixtures.bigTree minimal)).
Proof.
  apply (@truncation_is_reported Fixtures.bigRead Fixtures.bigTree minimal
           "package.json"
           (truncateContent Fixtures.bigContent MAX_FILE_SIZE)
           Fixtures.bigContent).
  - apply In_files. vm_compute. reflexivity.
  - reflexivity.
  - vm_compute. reflexivity.
Defined.

Lemma sizesOf_report (found : list (string * string)) :
  sizesOf (map report found) = charsOf found.
Proof.
  unfold sizesOf, charsOf.
  induction found as [|f found IH]; cbn [map fold_right]; [reflexivity|].
  now rewrite IH.
Qed.

(** X25: the answers of the tool [collect_repo_files].  The handler
    throws exactly when the path is not a directory ([fs.stat] fails or
    the path is something else); on a directory it answers with the path
    it was given, [filesCollected] is the number of files listed, their
    [sizeBytes] add up to at most 60000, the warning is given exactly
    when no candidate is a text, and files are listed exactly when there
    is no warning. *)
Theorem collect_tool_answers (readFile : string -> readResult)
    (path_ : string) (depthArg : option scanDepth) :
  (forall stats,
      (exists message,
          collectRepoFilesTool readFile path_ stats depthArg = inl message)
      <-> forall tree, stats <> StatDirectory tree)
  /\ forall tree,
       exists a,
         collectRepoFilesTool readFile path_ (StatDirectory tree) depthArg
         = inr a
         /\ repoPath a = path_
         /\ filesCollected a = Z.of_nat (List.length (files a))
         /\ sizesOf (files a) <= 60000
         /\ (warning a = Some noFilesWarning
             <-> forall p,
                   In p (allFiles tree
                           (getFilePatterns
                              match depthArg with
                              | Some d => depthName d
                              | None => "standard"
                              end)) ->
                   isText readFile p = false)
         /\ (warning a = None <-> files a <> []).
Proof.
  split.
  - intros stats. split.
    + intros (message & E) tree ->. unfold collectRepoFilesTool in E.
      destruct (Z.of_nat _ =? 0); discriminate.
    + intros H. destruct stats as [message| |tree].
      * eexists. reflexivity.
      * eexists. reflexivity.
      * destruct (H tree eq_refl).
  - intros tree. unfold collectRepoFilesTool.
    set (patterns := getFilePatterns
                       match depthArg with
                       | Some d => depthName d
                       | None => "standard"
                       end).
    pose proof (charsOf_le (findAndReadFiles readFile tree patterns)) as Hc.
    pose proof (budget_holds readFile tree patterns) as Hb.
    unfold MAX_TOTAL_TOKENS in Hb.
    destruct (text_candidates readFile tree patterns)
      as [Hnone|(pre & c & post & content & El & Hpre & R & B)].
    + destruct (@readLoop_skips readFile
                  (Z.of_nat (List.length (allFiles tree patterns)))
                  [] (allFiles tree patterns) initialState Hnone)
        as (st' & E & Hr & _).
      rewrite List.app_nil_r in E.
      assert (E0 : findAndReadFiles readFile tree patterns = []).
      { rewrite findAndReadFiles_afterLoop. unfold afterLoop.
        rewrite E. exact Hr. }
      rewrite E0. eexists. split; [reflexivity|]. cbn.
      repeat split; try lia; try discriminate; auto.
      intros H. now contradiction H.
    + destruct (@readLoop_first_text readFile
                  (Z.of_nat (List.length (allFiles tree patterns)))
                  pre c post content Hpre R B) as (more & Er).
      rewrite <- El in Er.
      assert (E0 : findAndReadFiles readFile tree patterns
                   = (c, truncateContent content MAX_FILE_SIZE) :: more).
      { rewrite findAndReadFiles_afterLoop. exact Er. }
      rewrite E0 in *. eexists. split; [reflexivity|].
      cbn [repoPath filesCollected files warning].
      rewrite length_map. split; [reflexivity|]. split; [reflexivity|].
      split; [rewrite sizesOf_report; lia|].
      split; split; try discriminate; auto.
      intros H. exfalso.
      assert (Hc' : isText readFile c = false).
      { apply H. rewrite El. apply in_or_app. right. now left. }
      unfold isText in Hc'. rewrite R, B in Hc'. discriminate.
Qed.

Lemma collect_tool_answers_witness :
  exists message,
    collectRepoFilesTool Fixtures.smallRead "/tmp/package.json" StatOther
      (Some Minimal)
    = inl message.
Proof.
  destruct (@collect_tool_answers Fixtures.smallRead "/tmp/package.json"
              (Some Minimal)) as [H _].
  apply (H StatOther). discriminate.
Defined.

Lemma costOf_nonneg (readFile : string -> readResult) (p : string) :
  0 <= costOf readFile p.
Proof.
  unfold costOf. destruct (readFile p) as [content|]; [|lia].
  destruct (includesChar NUL content); [lia|].
  pose proof (estimateTokens_bounds (truncateContent content MAX_FILE_SIZE)).
  pose proof (strlen_nonneg (truncateContent content MAX_FILE_SIZE)). lia.
Qed.

Lemma totalCost_nonneg (readFile : string -> readResult)
    (files : list string) :
  0 <= totalCost readFile files.
Proof.
  unfold totalCost.
  induction files as [|p files IH]; cbn [fold_right]; [lia|].
  pose proof (costOf_nonneg readFile p). lia.
Qed.

(** While what is left fits, the loop takes every text. *)
Lemma readLoop_takes_all (readFile : string -> readResult) (total : Z)
    (files : list string) :
  forall st,
    totalTokens st + totalCost readFile files <= MAX_TOTAL_TOKENS ->
    results (readLoop readFile total files st)
    = (results st
       ++ map (taken readFile) (filter (isText readFile) files))%list.
Proof.
  induction files as [|p rest IH]; intros st Hfit.
  - simpl. now rewrite List.app_nil_r.
  - cbn [readLoop filter]. unfold totalCost in Hfit.
    cbn [fold_right] in Hfit. fold (totalCost readFile rest) in Hfit.
    pose proof (totalCost_nonneg readFile rest) as Hrest.
    destruct (loopBody_cases readFile total p st)
      as [(line & -> & Hbin)
         |(content & st1 & R & B & Sr & St & [(Hgt & _)|(Hle & ->)])].
    + assert (T : isText readFile p = false /\ costOf readFile p = 0).
      { unfold isText, costOf. destruct (readFile p) as [content|];
          [|auto]. now rewrite (Hbin content eq_refl). }
      destruct T as [T C]. rewrite T. rewrite C in Hfit.
      rewrite IH; [reflexivity | simpl; lia].
    + exfalso. unfold costOf in Hfit. rewrite R, B in Hfit.
      simpl in Hgt. lia.
    + assert (T : isText readFile p = true).
      { unfold isText. now rewrite R, B. }
      rewrite T. unfold costOf in Hfit. rewrite R, B in Hfit.
      rewrite IH by (simpl; lia).
      cbn [results map]. unfold taken at 2. rewrite R.
      now rewrite <- List.app_assoc.
Qed.

(** X26: what fits is returned.  When the costs of the candidates that
    are texts add up to at most the budget, [findAndReadFiles] returns
    every candidate that is read without error and holds no null byte,
    in the order of the candidates, each with its text after
    [truncateContent]. *)
Theorem what_fits_is_returned (readFile : string -> readResult)
    (baseDir : dir) (patterns : list string) :
  totalCost readFile (allFiles baseDir patterns) <= MAX_TOTAL_TOKENS ->
  findAndReadFiles readFile baseDir patterns
  = map (taken readFile)
      (filter (isText readFile) (allFiles baseDir patterns)).
Proof.
  intros Hfit. rewrite findAndReadFiles_afterLoop. unfold afterLoop.
  rewrite readLoop_takes_all; [reflexivity|]. simpl. exact Hfit.
Qed.

Lemma what_fits_is_returned_witness :
  findAndReadFiles Fixtures.binaryRead Fixtures.binaryTree standard
  = map (taken Fixtures.binaryRead)
      (filter (isText Fixtures.binaryRead)
         (allFiles Fixtures.binaryTree standard)).
Proof.
  apply (@what_fits_is_returned Fixtures.binaryRead Fixtures.binaryTree
           standard).
  vm_compute. discriminate.
Defined.

Lemma findFiles_sameDir (baseDir baseDir' : dir)
    (patterns ignore : list string) (maxDepth : Z) :
  sameDir baseDir baseDir' ->
  findFiles baseDir' patterns ignore maxDepth
  = findFiles baseDir patterns ignore maxDepth.
Proof.
  intros Hsame. apply sorted_unique; try apply FindFacts.findFiles_sorted.
  intros p. rewrite !findFiles_In.
  now rewrite (sameDir_Visits (map normalizePattern ignore) maxDepth Hsame).
Qed.

(** X27: what is collected does not depend on the order in which
    [readdir] lists the entries: for two trees that differ by that order
    only, [findAndReadFiles] returns the same files with the same texts
    in the same order, and the handler of [collect_repo_files] gives the
    same answer.  (The diagnostics of [walk] about directories that
    cannot be read follow the order of the listings; nothing is said of
    them here.) *)
Theorem collection_does_not_depend_on_listing_order
    (readFile : string -> readResult) (baseDir baseDir' : dir) :
  sameDir baseDir baseDir' ->
  (forall patterns,
      findAndReadFiles readFile baseDir' patterns
      = findAndReadFiles readFile baseDir patterns)
  /\ (forall path_ depthArg,
        collectRepoFilesTool readFile path_ (StatDirectory baseDir') depthArg
        = collectRepoFilesTool readFile path_ (StatDirectory baseDir)
            depthArg).
Proof.
  intros Hsame.
  assert (H : forall patterns,
             findAndReadFiles readFile baseDir' patterns
             = findAndReadFiles readFile baseDir patterns).
  { intros patterns.
    unfold findAndReadFiles, findAndReadFiles_state, afterLoop, allFiles.
    now rewrite (findFiles_sameDir patterns ignoreList defaultMaxDepth
                   Hsame). }
  split; [exact H|].
  intros path_ depthArg. unfold collectRepoFilesTool. now rewrite H.
Qed.

Lemma collection_does_not_depend_on_listing_order_witness :
  findAndReadFiles Fixtures.smallRead
    (Listing [File "package.json"; File "README.md"]) standard
  = findAndReadFiles Fixtures.smallRead Fixtures.smallTree standard.
Proof.
  destruct (@collection_does_not_depend_on_listing_order Fixtures.smallRead
              Fixtures.smallTree
              (Listing [File "package.json"; File "README.md"])) as [H _].
  - apply sameDir_listing, sameEntries_swap.
  - apply H.
Defined.

End ToolFacts.
